(** * Verification of the video batch resizer (video_resize.py, videoresize_4_1.py)

    Shallow embedding of the resize-parameter resolver ([set_size],
    [set_bit_rate], [set_fps], [set_parameters]), of the frame-rate parsing
    of [get_infoDict] and of the conversion loop [resize].

    Python [float] is IEEE 754 binary64; its operations are the ones of the
    standard library's executable specification [SpecFloat] at precision 53
    and maximal exponent 1024.  Python [int] is [Z]. *)

From Stdlib Require Import ZArith Lia Bool List String Ascii Reals Lra.
From Stdlib Require Import Floats.SpecFloat.
From stdpp Require Import gmap strings.

Local Open Scope Z_scope.

(** ** Python numbers *)

Module Py.

Definition prec : Z := 53.
Definition emax : Z := 1024.

(** A Python numeric value: an [int] or a [float]. *)
Inductive num :=
| Int (z : Z)
| Float (f : spec_float).

(** Conversion of an [int] to a [float] (round to nearest, ties to even);
    [None] is OverflowError. *)
Definition int2float (z : Z) : option spec_float :=
  match binary_normalize prec emax z 0 false with
  | S754_infinity _ => None
  | f => Some f
  end.

(** [a / b] on two ints: the correctly rounded quotient; [None] is
    ZeroDivisionError or OverflowError. *)
Definition int_truediv (a b : Z) : option spec_float :=
  match a, b with
  | _, Z0 => None
  | Z0, _ => Some (S754_zero (b <? 0))
  | _, _ =>
      match SFdiv prec emax (S754_finite (a <? 0) (Z.to_pos (Z.abs a)) 0)
                            (S754_finite (b <? 0) (Z.to_pos (Z.abs b)) 0) with
      | S754_infinity _ => None
      | f => Some f
      end
  end.

Definition to_float (x : num) : option spec_float :=
  match x with
  | Int z => int2float z
  | Float f => Some f
  end.

(** [a * b]. *)
Definition mul (a b : num) : option num :=
  match a, b with
  | Int x, Int y => Some (Int (x * y))
  | _, _ =>
      fa ← to_float a; fb ← to_float b; Some (Float (SFmul prec emax fa fb))
  end.

(** Exact comparison of an int with a float, as Python does it. *)
Definition int_float_compare (z : Z) (f : spec_float) : option comparison :=
  match f with
  | S754_nan => None
  | S754_infinity s => Some (if s then Gt else Lt)
  | S754_zero _ => Some (z ?= 0)
  | S754_finite s m e =>
      let v := if s then Z.neg m else Z.pos m in
      Some match e with
           | Z.neg k => z * 2 ^ Z.pos k ?= v
           | _ => z ?= v * 2 ^ e
           end
  end.

Definition compare (a b : num) : option comparison :=
  match a, b with
  | Int x, Int y => Some (x ?= y)
  | Float x, Float y => SFcompare x y
  | Int x, Float y => int_float_compare x y
  | Float x, Int y => CompOpp <$> int_float_compare y x
  end.

(** [a < b], [a > b], [a == b], [a != b]. *)
Definition lt (a b : num) : bool :=
  match compare a b with Some Lt => true | _ => false end.
Definition gt (a b : num) : bool :=
  match compare a b with Some Gt => true | _ => false end.
Definition eq (a b : num) : bool :=
  match compare a b with Some Eq => true | _ => false end.
Definition ne (a b : num) : bool := negb (eq a b).

(** The builtins [min(a, b)], [max(a, b)] and [max(a, b, c)]: the first
    argument is kept unless a later one is strictly smaller (larger). *)
Definition min2 (a b : num) : num := if lt b a then b else a.
Definition max2 (a b : num) : num := if gt b a then b else a.
Definition max3 (a b c : num) : num := max2 (max2 a b) c.

(** [int(x)]: truncation toward zero; [None] is the OverflowError or
    ValueError raised on an infinity or a NaN. *)
Definition int (x : num) : option Z :=
  match x with
  | Int z => Some z
  | Float (S754_zero _) => Some 0
  | Float (S754_finite s m e) =>
      let a := match e with
               | Z.neg k => Z.pos m / 2 ^ Z.pos k
               | _ => Z.pos m * 2 ^ e
               end in
      Some (if s then - a else a)
  | Float _ => None
  end.

End Py.

(** ** Configuration *)

Inductive mode := Fullhd | M4k | Box1920 | Box3840 | Custom | Divide.

(** [config_dict["custom_param"]]: [None] by default, a pair of ints for
    mode "custom", a float for mode "divide". *)
Inductive custom_param :=
| CPNone
| CPSize (w h : Z)
| CPRatio (r : spec_float).

Inductive limit_direction := LX | LY | LXY.

(** ** The resolver: [set_parameters] and its local functions *)

(** [preset_sizes[mode]] unpacked as [target_w, target_h]; [None] when the
    unpacking raises. *)
Definition preset_sizes (m : mode) (cp : custom_param) : option (Z * Z) :=
  match m with
  | Fullhd => Some (1920, 1080)
  | M4k => Some (3840, 2160)
  | Box1920 => Some (1920, 1920)
  | Box3840 => Some (3840, 3840)
  | Custom | Divide =>
      match cp with CPSize w h => Some (w, h) | _ => None end
  end.

(** [target / origin if origin > target else 1]. *)
Definition axis_ratio (target origin : Z) : option Py.num :=
  if origin >? target then Py.Float <$> Py.int_truediv target origin
  else Some (Py.Int 1).

(** The ratio chosen by the first [if]/[elif] of [set_size]. *)
Definition mode_ratio (origin_size : Z * Z) (m : mode) (cp : custom_param)
    (ld : limit_direction) : option Py.num :=
  match m with
  | Divide =>
      match cp with CPRatio r => Some (Py.Float r) | _ => None end
  | _ =>
      '(target_w, target_h) ← preset_sizes m cp;
      let '(origin_w, origin_h) := origin_size in
      ratio_w ← axis_ratio target_w origin_w;
      ratio_h ← axis_ratio target_h origin_h;
      Some match ld with
           | LX => ratio_w
           | LY => ratio_h
           | LXY => Py.min2 ratio_w ratio_h
           end
  end.

(** [int(origin * ratio)]. *)
Definition scaled (origin : Z) (ratio : Py.num) : option Z :=
  Py.mul (Py.Int origin) ratio ≫= Py.int.

(** The ratio after the minimum-size adjustment, when it fires. *)
Definition min_ratio (origin_size min_size : Z * Z) (ld : limit_direction)
    (ratio : Py.num) : option Py.num :=
  let '(origin_w, origin_h) := origin_size in
  let '(min_w, min_h) := min_size in
  ratio_w ← Py.int_truediv min_w origin_w;
  ratio_h ← Py.int_truediv min_h origin_h;
  Some match ld with
       | LX => Py.max2 ratio (Py.Float ratio_w)
       | LY => Py.max2 ratio (Py.Float ratio_h)
       | LXY => Py.max3 ratio (Py.Float ratio_w) (Py.Float ratio_h)
       end.

(** [if n % 2 == 1: n += 1]. *)
Definition make_even (n : Z) : Z := if n mod 2 =? 1 then n + 1 else n.

Definition set_size (origin_size : Z * Z) (m : mode) (cp : custom_param)
    (min_size : Z * Z) (ld : limit_direction) : option (Z * Z) :=
  ratio ← mode_ratio origin_size m cp ld;
  let '(origin_w, origin_h) := origin_size in
  new_w ← scaled origin_w ratio;
  new_h ← scaled origin_h ratio;
  let '(min_w, min_h) := min_size in
  '(new_w, new_h) ←
    (if (new_w <? min_w) || (new_h <? min_h) then
       ratio ← min_ratio origin_size min_size ld ratio;
       new_w ← scaled origin_w ratio;
       new_h ← scaled origin_h ratio;
       Some (new_w, new_h)
     else Some (new_w, new_h));
  Some (make_even new_w, make_even new_h).

(** [set_fps]: [config_fps if origin_fps > config_fps else origin_fps]. *)
Definition set_fps (origin_fps config_fps : Py.num) : Py.num :=
  if Py.gt origin_fps config_fps then config_fps else origin_fps.

(** Metadata of one probed video ([video_info_dict[path]]). *)
Record video_info := {
  vi_size : Z * Z;
  vi_bit_rate : Z;
  vi_avg_frame_rate : spec_float;
  vi_duration : spec_float
}.

(** One entry of [resize_param_dict]. *)
Record resize_param := {
  size : Z * Z;
  bit_rate : Py.num;
  fps : Py.num;
  change_required : bool;
  orig_size : Z * Z;
  orig_bit_rate : Z;
  orig_fps : spec_float
}.

(** [new_size != orig_size] on two pairs of ints. *)
Definition size_ne (a b : Z * Z) : bool :=
  negb ((a.1 =? b.1) && (a.2 =? b.2)).

(** The body of the loop of [set_parameters], given the three new values. *)
Definition make_param (info : video_info) (new_size : Z * Z)
    (new_bitrate new_fps : Py.num) : resize_param :=
  {| size := new_size;
     bit_rate := new_bitrate;
     fps := new_fps;
     change_required :=
       size_ne new_size (vi_size info)
       || Py.ne new_bitrate (Py.Int (vi_bit_rate info))
       || Py.ne new_fps (Py.Float (vi_avg_frame_rate info));
     orig_size := vi_size info;
     orig_bit_rate := vi_bit_rate info;
     orig_fps := vi_avg_frame_rate info |}.

(** *** videoresize_4_1.py: bit rate from bits per pixel *)

Module V41.

Record config := {
  cfg_mode : mode;
  cfg_custom_param : custom_param;
  cfg_limit_direction : limit_direction;
  cfg_min_size : Z * Z;
  cfg_fps : Py.num;
  cfg_bpp : spec_float;
  cfg_nochange_copy : bool
}.

(** [bpp * width * height * fps]. *)
Definition bitrateFromBPP (bpp : spec_float) (width height : Z)
    (fps : Py.num) : option Py.num :=
  a ← Py.mul (Py.Float bpp) (Py.Int width);
  b ← Py.mul a (Py.Int height);
  Py.mul b fps.

Definition set_bit_rate (origin_bitrate : Z) (cfg_bpp : spec_float)
    (cfg_width cfg_height : Z) (cfg_fps : Py.num) : option Py.num :=
  calculated_bitrate ← bitrateFromBPP cfg_bpp cfg_width cfg_height cfg_fps;
  Some (if Py.gt (Py.Int origin_bitrate) calculated_bitrate
        then calculated_bitrate else Py.Int origin_bitrate).

Definition set_parameter (c : config) (info : video_info) : option resize_param :=
  new_size ← set_size (vi_size info) (cfg_mode c) (cfg_custom_param c)
                      (cfg_min_size c) (cfg_limit_direction c);
  let new_fps := set_fps (Py.Float (vi_avg_frame_rate info)) (cfg_fps c) in
  new_bitrate ← set_bit_rate (vi_bit_rate info) (cfg_bpp c)
                             new_size.1 new_size.2 new_fps;
  Some (make_param info new_size new_bitrate new_fps).

(** [set_parameters]: one entry per probed video, in the order of the
    dictionary; an exception in one entry aborts the whole call. *)
Definition set_parameters (c : config) (video_info_dict : list (string * video_info))
    : option (list (string * resize_param)) :=
  mapM (λ '(path, info), p ← set_parameter c info; Some (path, p)) video_info_dict.

End V41.

(** *** video_resize.py: absolute bit-rate cap *)

Module V37.

Record config := {
  cfg_mode : mode;
  cfg_custom_param : custom_param;
  cfg_limit_direction : limit_direction;
  cfg_min_size : Z * Z;
  cfg_fps : Py.num;
  cfg_bitrate : Z;
  cfg_nochange_copy : bool
}.

Definition set_bit_rate (origin_bitrate config_bitrate : Z) : Z :=
  if origin_bitrate >? config_bitrate then config_bitrate else origin_bitrate.

Definition set_parameter (c : config) (info : video_info) : option resize_param :=
  new_size ← set_size (vi_size info) (cfg_mode c) (cfg_custom_param c)
                      (cfg_min_size c) (cfg_limit_direction c);
  let new_bitrate := set_bit_rate (vi_bit_rate info) (cfg_bitrate c) in
  let new_fps := set_fps (Py.Float (vi_avg_frame_rate info)) (cfg_fps c) in
  Some (make_param info new_size (Py.Int new_bitrate) new_fps).

Definition set_parameters (c : config) (video_info_dict : list (string * video_info))
    : option (list (string * resize_param)) :=
  mapM (λ '(path, info), p ← set_parameter c info; Some (path, p)) video_info_dict.

End V37.

(** ** [get_infoDict]: the average frame rate *)

(** The outcome of running a Python expression on the modelled fragment. *)
Inductive outcome (A : Type) :=
| Value (a : A)
| Raises
| Unmodelled.
Arguments Value {A} a.
Arguments Raises {A}.
Arguments Unmodelled {A}.

Module Eval.

(** The fragment of [eval] modelled here: decimal integer literals joined
    by the binary operators [*] and [/], without blanks.  Any other
    character, and two operators in a row (which includes [**] and [//]),
    are outside the fragment. *)
Inductive token :=
| TNum (digits : list Z)
| TStar
| TSlash.

Definition digit_of (c : ascii) : option Z :=
  let n := Z.of_N (N_of_ascii c) in
  if (48 <=? n) && (n <=? 57) then Some (n - 48) else None.

Definition flush (cur : list Z) (rest : list token) : list token :=
  match cur with
  | [] => rest
  | _ => TNum cur :: rest
  end.

Fixpoint tokenize (cur : list Z) (s : string) : option (list token) :=
  match s with
  | EmptyString => Some (flush cur [])
  | String c s' =>
      match digit_of c with
      | Some d => tokenize (cur ++ [d]) s'
      | None =>
          if Ascii.eqb c "*" then (λ r, flush cur (TStar :: r)) <$> tokenize [] s'
          else if Ascii.eqb c "/" then (λ r, flush cur (TSlash :: r)) <$> tokenize [] s'
          else None
      end
  end.

Definition is_op (t : token) : bool :=
  match t with TNum _ => false | _ => true end.

Fixpoint two_ops (ts : list token) : bool :=
  match ts with
  | a :: (b :: _) as r => (is_op a && is_op b) || two_ops r
  | _ => false
  end.

(** The longest decimal literal the interpreter of the shebang line
    (Python 3.11) converts to an int: [sys.get_int_max_str_digits()]. *)
Definition max_str_digits : nat := 4300.

(** A decimal literal may not start with [0] unless it is all zeros, and
    one that is not all zeros may not have more than [max_str_digits]
    digits; [eval] raises SyntaxError on any other. *)
Definition literal_ok (ds : list Z) : bool :=
  match ds with
  | [] => false
  | 0 :: _ => forallb (Z.eqb 0) ds
  | _ => (length ds <=? max_str_digits)%nat
  end.

Definition literal_value (ds : list Z) : Z :=
  fold_left (λ a d, 10 * a + d) ds 0.

Definition literal (ds : list Z) : outcome Py.num :=
  if literal_ok ds then Value (Py.Int (literal_value ds)) else Raises.

Definition of_option {A} (o : option A) : outcome A :=
  match o with Some a => Value a | None => Raises end.

(** [a / b]; ZeroDivisionError on a zero divisor. *)
Definition truediv (a b : Py.num) : outcome Py.num :=
  match a, b with
  | Py.Int x, Py.Int y => of_option (Py.Float <$> Py.int_truediv x y)
  | _, _ =>
      match Py.to_float a, Py.to_float b with
      | Some fa, Some fb =>
          match fb with
          | S754_zero _ => Raises
          | _ => Value (Py.Float (SFdiv Py.prec Py.emax fa fb))
          end
      | _, _ => Raises
      end
  end.

(** Left-to-right evaluation of [acc op literal op literal ...]. *)
Fixpoint eval_ops (acc : Py.num) (ts : list token) : outcome Py.num :=
  match ts with
  | [] => Value acc
  | TStar :: TNum ds :: ts' =>
      match literal ds with
      | Value v =>
          match Py.mul acc v with
          | Some r => eval_ops r ts'
          | None => Raises
          end
      | o => o
      end
  | TSlash :: TNum ds :: ts' =>
      match literal ds with
      | Value v =>
          match truediv acc v with
          | Value r => eval_ops r ts'
          | o => o
          end
      | o => o
      end
  | _ => Raises
  end.

(** Every literal is checked before anything is evaluated. *)
Definition syntax_ok (ts : list token) : bool :=
  forallb (λ t, match t with TNum ds => literal_ok ds | _ => true end) ts.

Definition eval (s : string) : outcome Py.num :=
  match tokenize [] s with
  | None => Unmodelled
  | Some ts =>
      if two_ops ts then Unmodelled
      else if negb (syntax_ok ts) then Raises
      else match ts with
           | TNum ds :: ts' =>
               match literal ds with
               | Value v => eval_ops v ts'
               | o => o
               end
           | _ => Raises
           end
  end.

End Eval.

(** [float(eval(info["avg_frame_rate"])) if "avg_frame_rate" in info else 0.0] *)
Definition avg_frame_rate (field : option string) : outcome spec_float :=
  match field with
  | None => Value (S754_zero false)
  | Some s =>
      match Eval.eval s with
      | Value v => Eval.of_option (Py.to_float v)
      | Raises => Raises
      | Unmodelled => Unmodelled
      end
  end.

(** What the specification asks for: split the string at its slash into a
    numerator and a denominator, both decimal integers, and divide them;
    anything else is rejected. *)
Module Spec.

Fixpoint split_slash (acc : list Z) (s : string) : option (list Z * string) :=
  match s with
  | EmptyString => None
  | String c s' =>
      if Ascii.eqb c "/" then Some (acc, s')
      else d ← Eval.digit_of c; split_slash (acc ++ [d]) s'
  end.

Fixpoint all_digits (acc : list Z) (s : string) : option (list Z) :=
  match s with
  | EmptyString => Some acc
  | String c s' => d ← Eval.digit_of c; all_digits (acc ++ [d]) s'
  end.

Definition parse_rational (s : string) : option spec_float :=
  '(n, rest) ← split_slash [] s;
  d ← all_digits [] rest;
  if bool_decide (n = []) || bool_decide (d = []) then None
  else Py.int_truediv (Eval.literal_value n) (Eval.literal_value d).

End Spec.

(** ** The conversion loop [resize] *)

(** A file: its bytes and its timestamps. *)
Record file := { content : list Byte.byte; times : Z }.

Definition getsize (fs : gmap string file) (p : string) : option Z :=
  (λ f, Z.of_nat (length (content f))) <$> fs !! p.

(** [shutil.copy2(src, dst)]: bytes and timestamps; [None] when it raises. *)
Definition copy2 (fs : gmap string file) (src dst : string)
    : option (gmap string file) :=
  f ← fs !! src; Some (<[dst := f]> fs).

(** [copy_file_times(src, dst)] on a POSIX host ([shutil.copystat]). *)
Definition copy_file_times (fs : gmap string file) (src dst : string)
    : option (gmap string file) :=
  s ← fs !! src; d ← fs !! dst;
  Some (<[dst := {| content := content d; times := times s |}]> fs).

(** What running the encoder command did: the process could not be
    launched, or it exited with [returncode] after possibly writing the
    output file.  The command is taken to touch no file but the output
    path it is given; what the shell makes of a path with blanks or
    quotes in it is outside the model. *)
Inductive run_result :=
| LaunchFailed
| Exited (returncode : Z) (written : option file).

(** The lines the loop appends to the log file of the run, the file
    [init_logger] opened in the current directory.  The log file is kept
    apart from the files of [gmap string file] below: those are all the
    other files, and the list of lines stands for what the run appends to
    the log file.  [LogEta] is the line with the estimated finish time; it
    carries the two counts the estimate is computed from.  The clock, and
    with it the estimated time itself, is not modelled. *)
Inductive event :=
| LogExists (output_path : string)
| LogNoChange (path : string)
| LogCopied (output_path : string)
| LogCopyFailed (path : string)
| LogSkip (path : string)
| LogConvert (output_path : string)
| LogFfmpegError (path : string)
| LogFfmpegFailed (path : string)
| LogLarger (path : string)
| LogSourceCopied (output_path : string)
| LogTimes (output_path : string)
| LogTimesFailed (output_path : string)
| LogSizeCheckFailed (output_path : string)
| LogEta (idx : nat) (processed total : Z).

(** How the body of the loop left one video. *)
Inductive result :=
| AlreadyExists
| NoChange
| Failed
| Converted.

Section Resize.

(** The external encoder, and the map from a source path to its output
    path under the output directory. *)
Variable ffmpeg : gmap string file → string → string → resize_param → run_result.
Variable output_of : string → string.
Variable nochange_copy : bool.

(** The part of the loop body that both programs share: everything but
    the byte counts and the estimate of the finish time. *)
Definition execute (fs : gmap string file) (path : string) (params : resize_param)
    : gmap string file * list event * result :=
  let output_path := output_of path in
  match fs !! output_path with
  | Some _ => (fs, [LogExists output_path], AlreadyExists)
  | None =>
      if negb (change_required params) then
        if nochange_copy then
          match copy2 fs path output_path with
          | Some fs' => (fs', [LogNoChange path; LogCopied output_path], NoChange)
          | None => (fs, [LogNoChange path; LogCopyFailed path], NoChange)
          end
        else (fs, [LogNoChange path; LogSkip path], NoChange)
      else
        match ffmpeg fs path output_path params with
        | LaunchFailed =>
            (fs, [LogConvert output_path; LogFfmpegFailed path], Failed)
        | Exited returncode written =>
            let fs1 := match written with
                       | Some f => <[output_path := f]> fs
                       | None => fs
                       end in
            if negb (returncode =? 0) then
              (fs1, [LogConvert output_path; LogFfmpegError path], Failed)
            else
              match getsize fs1 path, getsize fs1 output_path with
              | Some input_size, Some output_size =>
                  if output_size >? input_size then
                    match copy2 fs1 path output_path with
                    | Some fs2 =>
                        (fs2, [LogConvert output_path; LogLarger path;
                               LogSourceCopied output_path], Converted)
                    | None =>
                        (fs1, [LogConvert output_path; LogLarger path;
                               LogSizeCheckFailed output_path], Converted)
                    end
                  else
                    match copy_file_times fs1 path output_path with
                    | Some fs2 =>
                        (fs2, [LogConvert output_path; LogTimes output_path], Converted)
                    | None =>
                        (fs1, [LogConvert output_path; LogTimesFailed output_path],
                         Converted)
                    end
              | _, _ =>
                  (fs1, [LogConvert output_path; LogSizeCheckFailed output_path],
                   Converted)
              end
        end
  end.

(** The state of the loop of videoresize_4_1.py. *)
Record state := {
  st_fs : gmap string file;
  st_log : list event;
  total_bytes : Z;
  processed_bytes : Z;
  num_deletedVideos : Z
}.

(** One iteration of the loop of videoresize_4_1.py; [None] when an
    exception escapes ([os.path.getsize] on a missing source).  Two more
    places of the loop can raise and are left out, both outside the files
    and counts followed here: the formatting of the estimated finish time
    ([datetime.fromtimestamp], which depends on the clock) and of the bit
    rate in the command line ([bit_rate/1000] on an int too large for a
    float).  So a run of the program that ends normally is a run of the
    model that returns [Some], and [None] here is an exception there; the
    converse of the first is not claimed. *)
Definition iteration (st : state) (idx : nat) (path : string)
    (params : resize_param) : option state :=
  let '(fs', evs, r) := execute (st_fs st) path params in
  match r with
  | AlreadyExists | NoChange =>
      sz ← getsize (st_fs st) path;
      let total := total_bytes st - sz in
      Some {| st_fs := fs';
              st_log := st_log st ++ evs ++ [LogEta idx (processed_bytes st) total];
              total_bytes := total;
              processed_bytes := processed_bytes st;
              num_deletedVideos := num_deletedVideos st + 1 |}
  | Failed =>
      Some {| st_fs := fs';
              st_log := st_log st ++ evs;
              total_bytes := total_bytes st;
              processed_bytes := processed_bytes st;
              num_deletedVideos := num_deletedVideos st |}
  | Converted =>
      sz ← getsize fs' path;
      let processed := processed_bytes st + sz in
      Some {| st_fs := fs';
              st_log := st_log st ++ evs ++ [LogEta idx processed (total_bytes st)];
              total_bytes := total_bytes st;
              processed_bytes := processed;
              num_deletedVideos := num_deletedVideos st |}
  end.

Fixpoint loop (st : state) (idx : nat) (items : list (string * resize_param))
    : option state :=
  match items with
  | [] => Some st
  | (path, params) :: rest =>
      st' ← iteration st idx path params; loop st' (S idx) rest
  end.

(** [sum(os.path.getsize(path) for path in resize_param_dict.keys())] *)
Fixpoint sum_sizes (fs : gmap string file) (items : list (string * resize_param))
    : option Z :=
  match items with
  | [] => Some 0
  | (path, _) :: rest =>
      sz ← getsize fs path; s ← sum_sizes fs rest; Some (sz + s)
  end.

Definition resize (fs : gmap string file)
    (resize_param_dict : list (string * resize_param)) : option state :=
  total ← sum_sizes fs resize_param_dict;
  loop {| st_fs := fs; st_log := []; total_bytes := total;
          processed_bytes := 0; num_deletedVideos := 0 |}
       0 resize_param_dict.

(** The state of the loop of video_resize.py. *)
Record state37 := {
  fs37 : gmap string file;
  log37 : list event;
  deleted37 : Z
}.

(** One iteration of the loop of video_resize.py, [deleted37] being its
    [num_deletedVideos].  The body is the same; a video whose output
    exists, or whose encoder run failed, leaves at [continue].  Otherwise
    (no change required, or converted) the finish time is estimated from
    the counts of videos: [elapsed_time / processed_count_for_calculation]
    raises ZeroDivisionError when that count is 0.  As for [iteration], the
    log lines go to the log file, kept apart from [fs37], and the exceptions
    of the formatting of the finish time and of the bit rate are left out. *)
Definition iteration37 (total_videos : Z) (st : state37) (idx : nat)
    (path : string) (params : resize_param) : option state37 :=
  let '(fs', evs, r) := execute (fs37 st) path params in
  match r with
  | AlreadyExists =>
      Some {| fs37 := fs'; log37 := log37 st ++ evs; deleted37 := deleted37 st + 1 |}
  | Failed =>
      Some {| fs37 := fs'; log37 := log37 st ++ evs; deleted37 := deleted37 st |}
  | NoChange | Converted =>
      let deleted := match r with
                     | NoChange => deleted37 st + 1
                     | _ => deleted37 st
                     end in
      let processed_count := Z.of_nat idx + 1 in
      let processed_count_for_calculation := processed_count - deleted in
      let total_videos_for_calculation := total_videos - deleted in
      if processed_count_for_calculation =? 0 then None
      else Some {| fs37 := fs';
                   log37 := log37 st ++ evs ++
                            [LogEta idx processed_count_for_calculation
                                    total_videos_for_calculation];
                   deleted37 := deleted |}
  end.

Fixpoint loop37 (total_videos : Z) (st : state37) (idx : nat)
    (items : list (string * resize_param)) : option state37 :=
  match items with
  | [] => Some st
  | (path, params) :: rest =>
      st' ← iteration37 total_videos st idx path params;
      loop37 total_videos st' (S idx) rest
  end.

Definition resize37 (fs : gmap string file)
    (resize_param_dict : list (string * resize_param)) : option state37 :=
  loop37 (Z.of_nat (length resize_param_dict))
         {| fs37 := fs; log37 := []; deleted37 := 0 |} 0 resize_param_dict.

End Resize.

(** The number of encoder runs and of finish-time estimates in a log. *)
Definition is_convert (e : event) : bool :=
  match e with LogConvert _ => true | _ => false end.
Definition is_eta (e : event) : bool :=
  match e with LogEta _ _ _ => true | _ => false end.
Definition conversions (log : list event) : nat := length (filter is_convert log).
Definition estimates (log : list event) : nat := length (filter is_eta log).

(** ** Intermediate values of [set_size] *)

(** The size after the first scaling, before the minimum-size test. *)
Definition first_size (origin_size : Z * Z) (m : mode) (cp : custom_param)
    (ld : limit_direction) : option (Z * Z) :=
  ratio ← mode_ratio origin_size m cp ld;
  new_w ← scaled origin_size.1 ratio;
  new_h ← scaled origin_size.2 ratio;
  Some (new_w, new_h).

(** The ratio in force when [set_size] reaches the even rounding. *)
Definition final_ratio (origin_size : Z * Z) (m : mode) (cp : custom_param)
    (min_size : Z * Z) (ld : limit_direction) : option Py.num :=
  ratio ← mode_ratio origin_size m cp ld;
  '(new_w, new_h) ← first_size origin_size m cp ld;
  if (new_w <? min_size.1) || (new_h <? min_size.2)
  then min_ratio origin_size min_size ld ratio
  else Some ratio.

(** The size [set_size] has computed when it reaches the even rounding. *)
Definition computed_size (origin_size : Z * Z) (m : mode) (cp : custom_param)
    (min_size : Z * Z) (ld : limit_direction) : option (Z * Z) :=
  ratio ← final_ratio origin_size m cp min_size ld;
  new_w ← scaled origin_size.1 ratio;
  new_h ← scaled origin_size.2 ratio;
  Some (new_w, new_h).

(** ** Sample inputs *)

Module Sample.

(** 30.0, 29.97002997002997 (30000/1001) and 0.036 *)
Definition f30 : spec_float := S754_finite false 8444249301319680 (-48).
Definition f2997 : spec_float := S754_finite false 8435813487831848 (-48).
Definition bpp036 : spec_float := S754_finite false 5188146770730811 (-57).

Definition c37 : V37.config :=
  {| V37.cfg_mode := Fullhd; V37.cfg_custom_param := CPNone;
     V37.cfg_limit_direction := LXY; V37.cfg_min_size := (1, 1);
     V37.cfg_fps := Py.Int 30; V37.cfg_bitrate := 5000000;
     V37.cfg_nochange_copy := false |}.

Definition c41 : V41.config :=
  {| V41.cfg_mode := Fullhd; V41.cfg_custom_param := CPNone;
     V41.cfg_limit_direction := LXY; V41.cfg_min_size := (1, 1);
     V41.cfg_fps := Py.Int 30; V41.cfg_bpp := bpp036;
     V41.cfg_nochange_copy := false |}.

(** A 1280x720 video and a 1279x719 one, both within every cap. *)
Definition hd : video_info :=
  {| vi_size := (1280, 720); vi_bit_rate := 1000000;
     vi_avg_frame_rate := f30; vi_duration := S754_zero false |}.
Definition odd_hd : video_info :=
  {| vi_size := (1279, 719); vi_bit_rate := 1000000;
     vi_avg_frame_rate := f30; vi_duration := S754_zero false |}.

Definition plan (info : video_info) (new_size : Z * Z) : resize_param :=
  make_param info new_size (Py.Int 1000000) (Py.Float f30).

Definition one_byte : file := {| content := [Byte.x00]; times := 0 |}.
Definition two_bytes : file := {| content := [Byte.x00; Byte.x00]; times := 1 |}.

Definition source_only : gmap string file := {[ "a.mp4" := one_byte ]}.
Definition to_out (p : string) : string := "out/" ++ p.

(** An encoder that fails, and one that writes two bytes. *)
Definition failing (_ : gmap string file) (_ _ : string) (_ : resize_param)
    : run_result := Exited 1 None.
Definition bloating (_ : gmap string file) (_ _ : string) (_ : resize_param)
    : run_result := Exited 0 (Some two_bytes).

(** The plan of [odd_hd]: scaled to 1280x720, so a change is required. *)
Definition resized : resize_param := make_param odd_hd (1280, 720) (Py.Int 1000000) (Py.Float f30).

End Sample.

(** ** Conditions on a batch *)



(** The finish-time estimates one pass of the loop of videoresize_4_1.py
    logs, by the way the pass ended. *)
Definition estimates_of (r : result) : nat :=
  match r with Failed => 0 | _ => 1 end.

(** ** Binary64 values as real numbers *)

Module F64.

Import Py.

Local Open Scope R_scope.

Definition bpow (e : Z) : R := powerRZ 2 e.

(** The real number a float stands for (0 for infinities and NaN). *)
Definition SF2R (f : spec_float) : R :=
  match f with
  | S754_finite s m e => IZR (if s then Z.neg m else Z.pos m) * bpow e
  | _ => 0
  end.

Definition is_finite (f : spec_float) : bool :=
  match f with
  | S754_zero _ | S754_finite _ _ _ => true
  | _ => false
  end.

(** [located m l x]: the real [x] lies in [m, m+1), at the place [l] says. *)
Definition located (m : Z) (l : location) (x : R) : Prop :=
  match l with
  | loc_Exact => x = IZR m
  | loc_Inexact Lt => IZR m < x < IZR m + / 2
  | loc_Inexact Eq => x = IZR m + / 2
  | loc_Inexact Gt => IZR m + / 2 < x < IZR m + 1
  end.

Definition rec_located (r : shr_record) (x : R) : Prop :=
  located (shr_m r) (loc_of_shr_record r) x.

Abbreviation fexp := (SpecFloat.fexp prec emax).

(** The final normalisation of a rounded mantissa [m2] at exponent [e1]. *)
Definition finish (m2 e1 : Z) : spec_float :=
  let '(mrs, e2) := shr_fexp prec emax m2 e1 loc_Exact in
  match shr_m mrs with
  | Z0 => S754_zero false
  | Z.pos m => if (e2 <=? emax - prec)%Z then S754_finite false m e2
               else S754_infinity false
  | Z.neg _ => S754_nan
  end.

(** A float that is zero or finite and positive. *)
Definition nonneg (f : spec_float) : bool :=
  match f with
  | S754_zero _ | S754_finite false _ _ => true
  | _ => false
  end.

(** The floats the resolver computes with: zero or positive, and in the
    canonical form of the format. *)
Definition good (f : spec_float) : Prop :=
  nonneg f = true /\ valid_binary prec emax f = true.

(** [f] is a rounding to nearest of the real [X >= 0]. *)
Definition rounds_to (X : R) (f : spec_float) : Prop :=
  good f /\ 0 <= SF2R f /\
  (forall K g, (-1074 <= g)%Z -> X <= IZR K * bpow g -> X < bpow (g + 53) ->
               SF2R f <= IZR K * bpow g) /\
  (forall K g, (-1074 <= g)%Z -> IZR K * bpow g <= X -> X < bpow (g + 53) ->
               IZR K * bpow g <= SF2R f) /\
  (bpow (-1022) <= X ->
   X * (1 - bpow (-52)) <= SF2R f <= X * (1 + bpow (-52))).

(** What a comparison result says about two reals. *)
Definition cmp_spec (c : comparison) (x y : R) : Prop :=
  match c with
  | Lt => x < y
  | Eq => x = y
  | Gt => y < x
  end.

Definition val (x : num) : R :=
  match x with
  | Int z => IZR z
  | Float f => SF2R f
  end.

(** A number the comparisons are exact on: an int, or a float that is zero
    or positive. *)
Definition ok (x : num) : Prop :=
  match x with
  | Int _ => True
  | Float f => good f
  end.

(** 2^-52, the relative error of one rounding (doubled). *)
Definition eps : R := bpow (-52).

End F64.

(** ** Strings of the form [A*B] *)

(** The digits before the first star and what follows it, read the way
    [Spec.split_slash] reads a string [N/D]. *)
Fixpoint split_star (acc : list Z) (s : string) : option (list Z * string) :=
  match s with
  | EmptyString => None
  | String c s' =>
      if Ascii.eqb c "*" then Some (acc, s')
      else d ← Eval.digit_of c; split_star (acc ++ [d]) s'
  end.

(** ** More counts on the log *)

(** Encoder runs that failed, videos passed over (output present or no
    change required), and videos whose output was found present. *)
Definition is_failure (e : event) : bool :=
  match e with LogFfmpegError _ | LogFfmpegFailed _ => true | _ => false end.
Definition is_skip (e : event) : bool :=
  match e with LogExists _ | LogNoChange _ => true | _ => false end.
Definition is_found (e : event) : bool :=
  match e with LogExists _ => true | _ => false end.
Definition failures (log : list event) : nat := length (filter is_failure log).
Definition found (log : list event) : nat := length (filter is_found log).
Definition skips (log : list event) : nat := length (filter is_skip log).

(** The encoder runs a log records for the output path [q], and the
    videos of a batch with that output path whose plan asks for a change. *)
Fixpoint conversions_of (q : string) (log : list event) : nat :=
  match log with
  | [] => 0
  | LogConvert o :: rest => (if String.eqb o q then 1 else 0) + conversions_of q rest
  | _ :: rest => conversions_of q rest
  end.

Fixpoint to_change_at (output_of : string → string) (q : string)
    (items : list (string * resize_param)) : nat :=
  match items with
  | [] => 0
  | (path, params) :: rest =>
      (if change_required params && String.eqb (output_of path) q then 1 else 0)
      + to_change_at output_of q rest
  end.

(** ** More sample inputs *)

Module Sample2.

(** A 1280x720 video at 900 kb/s, and one whose probe gave no frame rate. *)
Definition low_rate_hd : video_info :=
  {| vi_size := (1280, 720); vi_bit_rate := 900000;
     vi_avg_frame_rate := Sample.f30; vi_duration := S754_zero false |}.
Definition no_fps_hd : video_info :=
  {| vi_size := (1280, 720); vi_bit_rate := 1000000;
     vi_avg_frame_rate := S754_zero false; vi_duration := S754_zero false |}.

(** 0.5 *)
Definition half : spec_float := S754_finite false 4503599627370496 (-53).

End Sample2.

(** ** [normalize_filename] *)

(** File names are byte strings (UTF-8).  The characters replaced are
    ASCII, and an ASCII byte never occurs inside a multi-byte character, so
    replacing bytes is replacing characters. *)

(** [name.replace(old, new)] for a one-character [old]. *)
Fixpoint replace_char (old : ascii) (new : string) (name : string) : string :=
  match name with
  | EmptyString => EmptyString
  | String c rest =>
      if Ascii.eqb c old then new ++ replace_char old new rest
      else String c (replace_char old new rest)
  end.

(** The dictionary [replacements], in its order; "034" is the double quote. *)
Definition replacements : list (ascii * string) :=
  [(" "%char, "_"%string);
   ("'"%char, "~"%string);
   ("034"%char, "~"%string);
   ("^"%char, "~"%string);
   (":"%char, "="%string);
   ("*"%char, "_"%string);
   ("?"%char, EmptyString);
   ("<"%char, EmptyString);
   (">"%char, EmptyString);
   ("|"%char, "_"%string)].

Definition normalize_filename (name : string) : string :=
  fold_left (λ name '(old, new), replace_char old new name) replacements name.

(** The characters [normalize_filename] replaces. *)
Definition replaced (c : ascii) : bool :=
  existsb (λ '(old, _), Ascii.eqb c old) replacements.

(** No character of [name] is one of them. *)
Fixpoint clean (name : string) : bool :=
  match name with
  | EmptyString => true
  | String c rest => negb (replaced c) && clean rest
  end.

(** ** [to_filetime] of [copy_file_times] *)

(** [a + b] and [a - b] on floats; an int operand is converted first. *)
Module Py2.

Definition add (a b : Py.num) : option Py.num :=
  match a, b with
  | Py.Int x, Py.Int y => Some (Py.Int (x + y))
  | _, _ =>
      fa ← Py.to_float a; fb ← Py.to_float b;
      Some (Py.Float (SFadd Py.prec Py.emax fa fb))
  end.

Definition sub (a b : Py.num) : option Py.num :=
  match a, b with
  | Py.Int x, Py.Int y => Some (Py.Int (x - y))
  | _, _ =>
      fa ← Py.to_float a; fb ← Py.to_float b;
      Some (Py.Float (SFsub Py.prec Py.emax fa fb))
  end.

(** [a / b]; [None] is ZeroDivisionError or OverflowError. *)
Definition truediv (a b : Py.num) : option Py.num :=
  match Eval.truediv a b with
  | Value v => Some v
  | _ => None
  end.

End Py2.

(** [t_int = int((t + 11644473600) * 10000000)], then the pair
    [(t_int & 0xFFFFFFFF, t_int >> 32)] passed to [FILETIME]. *)
Definition filetime_int (t : spec_float) : option Z :=
  a ← Py2.add (Py.Float t) (Py.Int 11644473600);
  b ← Py.mul a (Py.Int 10000000);
  Py.int b.

Definition to_filetime (t : spec_float) : option (Z * Z) :=
  t_int ← filetime_int t;
  Some (Z.land t_int 4294967295, Z.shiftr t_int 32).

(** ** [calculate_estimated_finish_time] *)

(** [now] is the value of [time.time()] in the call. *)
Definition calculate_estimated_finish_time (now : spec_float)
    (processed_bytes total_bytes : Z) (start_time : spec_float) : option spec_float :=
  let elapsed_time := SFsub Py.prec Py.emax now start_time in
  if Py.eq (Py.Float elapsed_time) (Py.Int 0) || (processed_bytes =? 0) then Some now
  else
    processBPS ← Py2.truediv (Py.Int processed_bytes) (Py.Float elapsed_time);
    let remain_bytes := Py.max2 (Py.Int (total_bytes - processed_bytes)) (Py.Int 0) in
    est_remain_time ← Py2.truediv remain_bytes processBPS;
    Py.to_float est_remain_time ≫= λ e, Some (SFadd Py.prec Py.emax now e).

(** ** The values the argument parser stores *)

(** The [--mode] branch of [configFromArgs]: the pairs of mode and
    custom_param it stores instead of raising ValueError. The four named
    modes leave custom_param as it is; "custom" wants [w < 1 or h < 1] to be
    false, "divide" wants [0 < ratio < 1]. *)
Definition mode_accepted (m : mode) (cp : custom_param) : bool :=
  match m with
  | Custom =>
      match cp with
      | CPSize w h => negb ((w <? 1) || (h <? 1))
      | _ => false
      end
  | Divide =>
      match cp with
      | CPRatio r =>
          Py.lt (Py.Int 0) (Py.Float r) && Py.lt (Py.Float r) (Py.Int 1)
      | _ => false
      end
  | _ => true
  end.

(** The [--min_size] branch: [w_min < 1 or h_min < 1] raises. *)
Definition min_size_accepted (min_size : Z * Z) : bool :=
  negb ((min_size.1 <? 1) || (min_size.2 <? 1)).

(** A ratio held in custom_param is a float of the interpreter: a value in
    the canonical form of the format. *)
Definition canonical (cp : custom_param) : bool :=
  match cp with
  | CPRatio r => valid_binary Py.prec Py.emax r
  | _ => true
  end.

(** * Properties *)

(** ** Decomposition of [set_size] *)

Lemma set_size_computed origin_size m cp min_size ld :
  set_size origin_size m cp min_size ld =
  '(w, h) ← computed_size origin_size m cp min_size ld;
  Some (make_even w, make_even h).
Proof.
  destruct origin_size as [ow oh], min_size as [mw mh].
  unfold set_size, computed_size, final_ratio, first_size. simpl.
  destruct (mode_ratio (ow, oh) m cp ld) as [ratio|]; simpl; [|reflexivity].
  destruct (scaled ow ratio) as [w1|] eqn:Ew; simpl; [|reflexivity].
  destruct (scaled oh ratio) as [h1|] eqn:Eh; simpl; [|reflexivity].
  destruct ((w1 <? mw) || (h1 <? mh)); simpl.
  - destruct (min_ratio (ow, oh) (mw, mh) ld ratio) as [r2|]; simpl; [|reflexivity].
    destruct (scaled ow r2); simpl; [|reflexivity].
    destruct (scaled oh r2); reflexivity.
  - rewrite Ew. simpl. rewrite Eh. reflexivity.
Qed.

Lemma make_even_cases n :
  (Z.even n = true /\ make_even n = n) \/ (Z.odd n = true /\ make_even n = n + 1).
Proof.
  unfold make_even. rewrite Zeven_mod, Zodd_mod.
  pose proof (Z.mod_pos_bound n 2 ltac:(lia)).
  destruct (Z.eqb_spec (n mod 2) 1) as [E|E].
  - right. split; reflexivity.
  - left. split; [apply Z.eqb_eq; lia | reflexivity].
Qed.

Lemma make_even_even n : Z.even (make_even n) = true.
Proof.
  destruct (make_even_cases n) as [[H ->]|[H ->]]; [exact H|].
  rewrite Z.even_add, <- Z.negb_odd, H. reflexivity.
Qed.

Lemma make_even_bounds n : n <= make_even n <= n + 1.
Proof. destruct (make_even_cases n) as [[_ ->]|[_ ->]]; lia. Qed.

Lemma make_even_mono a b : a <= b -> make_even a <= make_even b.
Proof.
  intros H. destruct (Z.eq_dec a b) as [->|N]; [lia|].
  pose proof (make_even_bounds a). pose proof (make_even_bounds b). lia.
Qed.

Lemma set_size_even origin_size m cp min_size ld w h :
  set_size origin_size m cp min_size ld = Some (w, h) ->
  Z.even w = true /\ Z.even h = true.
Proof.
  rewrite set_size_computed.
  destruct (computed_size origin_size m cp min_size ld) as [[cw ch]|]; simpl; [|discriminate].
  intros [= <- <-]. split; apply make_even_even.
Qed.

(** ** Facts on binary64 rounding *)

Module F64Facts.

Import Py F64.

Local Open Scope R_scope.

Lemma bpow_gt_0 e : 0 < bpow e.
Proof. apply powerRZ_lt. lra. Qed.

Lemma bpow_add a b : bpow (a + b) = bpow a * bpow b.
Proof. apply powerRZ_add. lra. Qed.

Lemma bpow_0 : bpow 0 = 1.
Proof. reflexivity. Qed.

Lemma bpow_1 : bpow 1 = 2.
Proof. unfold bpow. simpl. lra. Qed.

Lemma bpow_opp_1 : bpow (-1) = / 2.
Proof. unfold bpow. simpl. f_equal. lra. Qed.

Lemma bpow_le a b : (a <= b)%Z -> bpow a <= bpow b.
Proof.
  intros H. replace b with (a + (b - a))%Z by lia.
  rewrite bpow_add.
  assert (1 <= bpow (b - a)).
  { unfold bpow. destruct (b - a)%Z eqn:E; simpl; try lra; try lia.
    apply pow_R1_Rle. lra. }
  pose proof (bpow_gt_0 a). nra.
Qed.

Lemma bpow_lt a b : (a < b)%Z -> bpow a < bpow b.
Proof.
  intros H. replace b with (a + 1 + (b - a - 1))%Z by lia.
  rewrite !bpow_add, bpow_1.
  assert (1 <= bpow (b - a - 1)) by (rewrite <- bpow_0; apply bpow_le; lia).
  pose proof (bpow_gt_0 a). nra.
Qed.

Lemma bpow_lt_inv a b : bpow a < bpow b -> (a < b)%Z.
Proof.
  intros H. destruct (Z_lt_le_dec a b) as [|Hle]; [assumption|].
  apply bpow_le in Hle. lra.
Qed.

Lemma bpow_IZR n : (0 <= n)%Z -> bpow n = IZR (2 ^ n).
Proof.
  intros H. unfold bpow. destruct n as [|p|p]; try lia; [reflexivity|].
  simpl. rewrite <- (positive_nat_Z p) at 1.
  rewrite <- pow_IZR. reflexivity.
Qed.

(** *** Number of binary digits *)

Lemma digits2_pos_size p : digits2_pos p = Pos.size p.
Proof. induction p; simpl; congruence. Qed.

Lemma digits2_bounds p :
  (2 ^ (Z.pos (digits2_pos p) - 1) <= Z.pos p < 2 ^ Z.pos (digits2_pos p))%Z.
Proof.
  rewrite digits2_pos_size. split.
  - pose proof (Pos.size_le p) as H.
    assert (Z.pos (2 ^ Pos.size p) <= Z.pos p~0)%Z as H' by exact H.
    rewrite Pos2Z.inj_pow in H'.
    replace (Z.pos (Pos.size p)) with (Z.pos (Pos.size p) - 1 + 1)%Z in H' by lia.
    rewrite Z.pow_add_r in H' by lia. lia.
  - pose proof (Pos.size_gt p) as H.
    assert (Z.pos p < Z.pos (2 ^ Pos.size p))%Z as H' by exact H.
    rewrite Pos2Z.inj_pow in H'. exact H'.
Qed.

Lemma Zdigits2_nonneg m : (0 <= Zdigits2 m)%Z.
Proof. destruct m; simpl; lia. Qed.

Lemma Zdigits2_bounds m :
  (0 < m)%Z -> (2 ^ (Zdigits2 m - 1) <= m < 2 ^ Zdigits2 m)%Z.
Proof. destruct m; try lia. intros _. apply digits2_bounds. Qed.

(** The number of digits is determined by the two powers around. *)
Lemma Zdigits2_unique m d :
  (2 ^ (d - 1) <= m < 2 ^ d)%Z -> (0 < m)%Z -> Zdigits2 m = d.
Proof.
  intros [H1 H2] Hm. pose proof (Zdigits2_bounds m Hm) as [H3 H4].
  pose proof (Zdigits2_nonneg m).
  assert (0 < d)%Z.
  { destruct (Z_lt_le_dec 0%Z d); [assumption|].
    destruct (Z.eq_dec d 0%Z) as [->|]; [change (2 ^ 0)%Z with 1%Z in H2; lia|].
    rewrite Z.pow_neg_r in H2 by lia. lia. }
  assert (Zdigits2 m - 1 < d)%Z.
  { apply (Z.pow_lt_mono_r_iff 2); lia. }
  assert (d - 1 < Zdigits2 m)%Z.
  { apply (Z.pow_lt_mono_r_iff 2); lia. }
  lia.
Qed.

Lemma Zdigits2_div m n :
  (0 < m)%Z -> (0 <= n)%Z -> (2 ^ n <= m)%Z ->
  Zdigits2 (m / 2 ^ n) = (Zdigits2 m - n)%Z.
Proof.
  intros Hm Hn Hle. pose proof (Zdigits2_bounds m Hm) as [H1 H2].
  assert (0 < 2 ^ n)%Z by (apply Z.pow_pos_nonneg; lia).
  assert (n < Zdigits2 m)%Z.
  { apply (Z.pow_lt_mono_r_iff 2); try lia. apply Zdigits2_nonneg. }
  apply Zdigits2_unique.
  - split.
    + apply Z.div_le_lower_bound; [lia|].
      rewrite <- Z.pow_add_r by lia.
      replace (n + (Zdigits2 m - n - 1))%Z with (Zdigits2 m - 1)%Z by lia. lia.
    + apply Z.div_lt_upper_bound; [lia|].
      rewrite <- Z.pow_add_r by lia.
      replace (n + (Zdigits2 m - n))%Z with (Zdigits2 m) by lia. lia.
  - apply Z.div_str_pos. lia.
Qed.

(** *** Shifting a mantissa to the right, keeping track of what is lost *)

Lemma located_bounds m l x : located m l x -> IZR m <= x < IZR m + 1.
Proof. destruct l as [|[]]; simpl; lra. Qed.

Lemma located_exact m l x : located m l x -> x = IZR m -> l = loc_Exact.
Proof. destruct l as [|[]]; simpl; intros; try reflexivity; lra. Qed.

Lemma rec_located_of_loc m l x :
  located m l x -> rec_located (shr_record_of_loc m l) x.
Proof. destruct l as [|[]]; intros H; exact H. Qed.

Lemma shr_m_of_loc m l : shr_m (shr_record_of_loc m l) = m.
Proof. destruct l as [|[]]; reflexivity. Qed.

Lemma IZR_xO p : IZR (Z.pos p~0) = 2 * IZR (Z.pos p).
Proof. rewrite Pos2Z.inj_xO, mult_IZR. reflexivity. Qed.

Lemma IZR_xI p : IZR (Z.pos p~1) = 2 * IZR (Z.pos p) + 1.
Proof. rewrite Pos2Z.inj_xI, plus_IZR, mult_IZR. reflexivity. Qed.

Lemma shr_1_located r x :
  (0 <= shr_m r)%Z -> rec_located r x ->
  rec_located (shr_1 r) (x / 2) /\ shr_m (shr_1 r) = (shr_m r / 2)%Z.
Proof.
  destruct r as [m rb sb]. unfold rec_located.
  cbn [shr_m shr_r shr_s].
  intros Hm H.
  destruct m as [|[p|p|]|]; try lia.
  - (* 0 *)
    split; [|reflexivity].
    destruct rb, sb; cbn [shr_1 shr_m orb loc_of_shr_record located] in *; lra.
  - (* 2p+1 *)
    split.
    + destruct rb, sb; cbn [shr_1 shr_m orb loc_of_shr_record located] in *;
        rewrite IZR_xI in H; lra.
    + cbn [shr_1 shr_m]. rewrite Pos2Z.inj_xI.
      apply Z.div_unique with 1%Z; lia.
  - (* 2p *)
    split.
    + destruct rb, sb; cbn [shr_1 shr_m orb loc_of_shr_record located] in *;
        rewrite IZR_xO in H; lra.
    + cbn [shr_1 shr_m]. rewrite Pos2Z.inj_xO.
      apply Z.div_unique with 0%Z; lia.
  - (* 1 *)
    split; [|reflexivity].
    destruct rb, sb; cbn [shr_1 shr_m orb loc_of_shr_record located] in *; lra.
Qed.

Lemma iter_shr_1 p : forall r x,
  (0 <= shr_m r)%Z -> rec_located r x ->
  rec_located (SpecFloat.iter_pos shr_1 p r) (x * bpow (- Z.pos p)) /\
  shr_m (SpecFloat.iter_pos shr_1 p r) = (shr_m r / 2 ^ Z.pos p)%Z.
Proof.
  assert (Hdiv : forall a n, (0 <= a -> 0 <= n -> 0 <= a / 2 ^ n)%Z).
  { intros. apply Z.div_pos; [lia|]. apply Z.pow_pos_nonneg; lia. }
  assert (Hstep : forall r' x' q,
    ((0 <= shr_m r')%Z -> rec_located r' x' ->
     rec_located (SpecFloat.iter_pos shr_1 q r') (x' * bpow (- Z.pos q)) /\
     shr_m (SpecFloat.iter_pos shr_1 q r') = (shr_m r' / 2 ^ Z.pos q)%Z) ->
    (0 <= shr_m r')%Z -> rec_located r' x' ->
    (0 <= shr_m (SpecFloat.iter_pos shr_1 q r'))%Z).
  { intros r' x' q IH H0 H1. destruct (IH H0 H1) as [_ ->]. apply Hdiv; lia. }
  induction p as [p IH|p IH|]; intros r x Hm H; simpl SpecFloat.iter_pos.
  - destruct (shr_1_located r x Hm H) as [H1 E1].
    assert (0 <= shr_m (shr_1 r))%Z as Hm1 by (rewrite E1; apply Z.div_pos; lia).
    destruct (IH _ _ Hm1 H1) as [H2 E2].
    assert (0 <= shr_m (SpecFloat.iter_pos shr_1 p (shr_1 r)))%Z as Hm2
      by (rewrite E2; apply Hdiv; lia).
    destruct (IH _ _ Hm2 H2) as [H3 E3]. split.
    + replace (x * bpow (- Z.pos p~1))
        with (x / 2 * bpow (- Z.pos p) * bpow (- Z.pos p)); [exact H3|].
      replace (- Z.pos p~1)%Z with (-1 + (- Z.pos p + - Z.pos p))%Z by lia.
      rewrite !bpow_add, bpow_opp_1. lra.
    + rewrite E3, E2, E1.
      rewrite !Z.div_div by (try lia; apply Z.pow_pos_nonneg; lia).
      f_equal.
      replace (Z.pos p~1) with (1 + (Z.pos p + Z.pos p))%Z by lia.
      rewrite !Z.pow_add_r by lia. rewrite Z.pow_1_r. reflexivity.
  - destruct (IH _ _ Hm H) as [H2 E2].
    assert (0 <= shr_m (SpecFloat.iter_pos shr_1 p r))%Z as Hm2
      by (rewrite E2; apply Hdiv; lia).
    destruct (IH _ _ Hm2 H2) as [H3 E3]. split.
    + replace (x * bpow (- Z.pos p~0))
        with (x * bpow (- Z.pos p) * bpow (- Z.pos p)); [exact H3|].
      replace (- Z.pos p~0)%Z with (- Z.pos p + - Z.pos p)%Z by lia.
      rewrite !bpow_add. lra.
    + rewrite E3, E2.
      rewrite !Z.div_div by (try lia; apply Z.pow_pos_nonneg; lia).
      f_equal. rewrite <- Z.pow_add_r by lia. f_equal. lia.
  - destruct (shr_1_located r x Hm H) as [H1 E1]. split.
    + assert (E : x * bpow (- Z.pos 1) = x / 2).
      { change (- Z.pos 1)%Z with (Z.neg 1). rewrite bpow_opp_1. reflexivity. }
      rewrite E. exact H1.
    + rewrite E1, Z.pow_1_r. reflexivity.
Qed.

Lemma shr_located r e n X :
  (0 <= shr_m r)%Z -> rec_located r (X * bpow (- e)) ->
  rec_located (shr r e n).1 (X * bpow (- (shr r e n).2)) /\
  (shr r e n).2 = (e + Z.max n 0)%Z /\
  shr_m (shr r e n).1 = (shr_m r / 2 ^ Z.max n 0)%Z.
Proof.
  intros Hm H. destruct n as [|p|p]; simpl.
  - rewrite Z.add_0_r, Z.div_1_r. auto.
  - destruct (iter_shr_1 p _ _ Hm H) as [H1 E1]. repeat split; try assumption.
    replace (X * bpow (- (e + Z.pos p)))
      with (X * bpow (- e) * bpow (- Z.pos p)); [exact H1|].
    replace (- (e + Z.pos p))%Z with (- e + - Z.pos p)%Z by lia.
    rewrite bpow_add. lra.
  - rewrite Z.add_0_r, Z.div_1_r. auto.
Qed.

(** *** The rounding step shared by all operations *)

Lemma fexp_eq e : fexp e = Z.max (e - 53) (-1074).
Proof. reflexivity. Qed.

Lemma Zdigits2_succ m :
  (0 <= m)%Z ->
  Zdigits2 (m + 1) = Zdigits2 m \/
  (Zdigits2 (m + 1) = (Zdigits2 m + 1)%Z /\ (m + 1 = 2 ^ Zdigits2 m)%Z).
Proof.
  intros Hm. destruct (Z.eq_dec m 0%Z) as [->|Hne].
  - right. split; reflexivity.
  - pose proof (Zdigits2_bounds m ltac:(lia)) as [H1 H2].
    pose proof (Zdigits2_nonneg m).
    destruct (Z.eq_dec (m + 1)%Z (2 ^ Zdigits2 m)%Z) as [E|N].
    + right. split; [|exact E]. apply Zdigits2_unique; [|lia].
      rewrite E. replace (Zdigits2 m + 1 - 1)%Z with (Zdigits2 m) by lia.
      split; [lia|]. apply Z.pow_lt_mono_r; lia.
    + left. apply Zdigits2_unique; lia.
Qed.

Lemma finish_spec m2 e1 :
  (0 <= m2)%Z ->
  (0 < m2 -> e1 <= fexp (Zdigits2 m2 + e1) <= e1 + 1)%Z ->
  (fexp (Zdigits2 m2 + e1) = e1 + 1 -> exists k, m2 = 2 * k)%Z ->
  let f := finish m2 e1 in
  (f = S754_infinity false \/
   (is_finite f = true /\ valid_binary prec emax f = true /\
    SF2R f = IZR m2 * bpow e1)) /\
  ((e1 + 1 <= emax - prec)%Z -> f <> S754_infinity false).
Proof.
  intros Hm Hfe Hev. unfold finish, shr_fexp.
  pose proof (shr_located (shr_record_of_loc m2 loc_Exact) e1
                (fexp (Zdigits2 m2 + e1) - e1) (IZR m2 * bpow e1)) as HS.
  simpl shr_record_of_loc in *. simpl shr_m in HS at 1.
  specialize (HS Hm).
  destruct (shr _ e1 _) as [mrs e2]. simpl fst in HS. simpl snd in HS.
  destruct HS as (_ & He2 & Hm3).
  { unfold rec_located. simpl. rewrite Rmult_assoc, <- bpow_add.
    replace (e1 + - e1)%Z with 0%Z by lia. rewrite bpow_0. lra. }
  simpl shr_m in Hm3 at 2.
  destruct (Z.eq_dec m2 0%Z) as [->|Hne].
  { rewrite Z.div_0_l in Hm3 by (apply Z.pow_nonzero; lia). rewrite Hm3.
    simpl. split; [right; repeat split; lra | discriminate]. }
  specialize (Hfe ltac:(lia)).
  assert (Hcase : (fexp (Zdigits2 m2 + e1) = e1 \/ fexp (Zdigits2 m2 + e1) = e1 + 1)%Z)
    by lia.
  destruct Hcase as [E|E]; rewrite E in *.
  - replace (e1 - e1)%Z with 0%Z in * by lia. change (Z.max 0 0)%Z with 0%Z in *.
    change (2 ^ 0)%Z with 1%Z in *.
    rewrite Z.div_1_r in Hm3. rewrite Z.add_0_r in He2. subst e2. rewrite Hm3.
    destruct m2 as [|p|p]; try lia.
    destruct (e1 <=? emax - prec)%Z eqn:Hb.
    + split; [right|discriminate]. repeat split.
      simpl. unfold bounded, canonical_mantissa. rewrite Hb.
      simpl Zdigits2 in E. rewrite E, Z.eqb_refl. reflexivity.
    + split; [left; reflexivity|]. intros Hle. apply Z.leb_gt in Hb. lia.
  - replace (e1 + 1 - e1)%Z with 1%Z in * by lia. change (Z.max 1 0)%Z with 1%Z in *.
    destruct (Hev eq_refl) as [k Hk].
    assert (shr_m mrs = k) as Hk' by (rewrite Hm3, Hk; change (2 ^ 1)%Z with 2%Z;
      rewrite Z.mul_comm, Z.div_mul; lia).
    rewrite Hk'. subst e2.
    assert (0 < k)%Z by lia.
    assert (Zdigits2 k = Zdigits2 m2 - 1)%Z as Hdk.
    { replace k with (m2 / 2 ^ 1)%Z
        by (rewrite Hk; change (2 ^ 1)%Z with 2%Z; rewrite Z.mul_comm, Z.div_mul; lia).
      apply Zdigits2_div; try lia; change (2 ^ 1)%Z with 2%Z; lia. }
    destruct k as [|p|p]; try lia.
    destruct (e1 + 1 <=? emax - prec)%Z eqn:Hb.
    + split; [right|discriminate]. repeat split.
      * simpl. unfold bounded, canonical_mantissa. rewrite Hb.
        simpl Zdigits2 in Hdk. rewrite Hdk.
        replace (Zdigits2 m2 - 1 + (e1 + 1))%Z with (Zdigits2 m2 + e1)%Z by lia.
        rewrite E, Z.eqb_refl. reflexivity.
      * simpl. rewrite Hk, mult_IZR, bpow_add, bpow_1. lra.
    + split; [left; reflexivity|]. intros Hle. apply Z.leb_gt in Hb. lia.
Qed.

Lemma binary_round_aux_finish m e l :
  binary_round_aux prec emax false m e l =
  finish (round_nearest_even (shr_m (shr_fexp prec emax m e l).1)
            (loc_of_shr_record (shr_fexp prec emax m e l).1))
         (shr_fexp prec emax m e l).2.
Proof.
  unfold binary_round_aux, finish. destruct (shr_fexp prec emax m e l) as [r1 e1].
  reflexivity.
Qed.

Lemma round_nearest_even_cases m l x :
  located m l x ->
  round_nearest_even m l = m \/
  (round_nearest_even m l = (m + 1)%Z /\ IZR m < x).
Proof.
  destruct l as [|[]]; simpl; intros H; auto.
  - destruct (Z.even m); [left; reflexivity | right; split; [reflexivity|lra]].
  - right. split; [reflexivity|]. pose proof (Rinv_0_lt_compat 2). lra.
Qed.

(** What rounding to nearest does to a nonnegative real [X] that the
    mantissa [m], the exponent [e] and the place [l] describe. *)
Lemma binary_round_aux_spec m e l X :
  (0 <= m)%Z ->
  located m l (X * bpow (- e)) ->
  (e <= fexp (Zdigits2 m + e))%Z ->
  let e1 := fexp (Zdigits2 m + e) in
  let m1 := (m / 2 ^ (e1 - e))%Z in
  let f := binary_round_aux prec emax false m e l in
  IZR m1 * bpow e1 <= X < (IZR m1 + 1) * bpow e1 /\
  (f = S754_infinity false \/
   (is_finite f = true /\ valid_binary prec emax f = true /\
    (SF2R f = IZR m1 * bpow e1 \/
     (SF2R f = (IZR m1 + 1) * bpow e1 /\ IZR m1 * bpow e1 < X)))) /\
  ((e1 + 1 <= emax - prec)%Z -> f <> S754_infinity false).
Proof.
  intros Hm Hloc Hprec e1 m1 f.
  pose proof (shr_located (shr_record_of_loc m l) e (e1 - e) X) as HS.
  rewrite shr_m_of_loc in HS. specialize (HS Hm (rec_located_of_loc _ _ _ Hloc)).
  change (shr (shr_record_of_loc m l) e (e1 - e)) with (shr_fexp prec emax m e l) in HS.
  destruct HS as (Hloc1 & He1 & Hm1).
  rewrite Z.max_l in He1, Hm1 by (subst e1; lia).
  replace (e + (e1 - e))%Z with e1 in He1 by lia.
  fold m1 in Hm1.
  subst f. rewrite binary_round_aux_finish.
  destruct (shr_fexp prec emax m e l) as [r1 e1']. simpl fst in *. simpl snd in *.
  subst e1'. unfold rec_located in Hloc1. rewrite Hm1 in *.
  pose proof (located_bounds _ _ _ Hloc1) as Hb.
  pose proof (bpow_gt_0 e1) as Hpos.
  assert (HX : X = X * bpow (- e1) * bpow e1).
  { rewrite Rmult_assoc, <- bpow_add. replace (- e1 + e1)%Z with 0%Z by lia.
    rewrite bpow_0. lra. }
  assert (Hbounds : IZR m1 * bpow e1 <= X < (IZR m1 + 1) * bpow e1).
  { split; rewrite HX.
    - apply Rmult_le_compat_r; lra.
    - apply Rmult_lt_compat_r; lra. }
  split; [exact Hbounds|].
  assert (Hm1pos : (0 <= m1)%Z).
  { subst m1. apply Z.div_pos; [lia|]. apply Z.pow_pos_nonneg; subst e1; lia. }
  assert (He1min : (-1074 <= e1)%Z) by (subst e1; rewrite fexp_eq; lia).
  (* digits of the truncated mantissa *)
  assert (Hd1 : ((0 < m1 /\ Zdigits2 m1 + e1 = Zdigits2 m + e) \/
                 (m1 = 0 /\ e1 = -1074))%Z).
  { assert (0 < 2 ^ (e1 - e))%Z by (apply Z.pow_pos_nonneg; lia).
    destruct (Z.eq_dec m1 0%Z) as [E|N].
    - right. split; [exact E|].
      assert (m < 2 ^ (e1 - e))%Z.
      { subst m1. apply Z.div_small_iff in E; lia. }
      destruct (Z.eq_dec m 0%Z) as [->|Hne].
      + subst e1. simpl Zdigits2 in *. rewrite fexp_eq in *. lia.
      + pose proof (Zdigits2_bounds m ltac:(lia)) as [B1 B2].
        assert (Zdigits2 m - 1 < e1 - e)%Z.
        { apply (Z.pow_lt_mono_r_iff 2); lia. }
        subst e1. rewrite fexp_eq in *. lia.
    - left. split; [lia|].
      assert (2 ^ (e1 - e) <= m)%Z.
      { destruct (Z_lt_le_dec m (2 ^ (e1 - e))%Z) as [Hlt|]; [|assumption].
        exfalso. apply N. subst m1. apply Z.div_small. lia. }
      subst m1. rewrite Zdigits2_div by lia. lia. }
  destruct (round_nearest_even_cases _ _ _ Hloc1) as [E2|[E2 Hlt]]; rewrite E2.
  - destruct (finish_spec m1 e1 Hm1pos) as [HF HO].
    + intros Hp. destruct Hd1 as [[_ Hd]|[Hz _]]; [|lia].
      rewrite Hd. fold e1. lia.
    + intros Hf. exfalso. destruct Hd1 as [[_ Hd]|[Hz He]].
      * rewrite Hd in Hf. fold e1 in Hf. lia.
      * rewrite Hz in Hf. simpl Zdigits2 in Hf. rewrite fexp_eq in Hf. lia.
    + split; [|exact HO]. destruct HF as [HF|(F1 & F2 & F3)]; [left; exact HF|].
      right. repeat split; try assumption. left. exact F3.
  - assert (Hfe : (e1 = Z.max (Zdigits2 m + e - 53) (-1074))%Z)
      by (subst e1; apply fexp_eq).
    destruct (finish_spec (m1 + 1) e1 ltac:(lia)) as [HF HO].
    + intros _. rewrite fexp_eq.
      destruct (Zdigits2_succ m1 Hm1pos) as [D|[D _]]; rewrite D;
        destruct Hd1 as [[_ Hd]|[Hz He]]; try (rewrite Hz; simpl Zdigits2); lia.
    + intros Hf. rewrite fexp_eq in Hf.
      destruct (Zdigits2_succ m1 Hm1pos) as [D|[D P]]; rewrite D in Hf.
      * exfalso. destruct Hd1 as [[_ Hd]|[Hz He]];
          try (rewrite Hz in Hf; simpl Zdigits2 in Hf); lia.
      * destruct Hd1 as [[Hp Hd]|[Hz He]].
        -- exists (2 ^ (Zdigits2 m1 - 1))%Z. rewrite P.
           pose proof (Zdigits2_bounds m1 Hp).
           assert (0 < Zdigits2 m1)%Z.
           { destruct m1; simpl; lia. }
           replace (Zdigits2 m1) with (1 + (Zdigits2 m1 - 1))%Z at 1 by lia.
           rewrite Z.pow_add_r by lia. reflexivity.
        -- exfalso. rewrite Hz in Hf. simpl Zdigits2 in Hf. lia.
    + split; [|exact HO]. destruct HF as [HF|(F1 & F2 & F3)]; [left; exact HF|].
      right. repeat split; try assumption. right. split.
      * rewrite F3, plus_IZR. reflexivity.
      * destruct Hbounds as [_ _]. rewrite HX.
        apply Rmult_lt_compat_r; lra.
Qed.





(** *** Division of two positive integers *)

Lemma frac_cmp x b r :
  0 < b -> x * b = r ->
  (0 < r -> 0 < x) /\ (r < b -> x < 1) /\
  (2 * r < b -> x < / 2) /\ (2 * r = b -> x = / 2) /\ (b < 2 * r -> / 2 < x).
Proof.
  intros Hb Hx. repeat split; intros H.
  - apply (Rmult_lt_reg_r b); [exact Hb|]. rewrite Hx. lra.
  - apply (Rmult_lt_reg_r b); [exact Hb|]. rewrite Hx. lra.
  - apply (Rmult_lt_reg_r b); [exact Hb|]. rewrite Hx. lra.
  - apply (Rmult_eq_reg_r b); [|lra]. rewrite Hx. lra.
  - apply (Rmult_lt_reg_r b); [exact Hb|]. rewrite Hx. lra.
Qed.

Lemma new_location_located q b r :
  (0 < b)%Z -> (0 <= r < b)%Z ->
  located q (new_location b r) (IZR q + IZR r / IZR b).
Proof.
  intros Hb Hr.
  assert (Hb' : 0 < IZR b) by (apply IZR_lt; lia).
  assert (Hx : IZR r / IZR b * IZR b = IZR r) by (field; lra).
  destruct (frac_cmp _ _ _ Hb' Hx) as (F1 & F2 & F3 & F4 & F5).
  assert (Hz : r = 0%Z -> IZR r / IZR b = 0).
  { intros ->. unfold Rdiv. lra. }
  assert (H2 : forall z, IZR (2 * z) = 2 * IZR z) by (intros; rewrite mult_IZR; reflexivity).
  assert (Hrb : IZR r < IZR b) by (apply IZR_lt; lia).
  specialize (F2 Hrb).
  unfold new_location, new_location_even, new_location_odd.
  destruct (Z.even b) eqn:Ev; destruct (Z.eqb_spec r 0) as [E0|N0].
  - simpl. rewrite (Hz E0). lra.
  - assert (0 < IZR r) as Hr0 by (apply IZR_lt; lia). specialize (F1 Hr0).
    destruct (Z.compare_spec (2 * r) b) as [E|L|G]; simpl.
    + apply (f_equal IZR) in E. rewrite H2 in E. rewrite (F4 E). lra.
    + apply IZR_lt in L. rewrite H2 in L. specialize (F3 L). lra.
    + apply IZR_lt in G. rewrite H2 in G. specialize (F5 G). lra.
  - simpl. rewrite (Hz E0). lra.
  - assert (0 < IZR r) as Hr0 by (apply IZR_lt; lia). specialize (F1 Hr0).
    assert (Hodd : (2 * r <> b)%Z).
    { intros <-. rewrite Z.even_mul in Ev. discriminate. }
    destruct (Z.compare_spec (2 * r + 1) b) as [E|L|G]; simpl.
    + assert (2 * r < b)%Z as L by lia. apply IZR_lt in L. rewrite H2 in L.
      specialize (F3 L). lra.
    + assert (2 * r < b)%Z as L' by lia. apply IZR_lt in L'. rewrite H2 in L'.
      specialize (F3 L'). lra.
    + assert (b < 2 * r)%Z as G' by lia. apply IZR_lt in G'. rewrite H2 in G'.
      specialize (F5 G'). lra.
Qed.





(** The consequences of [binary_round_aux_spec] used below. *)
Lemma round_props m e l X :
  (0 <= m)%Z ->
  located m l (X * bpow (- e)) ->
  (e <= fexp (Zdigits2 m + e))%Z ->
  let f := binary_round_aux prec emax false m e l in
  (f = S754_infinity false \/ is_finite f = true) /\
  (X < bpow 1023 -> is_finite f = true) /\
  (is_finite f = true ->
   valid_binary prec emax f = true /\
   0 <= SF2R f /\
   (forall K g, (-1074 <= g)%Z -> X <= IZR K * bpow g -> X < bpow (g + 53) ->
                SF2R f <= IZR K * bpow g) /\
   (forall K g, (-1074 <= g)%Z -> IZR K * bpow g <= X -> X < bpow (g + 53) ->
                IZR K * bpow g <= SF2R f) /\
   (bpow (-1022) <= X ->
    X * (1 - bpow (-52)) <= SF2R f <= X * (1 + bpow (-52)))).
Proof.
  intros Hm Hloc Hprec f.
  destruct (binary_round_aux_spec m e l X Hm Hloc Hprec) as (Hb & Hf & Hov).
  fold f in Hf, Hov.
  set (e1 := fexp (Zdigits2 m + e)) in *.
  set (m1 := (m / 2 ^ (e1 - e))%Z) in *.
  pose proof (bpow_gt_0 e1) as Hpe1.
  pose proof (bpow_gt_0 e) as Hpe.
  assert (Hm1 : (0 <= m1)%Z).
  { subst m1. apply Z.div_pos; [lia|]. apply Z.pow_pos_nonneg; lia. }
  assert (HXm : IZR m * bpow e <= X).
  { apply located_bounds in Hloc.
    replace X with (X * bpow (- e) * bpow e).
    - apply Rmult_le_compat_r; lra.
    - rewrite Rmult_assoc, <- bpow_add. replace (- e + e)%Z with 0%Z by lia.
      rewrite bpow_0. lra. }
  (* the exponent of the result against the size of X *)
  assert (Hmag : forall g, (-1074 <= g)%Z -> X < bpow (g + 53) -> (e1 <= g)%Z).
  { intros g Hg HX. subst e1. rewrite fexp_eq in *.
    destruct (Z.eq_dec m 0%Z) as [->|Hne]; [simpl Zdigits2 in *; lia|].
    pose proof (Zdigits2_bounds m ltac:(lia)) as [B1 _].
    pose proof (Zdigits2_nonneg m).
    assert (bpow (Zdigits2 m - 1 + e) <= IZR m * bpow e).
    { rewrite bpow_add. apply Rmult_le_compat_r; [lra|].
      destruct (Z.eq_dec (Zdigits2 m) 0%Z) as [E0|N0].
      - rewrite E0. simpl. unfold bpow. simpl.
        assert (1 <= IZR m) by (apply IZR_le; lia). lra.
      - rewrite bpow_IZR by lia. apply IZR_le. exact B1. }
    assert (Zdigits2 m - 1 + e < g + 53)%Z by (apply bpow_lt_inv; lra).
    lia. }
  split; [|split].
  - destruct Hf as [Hf|(F1 & _)]; auto.
  - intros HX. destruct Hf as [Hf|(F1 & _)]; [|exact F1].
    exfalso. apply Hov; [|exact Hf].
    assert (e1 <= 970)%Z; [|unfold emax, prec; lia].
    apply Hmag; [lia|]. exact HX.
  - intros Hfin. destruct Hf as [Hf|(_ & F2 & F3)].
    { rewrite Hf in Hfin. discriminate. }
    assert (Hm1R : 0 <= IZR m1) by (apply IZR_le; lia).
    split; [exact F2|]. split; [|split; [|split]].
    + destruct F3 as [->|[-> _]]; nra.
    + intros K g Hg HK HX.
      destruct F3 as [->|[-> Hlt]]; [lra|].
      specialize (Hmag g Hg HX).
      replace g with (g - e1 + e1)%Z in HK |- * by lia.
      rewrite bpow_add in HK |- *. rewrite (bpow_IZR (g - e1)) in HK |- * by lia.
      rewrite <- Rmult_assoc, <- mult_IZR in HK |- *.
      apply Rmult_le_compat_r; [lra|].
      rewrite <- plus_IZR. apply IZR_le.
      assert (IZR m1 < IZR (K * 2 ^ (g - e1))) as Hlt'.
      { apply Rmult_lt_reg_r with (bpow e1); lra. }
      apply lt_IZR in Hlt'. lia.
    + intros K g Hg HK HX.
      specialize (Hmag g Hg HX).
      apply Rle_trans with (IZR m1 * bpow e1);
        [|destruct F3 as [->|[-> _]]; lra].
      replace g with (g - e1 + e1)%Z in HK |- * by lia.
      rewrite bpow_add in HK |- *. rewrite (bpow_IZR (g - e1)) in HK |- * by lia.
      rewrite <- Rmult_assoc, <- mult_IZR in HK |- *.
      apply Rmult_le_compat_r; [lra|].
      apply IZR_le.
      assert (IZR (K * 2 ^ (g - e1)) < IZR (m1 + 1)) as Hlt'.
      { rewrite plus_IZR. apply Rmult_lt_reg_r with (bpow e1); lra. }
      apply lt_IZR in Hlt'. lia.
    + intros Hnorm.
      assert (X - bpow e1 <= SF2R f <= X + bpow e1) as Hup
        by (destruct F3 as [->|[-> _]]; lra).
      assert (bpow e1 <= X * bpow (-52)); [|lra].
      destruct (Z.eq_dec m 0%Z) as [Hz|Hne].
      * (* nothing but a remainder: X is below the normal range *)
        exfalso. subst m. simpl Zdigits2 in *.
        apply located_bounds in Hloc. simpl in Hloc.
        assert (X < bpow e).
        { replace X with (X * bpow (- e) * bpow e).
          - replace (bpow e) with (1 * bpow e) at 2 by lra.
            apply Rmult_lt_compat_r; lra.
          - rewrite Rmult_assoc, <- bpow_add. replace (- e + e)%Z with 0%Z by lia.
            rewrite bpow_0. lra. }
        assert (-1022 < e)%Z by (apply bpow_lt_inv; lra).
        subst e1. rewrite fexp_eq in Hprec. lia.
      * pose proof (Zdigits2_bounds m ltac:(lia)) as [B1 B2].
        pose proof (Zdigits2_nonneg m).
        assert (Zdigits2 m <> 0)%Z by (destruct m; simpl; lia).
        assert (X < bpow (Zdigits2 m + e)) as Hlt.
        { apply located_bounds in Hloc.
          replace X with (X * bpow (- e) * bpow e).
          - rewrite bpow_add. apply Rmult_lt_compat_r; [lra|].
            rewrite (bpow_IZR (Zdigits2 m)) by lia.
            assert (IZR m + 1 <= IZR (2 ^ Zdigits2 m)); [|lra].
            rewrite <- plus_IZR. apply IZR_le. lia.
          - rewrite Rmult_assoc, <- bpow_add. replace (- e + e)%Z with 0%Z by lia.
            rewrite bpow_0. lra. }
        assert (-1022 < Zdigits2 m + e)%Z by (apply bpow_lt_inv; lra).
        assert (e1 = Zdigits2 m + e - 53)%Z as He1
          by (subst e1; rewrite fexp_eq; lia).
        assert (bpow (Zdigits2 m - 1 + e) <= X).
        { apply Rle_trans with (IZR m * bpow e); [|exact HXm].
          rewrite bpow_add. apply Rmult_le_compat_r; [lra|].
          rewrite bpow_IZR by lia. apply IZR_le. exact B1. }
        rewrite He1.
        replace (Zdigits2 m + e - 53)%Z with (Zdigits2 m - 1 + e + -52)%Z by lia.
        rewrite bpow_add. pose proof (bpow_gt_0 (-52)). nra.
Qed.





Lemma finish_nonneg m e :
  is_finite (finish m e) = true -> nonneg (finish m e) = true.
Proof.
  unfold finish. destruct (shr_fexp prec emax m e loc_Exact) as [mrs e2].
  destruct (shr_m mrs); [reflexivity| |discriminate].
  destruct (e2 <=? emax - prec)%Z; [reflexivity|discriminate].
Qed.

Lemma round_good m e l X :
  (0 <= m)%Z ->
  located m l (X * bpow (- e)) ->
  (e <= fexp (Zdigits2 m + e))%Z ->
  let f := binary_round_aux prec emax false m e l in
  (f = S754_infinity false \/ rounds_to X f) /\
  (X < bpow 1023 -> rounds_to X f).
Proof.
  intros Hm Hloc Hprec f.
  destruct (round_props m e l X Hm Hloc Hprec) as (H1 & H2 & H3). fold f in H1, H2, H3.
  assert (Hr : is_finite f = true -> rounds_to X f).
  { intros Hfin. destruct (H3 Hfin) as (V & P & U & L & E).
    repeat split; try assumption.
    - subst f. rewrite binary_round_aux_finish in Hfin |- *.
      apply finish_nonneg. exact Hfin.
    - apply E; assumption.
    - apply E; assumption. }
  split.
  - destruct H1 as [H1|H1]; [left; exact H1 | right; exact (Hr H1)].
  - intros HX. exact (Hr (H2 HX)).
Qed.

(** *** Division of two positive integers *)

Lemma Zdigits2_ge m k : (0 <= k)%Z -> (2 ^ k <= m)%Z -> (k + 1 <= Zdigits2 m)%Z.
Proof.
  intros Hk H. assert (0 < 2 ^ k)%Z by (apply Z.pow_pos_nonneg; lia).
  pose proof (Zdigits2_bounds m ltac:(lia)) as [_ B].
  pose proof (Zdigits2_nonneg m).
  assert (k < Zdigits2 m)%Z; [|lia].
  apply (Z.pow_lt_mono_r_iff 2); lia.
Qed.

Lemma div_core_spec a b :
  (0 < a)%Z -> (0 < b)%Z ->
  exists q e' l,
    SFdiv_core_binary prec emax a 0 b 0 = (q, e', l) /\
    (0 <= q)%Z /\
    located q l (IZR a / IZR b * bpow (- e')) /\
    (e' <= fexp (Zdigits2 q + e'))%Z.
Proof.
  intros Ha Hb. unfold SFdiv_core_binary.
  set (da := Zdigits2 a). set (db := Zdigits2 b).
  set (e' := Z.min (fexp (da + 0 - (db + 0))) (0 - 0)).
  assert (He' : (e' <= 0)%Z) by (subst e'; lia).
  assert (He'' : (e' <= fexp (da - db))%Z).
  { subst e'. replace (da + 0 - (db + 0))%Z with (da - db)%Z by lia. lia. }
  set (m' := match (0 - 0 - e')%Z with
             | Z.pos _ => Z.shiftl a (0 - 0 - e')
             | 0%Z => a
             | Z.neg _ => 0%Z
             end).
  assert (Hm' : m' = (a * 2 ^ (- e'))%Z).
  { subst m'. replace (0 - 0 - e')%Z with (- e')%Z by lia.
    destruct (- e')%Z as [|p|p] eqn:E; try lia.
    apply Z.shiftl_mul_pow2. lia. }
  assert (Hpow : (0 < 2 ^ (- e'))%Z) by (apply Z.pow_pos_nonneg; lia).
  pose proof (Z_div_mod m' b ltac:(lia)) as Hdm.
  destruct (Z.div_eucl m' b) as [q r] eqn:Ediv.
  destruct Hdm as [Hdm Hr].
  assert (Hq : q = (m' / b)%Z) by (unfold Z.div; rewrite Ediv; reflexivity).
  assert (Hq0 : (0 <= q)%Z).
  { rewrite Hq. apply Z.div_pos; [rewrite Hm'|]; lia. }
  exists q, e', (new_location b r). split; [reflexivity|]. split; [exact Hq0|].
  assert (HbR : 0 < IZR b) by (apply IZR_lt; lia).
  split.
  - replace (IZR a / IZR b * bpow (- e')) with (IZR q + IZR r / IZR b).
    + apply new_location_located; lia.
    + rewrite bpow_IZR by lia.
      assert (IZR a * IZR (2 ^ (- e')) = IZR b * IZR q + IZR r) as HR.
      { rewrite <- !mult_IZR, <- plus_IZR. f_equal. lia. }
      apply Rmult_eq_reg_r with (IZR b); [|lra].
      unfold Rdiv. rewrite Rmult_plus_distr_r.
      rewrite (Rmult_assoc (IZR r)), Rinv_l, Rmult_1_r by lra.
      rewrite (Rmult_comm (IZR a * / IZR b)). rewrite <- !Rmult_assoc.
      rewrite (Rmult_comm (IZR (2 ^ (- e')))).
      rewrite (Rmult_assoc (IZR a * IZR (2 ^ (- e')))), Rinv_l, Rmult_1_r by lra.
      lra.
  - rewrite fexp_eq in *.
    destruct (Z_le_gt_dec e' (-1074)) as [Hle|Hgt]; [lia|].
    assert (e' <= da - db - 53)%Z by lia.
    pose proof (Zdigits2_bounds a Ha) as [A1 A2]. fold da in A1, A2.
    pose proof (Zdigits2_bounds b Hb) as [B1 B2]. fold db in B1, B2.
    assert (0 < da)%Z by (subst da; destruct a; simpl; lia).
    assert (0 < db)%Z by (subst db; destruct b; simpl; lia).
    assert (Hq52 : (2 ^ 52 <= q)%Z).
    { rewrite Hq. apply Z.div_le_lower_bound; [lia|].
      rewrite Hm'.
      apply Z.le_trans with (2 ^ db * 2 ^ 52)%Z.
      - apply Z.mul_le_mono_nonneg_r; lia.
      - rewrite <- Z.pow_add_r by lia.
        apply Z.le_trans with (2 ^ (da - 1) * 2 ^ (- e'))%Z.
        + rewrite <- Z.pow_add_r by lia. apply Z.pow_le_mono_r; lia.
        + apply Z.mul_le_mono_nonneg_r; lia. }
    pose proof (Zdigits2_ge q 52 ltac:(lia) Hq52). lia.
Qed.

Lemma good_zero s : good (S754_zero s).
Proof. split; reflexivity. Qed.

Lemma rounds_to_zero s : rounds_to 0 (S754_zero s).
Proof.
  split; [apply good_zero|]. simpl. split; [lra|]. split; [|split].
  - intros K g _ H _. exact H.
  - intros K g _ H _. exact H.
  - intros H. pose proof (bpow_gt_0 (-1022)). lra.
Qed.

Lemma int_truediv_rounds a b f :
  (0 <= a)%Z -> (0 < b)%Z -> int_truediv a b = Some f ->
  rounds_to (IZR a / IZR b) f.
Proof.
  intros Ha Hb H. unfold int_truediv in H.
  destruct b as [|pb|pb]; try lia.
  destruct a as [|pa|pa]; try lia.
  - injection H as <-. unfold Rdiv. rewrite Rmult_0_l. apply rounds_to_zero.
  - change (Z.pos pa <? 0)%Z with false in H. change (Z.pos pb <? 0)%Z with false in H.
    change (Z.to_pos (Z.abs (Z.pos pa))) with pa in H.
    change (Z.to_pos (Z.abs (Z.pos pb))) with pb in H.
    unfold SFdiv in H.
    destruct (div_core_spec (Z.pos pa) (Z.pos pb) ltac:(lia) ltac:(lia))
      as (q & e' & l & E & Hq & Hloc & Hprec).
    rewrite E in H. change (xorb false false) with false in H.
    destruct (round_good q e' l _ Hq Hloc Hprec) as [[Hinf|Hr] _].
    + rewrite Hinf in H. discriminate.
    + destruct (binary_round_aux prec emax false q e' l); try discriminate;
        injection H as <-; exact Hr.
Qed.

(** *** Conversion of an integer *)

Lemma iter_xO d : forall m,
  Z.pos (Pos.iter xO m d) = (Z.pos m * 2 ^ Z.pos d)%Z.
Proof.
  induction d as [|d IH] using Pos.peano_ind; intros m.
  - simpl. lia.
  - rewrite Pos.iter_succ, Pos2Z.inj_succ, Z.pow_succ_r by lia.
    rewrite Pos2Z.inj_xO, IH. lia.
Qed.

Lemma Zdigits2_shift m d :
  (0 < m)%Z -> (0 <= d)%Z -> Zdigits2 (m * 2 ^ d) = (Zdigits2 m + d)%Z.
Proof.
  intros Hm Hd. pose proof (Zdigits2_bounds m Hm) as [B1 B2].
  assert (0 < 2 ^ d)%Z by (apply Z.pow_pos_nonneg; lia).
  assert (0 < Zdigits2 m)%Z by (destruct m; simpl; lia).
  apply Zdigits2_unique; [|lia].
  replace (Zdigits2 m + d - 1)%Z with (Zdigits2 m - 1 + d)%Z by lia.
  rewrite !Z.pow_add_r by lia. split.
  - apply Z.mul_le_mono_nonneg_r; lia.
  - apply Z.mul_lt_mono_pos_r; lia.
Qed.

Lemma int2float_rounds z f :
  (0 <= z)%Z -> int2float z = Some f -> rounds_to (IZR z) f.
Proof.
  intros Hz H. unfold int2float, binary_normalize in H.
  destruct z as [|m|m]; try lia.
  - injection H as <-. apply rounds_to_zero.
  - unfold binary_round, shl_align in H.
    change (Z.pos (digits2_pos m)) with (Zdigits2 (Z.pos m)) in H.
    set (ex' := fexp (Zdigits2 (Z.pos m) + 0)) in H.
    assert (Hgood : forall mz ez,
      IZR (Z.pos mz) * bpow ez = IZR (Z.pos m) ->
      (ez <= fexp (Zdigits2 (Z.pos mz) + ez))%Z ->
      binary_round_aux prec emax false (Z.pos mz) ez loc_Exact <> S754_infinity false ->
      rounds_to (IZR (Z.pos m)) (binary_round_aux prec emax false (Z.pos mz) ez loc_Exact)).
    { intros mz ez Hv Hp Hni.
      destruct (round_good (Z.pos mz) ez loc_Exact (IZR (Z.pos m))) as [[Hinf|Hr] _];
        try assumption; try lia; try contradiction.
      simpl. rewrite <- Hv, Rmult_assoc, <- bpow_add.
      replace (ez + - ez)%Z with 0%Z by lia. rewrite bpow_0. lra. }
    destruct (ex' - 0)%Z as [|d|d] eqn:Ed.
    + destruct (binary_round_aux prec emax false (Z.pos m) 0 loc_Exact) eqn:E;
        try discriminate; injection H as <-; rewrite <- E; apply Hgood;
        try (rewrite bpow_0; lra); try (fold ex'; lia); rewrite E; discriminate.
    + destruct (binary_round_aux prec emax false (Z.pos m) 0 loc_Exact) eqn:E;
        try discriminate; injection H as <-; rewrite <- E; apply Hgood;
        try (rewrite bpow_0; lra); try (fold ex'; lia); rewrite E; discriminate.
    + assert (Hex : ex' = Z.neg d) by lia.
      assert (Hmz : Z.pos (Pos.iter xO m d) = (Z.pos m * 2 ^ Z.pos d)%Z)
        by apply iter_xO.
      assert (Hv : IZR (Z.pos (Pos.iter xO m d)) * bpow ex' = IZR (Z.pos m)).
      { rewrite Hmz, mult_IZR, <- (bpow_IZR (Z.pos d)) by lia.
        rewrite Rmult_assoc, <- bpow_add, Hex.
        replace (Z.pos d + Z.neg d)%Z with 0%Z by lia. rewrite bpow_0. lra. }
      assert (Hp : (ex' <= fexp (Zdigits2 (Z.pos (Pos.iter xO m d)) + ex'))%Z).
      { rewrite Hmz, Zdigits2_shift by lia.
        replace (Zdigits2 (Z.pos m) + Z.pos d + ex')%Z
          with (Zdigits2 (Z.pos m) + 0)%Z by lia.
        fold ex'. lia. }
      destruct (binary_round_aux prec emax false (Z.pos (Pos.iter xO m d)) ex' loc_Exact)
        eqn:E; try discriminate; injection H as <-; rewrite <- E; apply Hgood;
        try assumption; rewrite E; discriminate.
Qed.

(** An integer below 2^53 is converted exactly. *)
Lemma int2float_exact z f :
  (0 <= z < 2 ^ 53)%Z -> int2float z = Some f -> good f /\ SF2R f = IZR z.
Proof.
  intros Hz H. destruct (int2float_rounds z f ltac:(lia) H) as (G & _ & U & L & _).
  split; [exact G|].
  assert (HX : IZR z < bpow (0 + 53)).
  { rewrite bpow_IZR by lia. apply IZR_lt. simpl. lia. }
  pose proof (U z 0%Z ltac:(lia)) as U'. pose proof (L z 0%Z ltac:(lia)) as L'.
  rewrite bpow_0, Rmult_1_r in U', L'.
  apply Rle_antisym; [apply U'|apply L']; try lra; exact HX.
Qed.

(** *** Multiplication *)

Lemma good_finite m e :
  good (S754_finite false m e) ->
  fexp (Zdigits2 (Z.pos m) + e) = e /\ (e <= 971)%Z.
Proof.
  intros [_ H]. simpl in H. unfold bounded, canonical_mantissa in H.
  apply andb_true_iff in H as [H1 H2].
  apply Z.eqb_eq in H1. apply Z.leb_le in H2. split; [exact H1|].
  unfold emax, prec in H2. lia.
Qed.

Lemma good_nonneg f : good f -> 0 <= SF2R f.
Proof.
  intros [H _]. destruct f as [s|s| |[] m e]; try discriminate; simpl; try lra.
  apply Rmult_le_pos; [apply IZR_le; lia | pose proof (bpow_gt_0 e); lra].
Qed.

Lemma Zdigits2_mul a b :
  (0 < a)%Z -> (0 < b)%Z -> (Zdigits2 a + Zdigits2 b - 1 <= Zdigits2 (a * b))%Z.
Proof.
  intros Ha Hb.
  pose proof (Zdigits2_bounds a Ha) as [A1 _].
  pose proof (Zdigits2_bounds b Hb) as [B1 _].
  assert (0 < Zdigits2 a)%Z by (destruct a; simpl; lia).
  assert (0 < Zdigits2 b)%Z by (destruct b; simpl; lia).
  assert (2 ^ (Zdigits2 a - 1 + (Zdigits2 b - 1)) <= a * b)%Z.
  { rewrite Z.pow_add_r by lia.
    assert (0 < 2 ^ (Zdigits2 a - 1))%Z by (apply Z.pow_pos_nonneg; lia).
    assert (0 < 2 ^ (Zdigits2 b - 1))%Z by (apply Z.pow_pos_nonneg; lia).
    apply Z.mul_le_mono_nonneg; lia. }
  pose proof (Zdigits2_ge (a * b) (Zdigits2 a - 1 + (Zdigits2 b - 1)) ltac:(lia) H1).
  lia.
Qed.

Lemma SFmul_rounds f1 f2 :
  good f1 -> good f2 ->
  SFmul prec emax f1 f2 = S754_infinity false \/
  rounds_to (SF2R f1 * SF2R f2) (SFmul prec emax f1 f2).
Proof.
  intros G1 G2. pose proof G1 as [N1 _]. pose proof G2 as [N2 _].
  destruct f1 as [s1|s1| |[] m1 e1]; try discriminate;
    destruct f2 as [s2|s2| |[] m2 e2]; try discriminate.
  - right. simpl. rewrite Rmult_0_l. apply rounds_to_zero.
  - right. simpl SFmul. simpl SF2R. rewrite Rmult_0_l. apply rounds_to_zero.
  - right. simpl SFmul. simpl SF2R. rewrite Rmult_0_r. apply rounds_to_zero.
  - destruct (good_finite _ _ G1) as [C1 _]. destruct (good_finite _ _ G2) as [C2 _].
    simpl SFmul. simpl SF2R.
    destruct (round_good (Z.pos (m1 * m2)) (e1 + e2) loc_Exact
                (IZR (Z.pos m1) * bpow e1 * (IZR (Z.pos m2) * bpow e2))) as [H _].
    + lia.
    + simpl. rewrite Pos2Z.inj_mul, mult_IZR.
      replace (- (e1 + e2))%Z with (- e1 + - e2)%Z by lia. rewrite bpow_add.
      assert (bpow e1 * bpow (- e1) = 1) as I1.
      { rewrite <- bpow_add. replace (e1 + - e1)%Z with 0%Z by lia. apply bpow_0. }
      assert (bpow e2 * bpow (- e2) = 1) as I2.
      { rewrite <- bpow_add. replace (e2 + - e2)%Z with 0%Z by lia. apply bpow_0. }
      transitivity (IZR (Z.pos m1) * IZR (Z.pos m2) *
                    ((bpow e1 * bpow (- e1)) * (bpow e2 * bpow (- e2)))); [ring|].
      rewrite I1, I2. ring.
    + rewrite Pos2Z.inj_mul.
      pose proof (Zdigits2_mul (Z.pos m1) (Z.pos m2) ltac:(lia) ltac:(lia)).
      assert (0 < Zdigits2 (Z.pos m1))%Z by (simpl; lia).
      assert (0 < Zdigits2 (Z.pos m2))%Z by (simpl; lia).
      rewrite fexp_eq in *. lia.
    + exact H.
Qed.

(** *** Truncation to an integer *)

Lemma int_floor f z :
  good f -> Py.int (Float f) = Some z ->
  (0 <= z)%Z /\ IZR z <= SF2R f < IZR z + 1.
Proof.
  intros [N _] H. destruct f as [s|s| |[] m e]; try discriminate; simpl in H.
  - injection H as <-. simpl. split; [lia|lra].
  - injection H as <-.
    assert (Hpos : forall e', (0 <= e')%Z ->
              (0 <= Z.pos m * 2 ^ e')%Z /\
              IZR (Z.pos m * 2 ^ e') <= IZR (Z.pos m) * bpow e' < IZR (Z.pos m * 2 ^ e') + 1).
    { intros e' He'. assert (0 < 2 ^ e')%Z by (apply Z.pow_pos_nonneg; lia).
      split; [lia|]. rewrite mult_IZR, <- bpow_IZR by lia. lra. }
    destruct e as [|k|k].
    + apply (Hpos 0%Z). lia.
    + apply (Hpos (Z.pos k)). lia.
    + assert (HP : (0 < 2 ^ Z.pos k)%Z) by (apply Z.pow_pos_nonneg; lia).
      pose proof (Z.div_mod (Z.pos m) (2 ^ Z.pos k) ltac:(lia)) as Hdm.
      pose proof (Z.mod_pos_bound (Z.pos m) (2 ^ Z.pos k) HP) as Hr.
      split; [apply Z.div_pos; lia|].
      unfold SF2R.
      set (q := (Z.pos m / 2 ^ Z.pos k)%Z) in *.
      set (r := (Z.pos m mod 2 ^ Z.pos k)%Z) in *.
      assert (HPR : 0 < bpow (Z.pos k)) by apply bpow_gt_0.
      assert (Hv : IZR (Z.pos m) * bpow (Z.neg k) * bpow (Z.pos k) = IZR (Z.pos m)).
      { rewrite Rmult_assoc, <- bpow_add.
        replace (Z.neg k + Z.pos k)%Z with 0%Z by lia. rewrite bpow_0. lra. }
      assert (Hm : IZR (Z.pos m) = IZR q * bpow (Z.pos k) + IZR r).
      { rewrite bpow_IZR by lia. rewrite <- mult_IZR, <- plus_IZR. f_equal. lia. }
      assert (Hr0 : 0 <= IZR r) by (apply IZR_le; lia).
      assert (Hr1 : IZR r < bpow (Z.pos k)).
      { rewrite bpow_IZR by lia. apply IZR_lt. lia. }
      split.
      * apply Rmult_le_reg_r with (bpow (Z.pos k)); [exact HPR|].
        rewrite Hv, Hm. lra.
      * apply Rmult_lt_reg_r with (bpow (Z.pos k)); [exact HPR|].
        rewrite Hv, Hm. lra.
Qed.

(** *** Comparisons *)

Lemma Zcompare_cmp a b : cmp_spec (a ?= b)%Z (IZR a) (IZR b).
Proof.
  destruct (Z.compare_spec a b) as [E|L|G]; simpl.
  - rewrite E. reflexivity.
  - apply IZR_lt. exact L.
  - apply IZR_lt. exact G.
Qed.

Lemma cmp_spec_opp c x y : cmp_spec c x y -> cmp_spec (CompOpp c) y x.
Proof. destruct c; simpl; intros H; [symmetry|..]; exact H. Qed.

Lemma cmp_spec_scale c x y p :
  0 < p -> cmp_spec c (x * p) (y * p) -> cmp_spec c x y.
Proof.
  intros Hp. destruct c; simpl; intros H.
  - apply Rmult_eq_reg_r with p; [exact H|lra].
  - apply Rmult_lt_reg_r with p; assumption.
  - apply Rmult_lt_reg_r with p; assumption.
Qed.

Lemma finite_lt_exp m1 e1 m2 e2 :
  good (S754_finite false m1 e1) -> good (S754_finite false m2 e2) ->
  (e1 < e2)%Z ->
  IZR (Z.pos m1) * bpow e1 < IZR (Z.pos m2) * bpow e2.
Proof.
  intros G1 G2 Hlt.
  destruct (good_finite _ _ G1) as [C1 _]. destruct (good_finite _ _ G2) as [C2 _].
  rewrite fexp_eq in C1, C2.
  pose proof (Zdigits2_bounds (Z.pos m1) ltac:(lia)) as [_ A2].
  pose proof (Zdigits2_bounds (Z.pos m2) ltac:(lia)) as [B1 _].
  assert (D2 : Zdigits2 (Z.pos m2) = 53%Z) by lia.
  assert (D1 : (Zdigits2 (Z.pos m1) <= 53)%Z) by lia.
  rewrite D2 in B1.
  assert (H1 : IZR (Z.pos m1) < bpow 53).
  { rewrite bpow_IZR by lia. apply IZR_lt.
    apply Z.lt_le_trans with (2 ^ Zdigits2 (Z.pos m1))%Z; [exact A2|].
    apply Z.pow_le_mono_r; lia. }
  assert (H2 : bpow 52 <= IZR (Z.pos m2)).
  { rewrite bpow_IZR by lia. apply IZR_le. exact B1. }
  pose proof (bpow_gt_0 e1). pose proof (bpow_gt_0 e2).
  apply Rlt_le_trans with (bpow 53 * bpow e1).
  - apply Rmult_lt_compat_r; assumption.
  - apply Rle_trans with (bpow 52 * bpow e2).
    + rewrite <- !bpow_add. apply bpow_le. lia.
    + apply Rmult_le_compat_r; lra.
Qed.

Lemma SFcompare_good f1 f2 :
  good f1 -> good f2 ->
  exists c, SFcompare f1 f2 = Some c /\ cmp_spec c (SF2R f1) (SF2R f2).
Proof.
  intros G1 G2. pose proof G1 as [N1 _]. pose proof G2 as [N2 _].
  destruct f1 as [s1|s1| |[] m1 e1]; try discriminate;
    destruct f2 as [s2|s2| |[] m2 e2]; try discriminate.
  - exists Eq. split; reflexivity.
  - exists Lt. split; [reflexivity|]. simpl.
    apply Rmult_lt_0_compat; [apply IZR_lt; lia | apply bpow_gt_0].
  - exists Gt. split; [reflexivity|]. simpl.
    apply Rmult_lt_0_compat; [apply IZR_lt; lia | apply bpow_gt_0].
  - simpl SFcompare. eexists. split; [reflexivity|]. unfold SF2R.
    destruct (Z.compare_spec e1 e2) as [E|L|G]; simpl.
    + subst e2. apply cmp_spec_scale with (bpow (- e1)); [apply bpow_gt_0|].
      rewrite !Rmult_assoc, <- !bpow_add.
      replace (e1 + - e1)%Z with 0%Z by lia. rewrite bpow_0, !Rmult_1_r.
      change (Pos.compare_cont Eq m1 m2) with (Z.pos m1 ?= Z.pos m2)%Z.
      apply Zcompare_cmp.
    + apply finite_lt_exp; assumption.
    + apply finite_lt_exp; assumption.
Qed.

Lemma int_float_compare_sound z f :
  is_finite f = true ->
  exists c, int_float_compare z f = Some c /\ cmp_spec c (IZR z) (SF2R f).
Proof.
  intros Hf. destruct f as [s|s| |s m e]; try discriminate.
  - exists (z ?= 0)%Z. split; [reflexivity|]. apply Zcompare_cmp.
  - unfold int_float_compare, SF2R.
    set (v := if s then Z.neg m else Z.pos m).
    assert (Hpos : forall e', (0 <= e')%Z ->
              cmp_spec (z ?= v * 2 ^ e')%Z (IZR z) (IZR v * bpow e')).
    { intros e' He'. rewrite bpow_IZR, <- mult_IZR by lia. apply Zcompare_cmp. }
    destruct e as [|k|k]; eexists; (split; [reflexivity|]).
    + apply (Hpos 0%Z). lia.
    + apply (Hpos (Z.pos k)). lia.
    + apply cmp_spec_scale with (bpow (Z.pos k)); [apply bpow_gt_0|].
      rewrite Rmult_assoc, <- bpow_add.
      replace (Z.neg k + Z.pos k)%Z with 0%Z by lia. rewrite bpow_0, Rmult_1_r.
      rewrite bpow_IZR, <- mult_IZR by lia. apply Zcompare_cmp.
Qed.

(** *** Python numbers as reals *)

Lemma good_is_finite f : good f -> is_finite f = true.
Proof. intros [H _]. destruct f as [s|s| |[] m e]; try discriminate; reflexivity. Qed.

Lemma compare_sound a b :
  ok a -> ok b ->
  exists c, compare a b = Some c /\ cmp_spec c (val a) (val b).
Proof.
  intros Ha Hb. destruct a as [x|x], b as [y|y]; simpl in *.
  - eexists. split; [reflexivity|]. apply Zcompare_cmp.
  - apply int_float_compare_sound. apply good_is_finite. exact Hb.
  - destruct (int_float_compare_sound y x (good_is_finite _ Ha)) as (c & E & H).
    exists (CompOpp c). rewrite E. split; [reflexivity|].
    apply cmp_spec_opp. exact H.
  - apply SFcompare_good; assumption.
Qed.

Lemma lt_sound a b : ok a -> ok b -> lt a b = true <-> val a < val b.
Proof.
  intros Ha Hb. destruct (compare_sound a b Ha Hb) as (c & E & H).
  unfold lt. rewrite E. destruct c; simpl in H; split; intros H'; try reflexivity;
    try discriminate; try lra.
Qed.

Lemma gt_sound a b : ok a -> ok b -> gt a b = true <-> val b < val a.
Proof.
  intros Ha Hb. destruct (compare_sound a b Ha Hb) as (c & E & H).
  unfold gt. rewrite E. destruct c; simpl in H; split; intros H'; try reflexivity;
    try discriminate; try lra.
Qed.

Lemma min2_spec a b :
  ok a -> ok b ->
  ok (min2 a b) /\ val (min2 a b) <= val a /\ val (min2 a b) <= val b.
Proof.
  intros Ha Hb. unfold min2. pose proof (lt_sound b a Hb Ha) as H.
  destruct (lt b a).
  - split; [exact Hb|]. assert (val b < val a) by (apply H; reflexivity). lra.
  - split; [exact Ha|]. split; [lra|].
    destruct (Rle_or_lt (val a) (val b)) as [L|G]; [exact L|].
    apply H in G. discriminate.
Qed.

Lemma max2_spec a b :
  ok a -> ok b ->
  ok (max2 a b) /\ val a <= val (max2 a b) /\ val b <= val (max2 a b) /\
  (max2 a b = a \/ max2 a b = b).
Proof.
  intros Ha Hb. unfold max2. pose proof (gt_sound b a Hb Ha) as H.
  destruct (gt b a).
  - split; [exact Hb|]. assert (val a < val b) by (apply H; reflexivity).
    repeat split; try lra. right. reflexivity.
  - split; [exact Ha|]. split; [lra|]. split; [|left; reflexivity].
    destruct (Rle_or_lt (val b) (val a)) as [L|G]; [exact L|].
    apply H in G. discriminate.
Qed.

Lemma max3_spec a b c :
  ok a -> ok b -> ok c ->
  ok (max3 a b c) /\ val a <= val (max3 a b c) /\ val b <= val (max3 a b c) /\
  val c <= val (max3 a b c) /\
  (max3 a b c = a \/ max3 a b c = b \/ max3 a b c = c).
Proof.
  intros Ha Hb Hc. unfold max3.
  destruct (max2_spec a b Ha Hb) as (O1 & A1 & B1 & D1).
  destruct (max2_spec (max2 a b) c O1 Hc) as (O2 & A2 & B2 & D2).
  split; [exact O2|]. repeat split; try lra.
  destruct D2 as [->| ->]; [destruct D1 as [->| ->]|]; auto.
Qed.



End F64Facts.


(** ** The scaled dimensions as real numbers *)

Module SizeFacts.
Import F64 F64Facts.

Lemma eps_pos : (0 < eps)%R.
Proof. apply bpow_gt_0. Qed.

Lemma eps_half (t : Z) : t <= 2 ^ 51 -> (IZR t * eps <= / 2)%R.
Proof.
  intros H. unfold eps. rewrite <- bpow_opp_1.
  replace (-1)%Z with (51 + -52)%Z by lia. rewrite bpow_add.
  apply Rmult_le_compat_r; [pose proof (bpow_gt_0 (-52)); lra|].
  rewrite bpow_IZR by lia. apply IZR_le. exact H.
Qed.

Lemma small_quotient (a b : Z) :
  1 <= a -> 0 < b < 2 ^ 53 -> (bpow (-1022) <= IZR a / IZR b)%R.
Proof.
  intros Ha Hb.
  assert (0 < IZR b)%R by (apply IZR_lt; lia).
  assert (IZR b < bpow 53)%R by (rewrite bpow_IZR by lia; apply IZR_lt; lia).
  assert (1 <= IZR a)%R by (apply IZR_le; lia).
  apply Rle_trans with (bpow (-53)).
  - apply bpow_le. lia.
  - apply Rmult_le_reg_r with (IZR b); [assumption|].
    unfold Rdiv. rewrite Rmult_assoc, Rinv_l, Rmult_1_r by lra.
    apply Rle_trans with (bpow (-53) * bpow 53)%R.
    + apply Rmult_le_compat_l; [pose proof (bpow_gt_0 (-53)); lra | lra].
    + rewrite <- bpow_add. replace (-53 + 53)%Z with 0%Z by lia.
      rewrite bpow_0. lra.
Qed.

(** [int(origin * ratio)], by the kind of the ratio. *)
Lemma scaled_cases (o : Z) (r : Py.num) (z : Z) :
  0 <= o < 2 ^ 53 -> ok r -> scaled o r = Some z ->
  (exists k, r = Py.Int k /\ z = o * k) \/
  (exists f y, r = Py.Float f /\ rounds_to (IZR o * SF2R f) y /\
               0 <= z /\ (IZR z <= SF2R y < IZR z + 1)%R).
Proof.
  intros Ho Hr H. unfold scaled, Py.mul in H. destruct r as [k|f].
  - left. exists k. simpl in H. injection H as <-. auto.
  - right. simpl in H.
    destruct (Py.int2float o) as [fo|] eqn:Eo; simpl in H; [|discriminate].
    destruct (int2float_exact o fo Ho Eo) as [Go Vo].
    exists f, (SFmul Py.prec Py.emax fo f). split; [reflexivity|].
    destruct (SFmul_rounds fo f Go Hr) as [Hinf|Hrt].
    + rewrite Hinf in H. discriminate.
    + rewrite Vo in Hrt. split; [exact Hrt|].
      destruct Hrt as (G & _). exact (int_floor _ _ G H).
Qed.

(** A ratio of at most 1 never enlarges. *)
Lemma scaled_le_origin (o : Z) (r : Py.num) (z : Z) :
  0 <= o < 2 ^ 53 -> ok r -> (val r <= 1)%R -> scaled o r = Some z -> z <= o.
Proof.
  intros Ho Hr Hv H.
  destruct (scaled_cases o r z Ho Hr H) as [(k & -> & ->)|(f & y & -> & Hrt & _ & Hz)].
  - simpl in Hv. apply le_IZR in Hv.
    replace o with (o * 1) at 2 by lia. apply Z.mul_le_mono_nonneg_l; lia.
  - simpl in Hv. destruct Hrt as (_ & _ & U & _).
    assert (HoR : (0 <= IZR o)%R) by (apply IZR_le; lia).
    assert (HX : (IZR o * SF2R f <= IZR o * bpow 0)%R).
    { rewrite bpow_0. apply Rmult_le_compat_l; lra. }
    assert (HB : (IZR o * SF2R f < bpow (0 + 53))%R).
    { rewrite bpow_0 in HX. rewrite bpow_IZR by lia.
      apply Rle_lt_trans with (IZR o); [lra|]. apply IZR_lt. simpl. lia. }
    pose proof (U o 0 ltac:(lia) HX HB) as Hy. rewrite bpow_0 in Hy.
    apply le_IZR. lra.
Qed.

(** A product within one rounding of the bound [t] is truncated to at most [t]. *)
Lemma scaled_le_bound (o : Z) (r : Py.num) (z t : Z) :
  0 <= o < 2 ^ 53 -> 0 < t <= 2 ^ 51 -> ok r ->
  (IZR o * val r <= IZR t * (1 + eps))%R ->
  scaled o r = Some z -> z <= t.
Proof.
  intros Ho Ht Hr Hv H.
  pose proof (eps_half t ltac:(lia)) as He.
  assert (HtR : (IZR t + / 2 < IZR (t + 1))%R) by (rewrite plus_IZR; lra).
  destruct (scaled_cases o r z Ho Hr H) as [(k & -> & ->)|(f & y & -> & Hrt & _ & Hz)].
  - simpl in Hv. rewrite <- mult_IZR in Hv.
    assert (IZR (o * k) < IZR (t + 1))%R as Hlt by lra.
    apply lt_IZR in Hlt. lia.
  - simpl in Hv. destruct Hrt as (_ & _ & U & _).
    assert (HK : (IZR (2 * t + 1) * bpow (-1) = IZR t + / 2)%R).
    { rewrite bpow_opp_1, plus_IZR, mult_IZR. lra. }
    assert (HX : (IZR o * SF2R f <= IZR (2 * t + 1) * bpow (-1))%R) by lra.
    assert (HB : (IZR o * SF2R f < bpow (-1 + 53))%R).
    { apply Rle_lt_trans with (IZR t + / 2)%R; [lra|].
      apply Rlt_le_trans with (IZR (t + 1)); [exact HtR|].
      rewrite bpow_IZR by lia. apply IZR_le. simpl. lia. }
    pose proof (U (2 * t + 1) (-1) ltac:(lia) HX HB) as Hy.
    assert (IZR z < IZR (t + 1))%R as Hlt by lra.
    apply lt_IZR in Hlt. lia.
Qed.

(** A ratio that is not below the rounded quotient of [t] by the origin
    gives at least [t - 1]. *)
Lemma scaled_ge_bound (o : Z) (r : Py.num) (z t : Z) (q : spec_float) :
  0 < o < 2 ^ 53 -> 0 <= t <= 2 ^ 51 -> ok r ->
  rounds_to (IZR t / IZR o) q -> (SF2R q <= val r)%R ->
  scaled o r = Some z -> t - 1 <= z.
Proof.
  intros Ho Ht Hr Hq Hv H.
  pose proof (eps_half t ltac:(lia)) as He. pose proof eps_pos as Hep.
  assert (He1 : (eps <= / 2)%R).
  { pose proof (eps_half 1 ltac:(lia)). lra. }
  assert (HoR : (0 < IZR o)%R) by (apply IZR_lt; lia).
  assert (HtR : (0 <= IZR t)%R) by (apply IZR_le; lia).
  destruct Hq as (Gq & Pq & _ & _ & Eq).
  destruct (Z.eq_dec t 0) as [->|Hne].
  { destruct (scaled_cases o r z ltac:(lia) Hr H) as [(k & -> & ->)|(f & y & -> & _ & Hz & _)];
      [|lia].
    simpl in Hv. assert (0 <= IZR k)%R as Hk by lra. apply le_IZR in Hk.
    assert (0 <= o * k) by (apply Z.mul_nonneg_nonneg; lia). lia. }
  pose proof (small_quotient t o ltac:(lia) Ho) as Hsmall.
  destruct (Eq Hsmall) as [Lq _]. fold eps in Lq.
  (* o * val r >= t * (1 - eps) *)
  assert (HX : (IZR t * (1 - eps) <= IZR o * val r)%R).
  { apply Rle_trans with (IZR o * SF2R q)%R.
    - apply Rle_trans with (IZR o * (IZR t / IZR o * (1 - eps)))%R.
      + unfold Rdiv. rewrite <- !Rmult_assoc.
        rewrite (Rmult_comm (IZR o)), (Rmult_assoc (IZR t)), Rinv_r by lra. lra.
      + apply Rmult_le_compat_l; lra.
    - apply Rmult_le_compat_l; lra. }
  assert (HA : (IZR t - / 2 <= IZR t * (1 - eps))%R) by lra.
  destruct (scaled_cases o r z ltac:(lia) Hr H) as [(k & -> & ->)|(f & y & -> & Hrt & _ & Hz)].
  - simpl in HX. rewrite <- mult_IZR in HX.
    assert (IZR (t - 1) < IZR (o * k))%R as Hlt by (rewrite minus_IZR; lra).
    apply lt_IZR in Hlt. lia.
  - simpl in HX. destruct Hrt as (_ & _ & _ & _ & E).
    assert (1 <= IZR t)%R by (apply IZR_le; lia).
    assert (Hn : (bpow (-1022) <= IZR o * SF2R f)%R).
    { apply Rle_trans with (/ 2)%R; [|lra].
      rewrite <- bpow_opp_1. apply bpow_le. lia. }
    destruct (E Hn) as [Ly _]. fold eps in Ly.
    assert (H1 : (IZR t * (1 - eps) * (1 - eps) <= IZR o * SF2R f * (1 - eps))%R).
    { apply Rmult_le_compat_r; lra. }
    assert (H2 : (IZR t * (1 - eps) * eps <= IZR t * eps)%R).
    { rewrite (Rmult_comm (IZR t * (1 - eps))), (Rmult_comm (IZR t) eps).
      apply Rmult_le_compat_l; [lra|].
      rewrite <- (Rmult_1_r (IZR t)) at 2. apply Rmult_le_compat_l; lra. }
    assert (H3 : (IZR t - 1 <= SF2R y)%R).
    { replace (IZR t * (1 - eps) * (1 - eps))%R
        with (IZR t * (1 - eps) - IZR t * (1 - eps) * eps)%R in H1 by ring.
      lra. }
    assert (IZR (t - 2) < IZR z)%R as Hlt by (rewrite minus_IZR; lra).
    apply lt_IZR in Hlt. lia.
Qed.

(** *** The ratios *)

Lemma quotient_le_1 (a b : Z) (q : spec_float) :
  0 <= a <= b -> 0 < b -> rounds_to (IZR a / IZR b) q -> (SF2R q <= 1)%R.
Proof.
  intros Ha Hb (_ & _ & U & _).
  assert (HbR : (0 < IZR b)%R) by (apply IZR_lt; lia).
  assert (HaR : (IZR a <= IZR b)%R) by (apply IZR_le; lia).
  assert (Hq : (IZR a / IZR b <= 1)%R).
  { apply Rmult_le_reg_r with (IZR b); [exact HbR|].
    unfold Rdiv. rewrite Rmult_assoc, Rinv_l, Rmult_1_r by lra. lra. }
  pose proof (U 1 0 ltac:(lia)) as H. rewrite bpow_0, Rmult_1_r in H.
  apply H; [exact Hq|].
  apply Rle_lt_trans with 1%R; [exact Hq|].
  rewrite <- bpow_0. apply bpow_lt. lia.
Qed.

Lemma axis_ratio_spec (t o : Z) (r : Py.num) :
  0 < t -> 0 < o < 2 ^ 53 -> axis_ratio t o = Some r ->
  ok r /\ (val r <= 1)%R /\ (IZR o * val r <= IZR t * (1 + eps))%R.
Proof.
  intros Ht Ho H. unfold axis_ratio in H. pose proof eps_pos as Hep.
  assert (HoR : (0 < IZR o)%R) by (apply IZR_lt; lia).
  assert (HtR : (0 < IZR t)%R) by (apply IZR_lt; lia).
  destruct (Z.gtb_spec o t) as [Hgt|Hle].
  - destruct (Py.int_truediv t o) as [q|] eqn:E; simpl in H; [|discriminate].
    injection H as <-.
    pose proof (int_truediv_rounds t o q ltac:(lia) ltac:(lia) E) as Hr.
    split; [destruct Hr as [G _]; exact G|]. split.
    + apply (quotient_le_1 t o q); [lia|lia|exact Hr].
    + simpl. destruct Hr as (_ & _ & _ & _ & Er).
      destruct (Er (small_quotient t o ltac:(lia) Ho)) as [_ Hu]. fold eps in Hu.
      apply Rle_trans with (IZR o * (IZR t / IZR o * (1 + eps)))%R.
      * apply Rmult_le_compat_l; lra.
      * unfold Rdiv. rewrite <- !Rmult_assoc.
        rewrite (Rmult_comm (IZR o)), (Rmult_assoc (IZR t)), Rinv_r by lra. lra.
  - injection H as <-. simpl. split; [exact I|]. split; [lra|].
    assert (IZR o <= IZR t)%R by (apply IZR_le; lia).
    rewrite Rmult_1_r. apply Rle_trans with (IZR t); [assumption|].
    rewrite <- (Rmult_1_r (IZR t)) at 1. apply Rmult_le_compat_l; lra.
Qed.

Lemma mode_ratio_spec (ow oh : Z) (m : mode) (cp : custom_param)
    (ld : limit_direction) (tw th : Z) (ratio : Py.num) :
  preset_sizes m cp = Some (tw, th) -> 0 < tw -> 0 < th ->
  0 < ow < 2 ^ 53 -> 0 < oh < 2 ^ 53 ->
  mode_ratio (ow, oh) m cp ld = Some ratio ->
  ok ratio /\ (val ratio <= 1)%R /\
  (ld <> LY -> (IZR ow * val ratio <= IZR tw * (1 + eps))%R) /\
  (ld <> LX -> (IZR oh * val ratio <= IZR th * (1 + eps))%R).
Proof.
  intros Hp Htw Hth How Hoh H.
  assert (Hm : (ratio_w ← axis_ratio tw ow;
                ratio_h ← axis_ratio th oh;
                Some match ld with
                     | LX => ratio_w
                     | LY => ratio_h
                     | LXY => Py.min2 ratio_w ratio_h
                     end) = Some ratio).
  { unfold mode_ratio in H.
    destruct m; try (rewrite Hp in H; simpl in H; exact H).
    simpl in Hp. destruct cp; discriminate. }
  clear H.
  destruct (axis_ratio tw ow) as [rw|] eqn:Ew; simpl in Hm; [|discriminate].
  destruct (axis_ratio th oh) as [rh|] eqn:Eh; simpl in Hm; [|discriminate].
  injection Hm as <-.
  destruct (axis_ratio_spec tw ow rw Htw How Ew) as (Ow & Vw & Bw).
  destruct (axis_ratio_spec th oh rh Hth Hoh Eh) as (Oh & Vh & Bh).
  assert (HowR : (0 < IZR ow)%R) by (apply IZR_lt; lia).
  assert (HohR : (0 < IZR oh)%R) by (apply IZR_lt; lia).
  destruct ld.
  - split; [exact Ow|]. split; [exact Vw|].
    split; [intros _; exact Bw | intros N; contradiction].
  - split; [exact Oh|]. split; [exact Vh|].
    split; [intros N; contradiction | intros _; exact Bh].
  - destruct (min2_spec rw rh Ow Oh) as (Om & M1 & M2).
    split; [exact Om|]. split; [lra|]. split; intros _.
    + apply Rle_trans with (IZR ow * val rw)%R; [|exact Bw].
      apply Rmult_le_compat_l; lra.
    + apply Rle_trans with (IZR oh * val rh)%R; [|exact Bh].
      apply Rmult_le_compat_l; lra.
Qed.

Lemma min_ratio_spec (ow oh mw mh : Z) (ld : limit_direction) (ratio r' : Py.num) :
  0 < ow -> 0 < oh -> 0 <= mw -> 0 <= mh -> ok ratio ->
  min_ratio (ow, oh) (mw, mh) ld ratio = Some r' ->
  exists qw qh,
    Py.int_truediv mw ow = Some qw /\ Py.int_truediv mh oh = Some qh /\
    rounds_to (IZR mw / IZR ow) qw /\ rounds_to (IZR mh / IZR oh) qh /\
    ok r' /\ (val ratio <= val r')%R /\
    (ld <> LY -> (SF2R qw <= val r')%R) /\
    (ld <> LX -> (SF2R qh <= val r')%R) /\
    (r' = ratio \/ (ld <> LY /\ r' = Py.Float qw) \/ (ld <> LX /\ r' = Py.Float qh)).
Proof.
  intros How Hoh Hmw Hmh Hr H. unfold min_ratio in H.
  destruct (Py.int_truediv mw ow) as [qw|] eqn:Ew; simpl in H; [|discriminate].
  destruct (Py.int_truediv mh oh) as [qh|] eqn:Eh; simpl in H; [|discriminate].
  injection H as <-.
  pose proof (int_truediv_rounds mw ow qw Hmw How Ew) as Rw.
  pose proof (int_truediv_rounds mh oh qh Hmh Hoh Eh) as Rh.
  assert (Gw : ok (Py.Float qw)) by (destruct Rw as [G _]; exact G).
  assert (Gh : ok (Py.Float qh)) by (destruct Rh as [G _]; exact G).
  exists qw, qh. split; [reflexivity|]. split; [reflexivity|].
  split; [exact Rw|]. split; [exact Rh|].
  destruct ld.
  - destruct (max2_spec ratio (Py.Float qw) Hr Gw) as (O & A & B & D).
    split; [exact O|]. split; [exact A|]. split; [intros _; exact B|].
    split; [intros N; contradiction|].
    destruct D as [D|D]; [left; exact D|right; left; split; [discriminate|exact D]].
  - destruct (max2_spec ratio (Py.Float qh) Hr Gh) as (O & A & B & D).
    split; [exact O|]. split; [exact A|]. split; [intros N; contradiction|].
    split; [intros _; exact B|].
    destruct D as [D|D]; [left; exact D|right; right; split; [discriminate|exact D]].
  - destruct (max3_spec ratio (Py.Float qw) (Py.Float qh) Hr Gw Gh) as (O & A & B & C & D).
    split; [exact O|]. split; [exact A|]. split; [intros _; exact B|].
    split; [intros _; exact C|].
    destruct D as [D|[D|D]];
      [left; exact D | right; left; split; [discriminate|exact D]
      | right; right; split; [discriminate|exact D]].
Qed.

(** The parts of a successful [set_size]. *)
Lemma set_size_parts (ow oh : Z) (m : mode) (cp : custom_param) (mw mh : Z)
    (ld : limit_direction) (w h : Z) :
  set_size (ow, oh) m cp (mw, mh) ld = Some (w, h) ->
  exists ratio w1 h1 r' cw ch,
    mode_ratio (ow, oh) m cp ld = Some ratio /\
    first_size (ow, oh) m cp ld = Some (w1, h1) /\
    scaled ow ratio = Some w1 /\ scaled oh ratio = Some h1 /\
    final_ratio (ow, oh) m cp (mw, mh) ld = Some r' /\
    (if (w1 <? mw) || (h1 <? mh)
     then min_ratio (ow, oh) (mw, mh) ld ratio = Some r'
     else r' = ratio) /\
    scaled ow r' = Some cw /\ scaled oh r' = Some ch /\
    w = make_even cw /\ h = make_even ch.
Proof.
  intros H. unfold set_size in H. unfold final_ratio, first_size.
  set (MR := min_ratio (ow, oh) (mw, mh) ld) in *.
  simpl in H |- *.
  destruct (mode_ratio (ow, oh) m cp ld) as [ratio|] eqn:Er; simpl in H |- *;
    [|discriminate].
  destruct (scaled ow ratio) as [w1|] eqn:Ew; simpl in H |- *; [|discriminate].
  destruct (scaled oh ratio) as [h1|] eqn:Eh; simpl in H |- *; [|discriminate].
  destruct ((w1 <? mw) || (h1 <? mh)) eqn:Ec; simpl in H.
  - destruct (MR ratio) as [r'|] eqn:Em; simpl in H; [|discriminate].
    destruct (scaled ow r') as [cw|] eqn:Ecw; simpl in H; [|discriminate].
    destruct (scaled oh r') as [ch|] eqn:Ech; simpl in H; [|discriminate].
    injection H as <- <-.
    exists ratio, w1, h1, r', cw, ch. rewrite Ew, Eh. simpl. rewrite Ec, Em.
    repeat split; try reflexivity; assumption.
  - injection H as <- <-.
    exists ratio, w1, h1, ratio, w1, h1. rewrite Ew, Eh. simpl. rewrite Ec.
    repeat split; try reflexivity; assumption.
Qed.

End SizeFacts.


(** ** When [set_size] returns *)

Module Defined.
Import F64 F64Facts.

Lemma rounds_to_not_infinity X f : rounds_to X f -> is_finite f = true.
Proof. intros (G & _). apply good_is_finite. exact G. Qed.

Lemma int_truediv_defined (a b : Z) :
  0 <= a -> 0 < b -> (IZR a / IZR b < bpow 1023)%R ->
  is_Some (Py.int_truediv a b).
Proof.
  intros Ha Hb HX. unfold Py.int_truediv.
  destruct b as [|pb|pb]; try lia.
  destruct a as [|pa|pa]; try lia; [eauto|].
  change (Z.pos pa <? 0) with false. change (Z.pos pb <? 0) with false.
  change (Z.to_pos (Z.abs (Z.pos pa))) with pa.
  change (Z.to_pos (Z.abs (Z.pos pb))) with pb.
  unfold SFdiv.
  destruct (div_core_spec (Z.pos pa) (Z.pos pb) ltac:(lia) ltac:(lia))
    as (q & e' & l & E & Hq & Hloc & Hprec).
  rewrite E. change (xorb false false) with false.
  destruct (round_good q e' l _ Hq Hloc Hprec) as [_ Hr].
  pose proof (rounds_to_not_infinity _ _ (Hr HX)) as Hfin.
  destruct (binary_round_aux Py.prec Py.emax false q e' l); try discriminate; eauto.
Qed.

Lemma binary_normalize_round (m : positive) :
  exists mz ez,
    binary_normalize Py.prec Py.emax (Z.pos m) 0 false =
      binary_round_aux Py.prec Py.emax false (Z.pos mz) ez loc_Exact /\
    (IZR (Z.pos mz) * bpow ez = IZR (Z.pos m))%R /\
    ez <= fexp (Zdigits2 (Z.pos mz) + ez).
Proof.
  unfold binary_normalize, binary_round, shl_align.
  change (Z.pos (digits2_pos m)) with (Zdigits2 (Z.pos m)).
  set (ex' := fexp (Zdigits2 (Z.pos m) + 0)).
  destruct (ex' - 0) as [|d|d] eqn:Ed.
  - exists m, 0. split; [reflexivity|]. split; [rewrite bpow_0; lra|]. fold ex'. lia.
  - exists m, 0. split; [reflexivity|]. split; [rewrite bpow_0; lra|]. fold ex'. lia.
  - assert (Hex : ex' = Z.neg d) by lia.
    assert (Hmz : Z.pos (Pos.iter xO m d) = Z.pos m * 2 ^ Z.pos d) by apply iter_xO.
    exists (Pos.iter xO m d), ex'. split; [reflexivity|]. split.
    + rewrite Hmz, mult_IZR, <- (bpow_IZR (Z.pos d)) by lia.
      rewrite Rmult_assoc, <- bpow_add, Hex.
      replace (Z.pos d + Z.neg d) with 0 by lia. rewrite bpow_0. lra.
    + rewrite Hmz, Zdigits2_shift by lia.
      replace (Zdigits2 (Z.pos m) + Z.pos d + ex') with (Zdigits2 (Z.pos m) + 0) by lia.
      fold ex'. lia.
Qed.

Lemma int2float_defined (z : Z) :
  0 <= z -> (IZR z < bpow 1023)%R -> is_Some (Py.int2float z).
Proof.
  intros Hz HX. unfold Py.int2float.
  destruct z as [|m|m]; try lia; [simpl; eauto|].
  destruct (binary_normalize_round m) as (mz & ez & -> & Hv & Hp).
  destruct (round_good (Z.pos mz) ez loc_Exact (IZR (Z.pos m))) as [_ Hr];
    try assumption; try lia.
  { simpl. rewrite <- Hv, Rmult_assoc, <- bpow_add.
    replace (ez + - ez) with 0 by lia. rewrite bpow_0. lra. }
  pose proof (rounds_to_not_infinity _ _ (Hr HX)) as Hfin.
  destruct (binary_round_aux Py.prec Py.emax false (Z.pos mz) ez loc_Exact);
    try discriminate; eauto.
Qed.

Lemma SFmul_defined f1 f2 :
  good f1 -> good f2 -> (SF2R f1 * SF2R f2 < bpow 1023)%R ->
  rounds_to (SF2R f1 * SF2R f2) (SFmul Py.prec Py.emax f1 f2).
Proof.
  intros G1 G2 HX. pose proof G1 as [N1 _]. pose proof G2 as [N2 _].
  destruct f1 as [s1|s1| |[] m1 e1]; try discriminate;
    destruct f2 as [s2|s2| |[] m2 e2]; try discriminate.
  - simpl. rewrite Rmult_0_l. apply rounds_to_zero.
  - simpl SFmul. simpl SF2R. rewrite Rmult_0_l. apply rounds_to_zero.
  - simpl SFmul. simpl SF2R. rewrite Rmult_0_r. apply rounds_to_zero.
  - destruct (good_finite _ _ G1) as [C1 _]. destruct (good_finite _ _ G2) as [C2 _].
    simpl SFmul. simpl SF2R in *.
    destruct (round_good (Z.pos (m1 * m2)) (e1 + e2) loc_Exact
                (IZR (Z.pos m1) * bpow e1 * (IZR (Z.pos m2) * bpow e2))) as [_ H].
    + lia.
    + simpl. rewrite Pos2Z.inj_mul, mult_IZR.
      replace (- (e1 + e2)) with (- e1 + - e2) by lia. rewrite bpow_add.
      assert (bpow e1 * bpow (- e1) = 1)%R as I1.
      { rewrite <- bpow_add. replace (e1 + - e1) with 0 by lia. apply bpow_0. }
      assert (bpow e2 * bpow (- e2) = 1)%R as I2.
      { rewrite <- bpow_add. replace (e2 + - e2) with 0 by lia. apply bpow_0. }
      transitivity (IZR (Z.pos m1) * IZR (Z.pos m2) *
                    ((bpow e1 * bpow (- e1)) * (bpow e2 * bpow (- e2))))%R; [ring|].
      rewrite I1, I2. ring.
    + rewrite Pos2Z.inj_mul.
      pose proof (Zdigits2_mul (Z.pos m1) (Z.pos m2) ltac:(lia) ltac:(lia)).
      assert (0 < Zdigits2 (Z.pos m1)) by (simpl; lia).
      assert (0 < Zdigits2 (Z.pos m2)) by (simpl; lia).
      rewrite fexp_eq in *. lia.
    + apply H. exact HX.
Qed.

Lemma int_defined f : good f -> is_Some (Py.int (Py.Float f)).
Proof.
  intros [N _]. destruct f as [s|s| |[] m e]; try discriminate; simpl; eauto.
Qed.

Lemma bpow_big (k : Z) : 0 <= k <= 1023 -> (IZR (2 ^ k) <= bpow 1023)%R.
Proof. intros Hk. rewrite <- bpow_IZR by lia. apply bpow_le. lia. Qed.

(** [int(origin * ratio)] is defined when the ratio is at most 2^54. *)
Lemma scaled_defined (o : Z) (r : Py.num) :
  0 <= o < 2 ^ 53 -> ok r -> (val r <= IZR (2 ^ 54))%R ->
  is_Some (scaled o r).
Proof.
  intros Ho Hr Hv. unfold scaled, Py.mul. destruct r as [k|f]; simpl; [eauto|].
  assert (HoR : (0 <= IZR o)%R) by (apply IZR_le; lia).
  assert (HoB : (IZR o < IZR (2 ^ 53))%R) by (apply IZR_lt; lia).
  pose proof (bpow_big 53 ltac:(lia)) as B53.
  destruct (int2float_defined o ltac:(lia) ltac:(lra)) as [fo Eo].
  rewrite Eo. simpl.
  destruct (int2float_exact o fo Ho Eo) as [Go Vo].
  simpl in Hr, Hv. pose proof (good_nonneg f Hr) as Hf.
  assert (HX : (SF2R fo * SF2R f < bpow 1023)%R).
  { rewrite Vo. apply Rle_lt_trans with (IZR o * IZR (2 ^ 54))%R.
    - apply Rmult_le_compat_l; lra.
    - apply Rlt_le_trans with (IZR (2 ^ 53) * IZR (2 ^ 54))%R.
      + apply Rmult_lt_compat_r; [apply IZR_lt; lia | lra].
      + rewrite <- mult_IZR. change (2 ^ 53 * 2 ^ 54) with (2 ^ 107).
        apply bpow_big. lia. }
  destruct (SFmul_defined fo f Go Hr HX) as (G & _).
  apply int_defined. exact G.
Qed.

End Defined.

Module SizeDefined.
Import F64 F64Facts SizeFacts Defined.

Lemma axis_ratio_defined (t o : Z) : 0 < t -> 0 < o -> is_Some (axis_ratio t o).
Proof.
  intros Ht Ho. unfold axis_ratio. destruct (Z.gtb_spec o t) as [Hgt|Hle]; [|eauto].
  assert (HoR : (0 < IZR o)%R) by (apply IZR_lt; lia).
  assert (HX : (IZR t / IZR o < bpow 1023)%R).
  { apply Rlt_le_trans with 1%R.
    - apply Rmult_lt_reg_r with (IZR o); [exact HoR|].
      unfold Rdiv. rewrite Rmult_assoc, Rinv_l, Rmult_1_r, Rmult_1_l by lra.
      apply IZR_lt. lia.
    - rewrite <- bpow_0. apply bpow_le. lia. }
  destruct (int_truediv_defined t o ltac:(lia) Ho HX) as [q Eq].
  rewrite Eq. simpl. eauto.
Qed.

Lemma min_quotient_defined (a b : Z) :
  0 <= a < 2 ^ 53 -> 0 < b ->
  exists q, Py.int_truediv a b = Some q /\ good q /\ (SF2R q <= IZR (2 ^ 53))%R.
Proof.
  intros Ha Hb.
  assert (HbR : (1 <= IZR b)%R) by (apply IZR_le; lia).
  assert (HaR : (0 <= IZR a)%R) by (apply IZR_le; lia).
  assert (HaB : (IZR a < IZR (2 ^ 53))%R) by (apply IZR_lt; lia).
  assert (Hq : (IZR a / IZR b <= IZR a)%R).
  { apply Rmult_le_reg_r with (IZR b); [lra|].
    unfold Rdiv. rewrite Rmult_assoc, Rinv_l, Rmult_1_r by lra.
    rewrite <- (Rmult_1_r (IZR a)) at 1. apply Rmult_le_compat_l; lra. }
  pose proof (bpow_big 53 ltac:(lia)) as B53.
  destruct (int_truediv_defined a b ltac:(lia) Hb ltac:(lra)) as [q Eq].
  exists q. split; [exact Eq|].
  destruct (int_truediv_rounds a b q ltac:(lia) Hb Eq) as (G & _ & U & _).
  split; [exact G|].
  pose proof (U (2 ^ 53) 0 ltac:(lia)) as H. rewrite bpow_0, Rmult_1_r in H.
  apply H; [lra|]. rewrite bpow_IZR by lia. change (0 + 53) with 53. lra.
Qed.

(** Once the first ratio is a number of at most 1, the rest of [set_size]
    goes through. *)
Lemma set_size_defined_from (ow oh mw mh : Z) (m : mode) (cp : custom_param)
    (ld : limit_direction) (ratio : Py.num) :
  0 < ow < 2 ^ 53 -> 0 < oh < 2 ^ 53 ->
  0 <= mw < 2 ^ 53 -> 0 <= mh < 2 ^ 53 ->
  mode_ratio (ow, oh) m cp ld = Some ratio -> ok ratio -> (val ratio <= 1)%R ->
  is_Some (set_size (ow, oh) m cp (mw, mh) ld).
Proof.
  intros How Hoh Hmw Hmh Er Ok V.
  assert (B54 : (IZR (2 ^ 53) <= IZR (2 ^ 54))%R) by (apply IZR_le; lia).
  assert (B1 : (1 <= IZR (2 ^ 53))%R) by (apply IZR_le; lia).
  unfold set_size. rewrite Er.
  set (MR := min_ratio (ow, oh) (mw, mh) ld) in *. simpl.
  destruct (scaled_defined ow ratio ltac:(lia) Ok ltac:(lra)) as [w1 Ew].
  destruct (scaled_defined oh ratio ltac:(lia) Ok ltac:(lra)) as [h1 Eh].
  rewrite Ew. simpl. rewrite Eh. simpl.
  destruct ((w1 <? mw) || (h1 <? mh)); simpl; [|eauto].
  destruct (min_quotient_defined mw ow Hmw ltac:(lia)) as (qw & Eqw & Gw & Vw).
  destruct (min_quotient_defined mh oh Hmh ltac:(lia)) as (qh & Eqh & Gh & Vh).
  assert (Em : exists r', MR ratio = Some r').
  { unfold MR, min_ratio. rewrite Eqw, Eqh. simpl. eauto. }
  destruct Em as [r' Em].
  destruct (min_ratio_spec ow oh mw mh ld ratio r'
              ltac:(lia) ltac:(lia) ltac:(lia) ltac:(lia) Ok Em)
    as (qw' & qh' & Eqw' & Eqh' & _ & _ & Ok' & _ & _ & _ & D).
  assert (qw' = qw) by congruence. assert (qh' = qh) by congruence. subst qw' qh'.
  assert (V' : (val r' <= IZR (2 ^ 54))%R).
  { destruct D as [->|[[_ ->]|[_ ->]]]; simpl; lra. }
  rewrite Em. simpl.
  destruct (scaled_defined ow r' ltac:(lia) Ok' V') as [cw Ecw].
  destruct (scaled_defined oh r' ltac:(lia) Ok' V') as [ch Ech].
  rewrite Ecw. simpl. rewrite Ech. simpl. eauto.
Qed.

Lemma accepted_ratio (r : spec_float) :
  Py.lt (Py.Int 0) (Py.Float r) && Py.lt (Py.Float r) (Py.Int 1) = true ->
  valid_binary Py.prec Py.emax r = true ->
  ok (Py.Float r) /\ (0 < val (Py.Float r) < 1)%R.
Proof.
  intros H Hv. apply andb_true_iff in H as [H0 H1].
  assert (N : nonneg r = true).
  { destruct r as [s|[]| |[] m e]; try reflexivity.
    - unfold Py.lt in H0. simpl in H0. discriminate.
    - unfold Py.lt in H1. simpl in H1. discriminate.
    - unfold Py.lt in H0. simpl in H0. discriminate.
    - unfold Py.lt, Py.compare, Py.int_float_compare in H0.
      assert (P2 : forall k, 0 <= k -> 0 < 2 ^ k) by (intros; apply Z.pow_pos_nonneg; lia).
      destruct e as [|p|p].
      + assert (C : (0 ?= Z.neg m * 2 ^ 0) = Gt) by (apply Z.compare_gt_iff; lia).
        rewrite C in H0. discriminate.
      + assert (C : (0 ?= Z.neg m * 2 ^ Z.pos p) = Gt).
        { apply Z.compare_gt_iff. pose proof (P2 (Z.pos p) ltac:(lia)). nia. }
        rewrite C in H0. discriminate.
      + assert (C : (0 * 2 ^ Z.pos p ?= Z.neg m) = Gt) by (apply Z.compare_gt_iff; lia).
        rewrite C in H0. discriminate. }
  assert (Ok : ok (Py.Float r)) by (split; assumption).
  split; [exact Ok|]. split.
  - apply (lt_sound (Py.Int 0) (Py.Float r) I Ok) in H0. exact H0.
  - apply (lt_sound (Py.Float r) (Py.Int 1) Ok I) in H1. exact H1.
Qed.

Lemma mode_ratio_defined (ow oh : Z) (m : mode) (cp : custom_param)
    (ld : limit_direction) :
  mode_accepted m cp = true -> canonical cp = true ->
  0 < ow < 2 ^ 53 -> 0 < oh < 2 ^ 53 ->
  exists ratio, mode_ratio (ow, oh) m cp ld = Some ratio /\
                ok ratio /\ (val ratio <= 1)%R.
Proof.
  intros Ha Hc How Hoh.
  assert (T : m = Divide \/
              (m <> Divide /\ exists tw th,
                 preset_sizes m cp = Some (tw, th) /\ 0 < tw /\ 0 < th)).
  { destruct m; try (right; split; [discriminate|]; simpl; eexists _, _;
                     split; [reflexivity|lia]).
    - right. split; [discriminate|]. simpl in Ha |- *.
      destruct cp as [|w h|r]; try discriminate.
      exists w, h. split; [reflexivity|]. lia.
    - left. reflexivity. }
  destruct T as [->|(Hm & tw & th & Ep & Htw & Hth)].
  - simpl in Ha. destruct cp as [|w h|r]; try discriminate.
    destruct (accepted_ratio r Ha Hc) as (Ok & _ & V).
    exists (Py.Float r). split; [reflexivity|]. split; [exact Ok|lra].
  - destruct (axis_ratio_defined tw ow Htw ltac:(lia)) as [rw Ew].
    destruct (axis_ratio_defined th oh Hth ltac:(lia)) as [rh Eh].
    assert (E : exists ratio, mode_ratio (ow, oh) m cp ld = Some ratio).
    { unfold mode_ratio. destruct m; try contradiction;
        rewrite Ep; simpl; rewrite Ew; simpl; rewrite Eh; simpl; eauto. }
    destruct E as [ratio E]. exists ratio. split; [exact E|].
    destruct (mode_ratio_spec ow oh m cp ld tw th ratio Ep Htw Hth How Hoh E)
      as (Ok & V & _). split; assumption.
Qed.

(** In a mode with a positive target size the first ratio is a number of
    at most 1. *)
Lemma target_ratio_defined (ow oh : Z) (m : mode) (cp : custom_param)
    (ld : limit_direction) (tw th : Z) :
  preset_sizes m cp = Some (tw, th) -> m <> Divide ->
  0 < tw -> 0 < th -> 0 < ow < 2 ^ 53 -> 0 < oh < 2 ^ 53 ->
  exists ratio, mode_ratio (ow, oh) m cp ld = Some ratio /\
                ok ratio /\ (val ratio <= 1)%R.
Proof.
  intros Ep Hm Htw Hth How Hoh.
  destruct (axis_ratio_defined tw ow Htw ltac:(lia)) as [rw Ew].
  destruct (axis_ratio_defined th oh Hth ltac:(lia)) as [rh Eh].
  assert (E : exists ratio, mode_ratio (ow, oh) m cp ld = Some ratio).
  { unfold mode_ratio. destruct m; try contradiction;
      rewrite Ep; simpl; rewrite Ew; simpl; rewrite Eh; simpl; eauto. }
  destruct E as [ratio E]. exists ratio. split; [exact E|].
  destruct (mode_ratio_spec ow oh m cp ld tw th ratio Ep Htw Hth How Hoh E)
    as (Ok & V & _). split; assumption.
Qed.

End SizeDefined.

(** ** Python comparisons *)

Lemma ne_Int a b : Py.ne (Py.Int a) (Py.Int b) = true <-> a <> b.
Proof.
  unfold Py.ne, Py.eq. simpl.
  destruct (Z.compare_spec a b); simpl; split; intros; try lia; try reflexivity; discriminate.
Qed.

Lemma ne_eq a b : Py.ne a b = negb (Py.eq a b).
Proof. reflexivity. Qed.

Lemma size_ne_spec a b : size_ne a b = true <-> a <> b.
Proof.
  destruct a as [a1 a2], b as [b1 b2]. unfold size_ne. simpl.
  destruct (Z.eqb_spec a1 b1), (Z.eqb_spec a2 b2); simpl; split; intros H;
    try reflexivity; try discriminate; try congruence.
Qed.

(** ** The plan of one video *)

Lemma set_parameter_make_param info p :
  ((exists c, V41.set_parameter c info = Some p) \/
   (exists c, V37.set_parameter c info = Some p)) ->
  exists new_size new_bitrate new_fps,
    p = make_param info new_size new_bitrate new_fps.
Proof.
  intros [[c H]|[c H]].
  - unfold V41.set_parameter in H.
    destruct (set_size _ _ _ _ _) as [ns|]; simpl in H; [|discriminate].
    destruct (V41.set_bit_rate _ _ _ _ _) as [nb|]; simpl in H; [|discriminate].
    injection H as <-. eauto.
  - unfold V37.set_parameter in H.
    destruct (set_size _ _ _ _ _) as [ns|]; simpl in H; [|discriminate].
    injection H as <-. eauto.
Qed.


(** C4: in both programs the plan of a video has [change_required] true
    exactly when the new size, the new bit rate or the new frame rate
    differs (by Python's [!=]) from the probed value, and false exactly when
    all three are equal to it. *)
Theorem change_required_iff info p :
  ((exists c, V41.set_parameter c info = Some p) \/
   (exists c, V37.set_parameter c info = Some p)) ->
  orig_size p = vi_size info /\ orig_bit_rate p = vi_bit_rate info /\
  orig_fps p = vi_avg_frame_rate info /\
  (change_required p = true <->
     size p <> orig_size p \/
     Py.ne (bit_rate p) (Py.Int (orig_bit_rate p)) = true \/
     Py.ne (fps p) (Py.Float (orig_fps p)) = true) /\
  (change_required p = false <->
     size p = orig_size p /\
     Py.eq (bit_rate p) (Py.Int (orig_bit_rate p)) = true /\
     Py.eq (fps p) (Py.Float (orig_fps p)) = true).
Proof.
  intros H. destruct (set_parameter_make_param info p H) as (ns & nb & nf & ->).
  simpl. repeat split; try reflexivity.
  - rewrite !orb_true_iff, size_ne_spec. tauto.
  - rewrite !orb_true_iff, size_ne_spec. tauto.
  - destruct (size_ne ns (vi_size info)) eqn:E; [discriminate|].
    destruct (decide (ns = vi_size info)) as [e|n]; [exact e|].
    apply size_ne_spec in n. congruence.
  - rewrite !orb_false_iff in H0. destruct H0 as [[_ H1] _].
    unfold Py.ne in H1. apply negb_false_iff in H1. exact H1.
  - rewrite !orb_false_iff in H0. destruct H0 as [_ H1].
    unfold Py.ne in H1. apply negb_false_iff in H1. exact H1.
  - intros (H1 & H2 & H3). rewrite !orb_false_iff. unfold Py.ne. rewrite H2, H3.
    repeat split; try reflexivity.
    destruct (size_ne ns (vi_size info)) eqn:E; [|reflexivity].
    apply size_ne_spec in E. contradiction.
Qed.

Lemma change_required_iff_witness :
  change_required (Sample.plan Sample.hd (1280, 720)) = false <->
    size (Sample.plan Sample.hd (1280, 720)) = orig_size (Sample.plan Sample.hd (1280, 720)) /\
    Py.eq (bit_rate (Sample.plan Sample.hd (1280, 720)))
          (Py.Int (orig_bit_rate (Sample.plan Sample.hd (1280, 720)))) = true /\
    Py.eq (fps (Sample.plan Sample.hd (1280, 720)))
          (Py.Float (orig_fps (Sample.plan Sample.hd (1280, 720)))) = true.
Proof.
  apply (change_required_iff Sample.hd (Sample.plan Sample.hd (1280, 720))).
  right. exists Sample.c37. vm_compute. reflexivity.
Defined.

(** C8: whatever the mode, the two dimensions [set_size] returns are even;
    each is the computed dimension, plus one when that one is odd. *)
Theorem set_size_even_dimensions origin_size m cp min_size ld w h :
  set_size origin_size m cp min_size ld = Some (w, h) ->
  Z.even w = true /\ Z.even h = true /\
  exists cw ch,
    computed_size origin_size m cp min_size ld = Some (cw, ch) /\
    w = (if Z.odd cw then cw + 1 else cw) /\
    h = (if Z.odd ch then ch + 1 else ch).
Proof.
  intros H. destruct (set_size_even _ _ _ _ _ _ _ H) as [Hw Hh].
  split; [exact Hw|]. split; [exact Hh|].
  rewrite set_size_computed in H.
  destruct (computed_size origin_size m cp min_size ld) as [[cw ch]|]; simpl in H;
    [|discriminate].
  injection H as <- <-. exists cw, ch. split; [reflexivity|].
  split.
  - destruct (make_even_cases cw) as [[E ->]|[E ->]].
    + rewrite <- Z.negb_even, E. reflexivity.
    + rewrite E. reflexivity.
  - destruct (make_even_cases ch) as [[E ->]|[E ->]].
    + rewrite <- Z.negb_even, E. reflexivity.
    + rewrite E. reflexivity.
Qed.

Lemma set_size_even_dimensions_witness :
  Z.even 1920 = true /\ Z.even 1080 = true /\
  exists cw ch,
    computed_size (1919, 1079) Fullhd CPNone (1, 1) LXY = Some (cw, ch) /\
    1920 = (if Z.odd cw then cw + 1 else cw) /\
    1080 = (if Z.odd ch then ch + 1 else ch).
Proof.
  apply (set_size_even_dimensions (1919, 1079) Fullhd CPNone (1, 1) LXY 1920 1080).
  vm_compute. reflexivity.
Defined.

(** ** The log *)

Lemma conversions_app a b : conversions (a ++ b) = (conversions a + conversions b)%nat.
Proof. unfold conversions. rewrite filter_app, length_app. reflexivity. Qed.

Lemma estimates_app a b : estimates (a ++ b) = (estimates a + estimates b)%nat.
Proof. unfold estimates. rewrite filter_app, length_app. reflexivity. Qed.

(** ** One pass through the body of the loop *)

Ltac execute_cases :=
  unfold execute, copy2, copy_file_times, getsize in *;
  repeat (case_match; simplify_eq/=).

Section Execute.

Variable ffmpeg : gmap string file → string → string → resize_param → run_result.
Variable output_of : string → string.
Variable nochange_copy : bool.

(** A file that exists is left as it is. *)
Lemma execute_keeps fs path params q f :
  fs !! q = Some f ->
  (execute ffmpeg output_of nochange_copy fs path params).1.1 !! q = Some f.
Proof.
  intros H.
  destruct (decide (q = output_of path)) as [->|N].
  - unfold execute. rewrite H. exact H.
  - execute_cases; simplify_option_eq; rewrite ?lookup_insert_ne by congruence; auto.
Qed.

(** Only the output path of the video is written. *)
Lemma execute_frame fs path params q :
  q <> output_of path ->
  (execute ffmpeg output_of nochange_copy fs path params).1.1 !! q = fs !! q.
Proof.
  intros N.
  execute_cases; simplify_option_eq; rewrite ?lookup_insert_ne by congruence; auto.
Qed.

(** An existing output is skipped and nothing is written. *)
Lemma execute_exists fs path params f :
  fs !! output_of path = Some f ->
  execute ffmpeg output_of nochange_copy fs path params =
    (fs, [LogExists (output_of path)], AlreadyExists).
Proof. intros H. unfold execute. rewrite H. reflexivity. Qed.


Lemma execute_conversions_le fs path params :
  (conversions (execute ffmpeg output_of nochange_copy fs path params).1.2 <= 1)%nat.
Proof. execute_cases; vm_compute; lia. Qed.


End Execute.

Section Loops.

Variable ffmpeg : gmap string file → string → string → resize_param → run_result.
Variable output_of : string → string.
Variable nochange_copy : bool.

Lemma execute_no_estimate fs path params :
  estimates (execute ffmpeg output_of nochange_copy fs path params).1.2 = 0%nat.
Proof. execute_cases; reflexivity. Qed.

Lemma conversions_eta idx a b : conversions [LogEta idx a b] = 0%nat.
Proof. reflexivity. Qed.

Lemma estimates_eta idx a b : estimates [LogEta idx a b] = 1%nat.
Proof. reflexivity. Qed.

(** *** videoresize_4_1.py *)

Lemma iteration_spec st idx path params st' :
  iteration ffmpeg output_of nochange_copy st idx path params = Some st' ->
  st_fs st' = (execute ffmpeg output_of nochange_copy (st_fs st) path params).1.1 /\
  conversions (st_log st') =
    (conversions (st_log st) +
     conversions (execute ffmpeg output_of nochange_copy (st_fs st) path params).1.2)%nat /\
  estimates (st_log st') =
    (estimates (st_log st) +
     estimates_of (execute ffmpeg output_of nochange_copy (st_fs st) path params).2)%nat.
Proof.
  unfold iteration. intros H.
  pose proof (execute_no_estimate (st_fs st) path params) as He.
  destruct (execute ffmpeg output_of nochange_copy (st_fs st) path params)
    as [[fs' evs] res]. simpl in *.
  destruct res; simplify_option_eq; simpl;
    rewrite ?conversions_app, ?estimates_app, ?He, ?conversions_eta, ?estimates_eta;
    repeat split; try reflexivity; try lia.
Qed.




(** *** video_resize.py *)

Lemma iteration37_spec total st idx path params st' :
  iteration37 ffmpeg output_of nochange_copy total st idx path params = Some st' ->
  fs37 st' = (execute ffmpeg output_of nochange_copy (fs37 st) path params).1.1 /\
  conversions (log37 st') =
    (conversions (log37 st) +
     conversions (execute ffmpeg output_of nochange_copy (fs37 st) path params).1.2)%nat.
Proof.
  unfold iteration37.
  destruct (execute ffmpeg output_of nochange_copy (fs37 st) path params)
    as [[fs' evs] res]. simpl.
  destruct res; intros H; repeat case_match; simplify_eq; simpl;
    rewrite ?conversions_app, ?conversions_eta; split; try reflexivity; lia.
Qed.




End Loops.

(** ** The claims on the conversion loop *)

(** C5: when the encoder succeeds and its output has more bytes than the
    source, the pass ends with the source itself (bytes and timestamps) at
    the output path, in place of the encoded file; no other path changes. *)
Theorem oversized_output_replaced
    (ffmpeg : gmap string file → string → string → resize_param → run_result)
    (output_of : string → string) (nochange_copy : bool)
    (fs : gmap string file) (path : string) (params : resize_param)
    (src out : file) :
  fs !! output_of path = None ->
  change_required params = true ->
  fs !! path = Some src ->
  ffmpeg fs path (output_of path) params = Exited 0 (Some out) ->
  (length (content src) < length (content out))%nat ->
  exists fs',
    execute ffmpeg output_of nochange_copy fs path params =
      (fs', [LogConvert (output_of path); LogLarger path;
             LogSourceCopied (output_of path)], Converted) /\
    fs' !! output_of path = Some src /\
    forall q, q <> output_of path -> fs' !! q = fs !! q.
Proof.
  intros Ho Hc Hs Hf Hlen.
  assert (Hne : path <> output_of path) by congruence.
  unfold execute. rewrite Ho, Hc, Hf. simpl.
  unfold getsize, copy2. rewrite lookup_insert_eq, lookup_insert_ne, Hs by congruence.
  simpl.
  destruct (Z.gtb_spec (Z.of_nat (length (content out))) (Z.of_nat (length (content src))))
    as [_|Hle]; [|lia].
  eexists. split; [reflexivity|]. split.
  - apply lookup_insert_eq.
  - intros q Hq. rewrite !lookup_insert_ne by congruence. reflexivity.
Qed.

Lemma oversized_output_replaced_witness :
  exists fs',
    execute Sample.bloating Sample.to_out false Sample.source_only "a.mp4"
            Sample.resized =
      (fs', [LogConvert (Sample.to_out "a.mp4"); LogLarger "a.mp4";
             LogSourceCopied (Sample.to_out "a.mp4")], Converted) /\
    fs' !! Sample.to_out "a.mp4" = Some Sample.one_byte /\
    forall q, q <> Sample.to_out "a.mp4" -> fs' !! q = Sample.source_only !! q.
Proof.
  apply (oversized_output_replaced Sample.bloating Sample.to_out false
           Sample.source_only "a.mp4" Sample.resized Sample.one_byte Sample.two_bytes).
  - vm_compute. reflexivity.
  - vm_compute. reflexivity.
  - vm_compute. reflexivity.
  - reflexivity.
  - simpl. lia.
Defined.





(** C9, as the code has it: a pass of the loop of videoresize_4_1.py logs
    one finish-time estimate when the video was skipped, left unchanged or
    converted, and none when the encoder failed. *)
Theorem estimates_per_file
    (ffmpeg : gmap string file → string → string → resize_param → run_result)
    (output_of : string → string) (nochange_copy : bool)
    (st : state) (idx : nat) (path : string) (params : resize_param) (st' : state) :
  iteration ffmpeg output_of nochange_copy st idx path params = Some st' ->
  estimates (st_log st') =
    (estimates (st_log st) +
     match (execute ffmpeg output_of nochange_copy (st_fs st) path params).2 with
     | Failed => 0
     | AlreadyExists | NoChange | Converted => 1
     end)%nat.
Proof.
  intros H. destruct (iteration_spec _ _ _ _ _ _ _ _ H) as (_ & _ & ->).
  destruct (execute _ _ _ _ _ _).2; reflexivity.
Qed.

Lemma estimates_per_file_witness :
  estimates [LogConvert "out/a.mp4"; LogLarger "a.mp4"; LogSourceCopied "out/a.mp4";
             LogEta 0 1 1] =
    (estimates [] +
     match (execute Sample.bloating Sample.to_out false Sample.source_only "a.mp4"
              Sample.resized).2 with
     | Failed => 0
     | AlreadyExists | NoChange | Converted => 1
     end)%nat.
Proof.
  apply (estimates_per_file Sample.bloating Sample.to_out false
           {| st_fs := Sample.source_only; st_log := []; total_bytes := 1;
              processed_bytes := 0; num_deletedVideos := 0 |}
           0 "a.mp4" Sample.resized
           {| st_fs := <[Sample.to_out "a.mp4" := Sample.one_byte]>
                         (<[Sample.to_out "a.mp4" := Sample.two_bytes]> Sample.source_only);
              st_log := [LogConvert "out/a.mp4"; LogLarger "a.mp4";
                         LogSourceCopied "out/a.mp4"; LogEta 0 1 1];
              total_bytes := 1; processed_bytes := 1; num_deletedVideos := 0 |}).
  vm_compute. reflexivity.
Defined.

(** C9 as the specification words it fails: with an encoder that exits
    with a non-zero status the run over one video ends without any
    finish-time estimate in the log. *)
Lemma failed_conversion_no_estimate :
  st_log <$> resize Sample.failing Sample.to_out false Sample.source_only
               [("a.mp4", Sample.resized)] =
    Some [LogConvert "out/a.mp4"; LogFfmpegError "a.mp4"] /\
  estimates [LogConvert "out/a.mp4"; LogFfmpegError "a.mp4"] = 0%nat.
Proof. split; vm_compute; reflexivity. Qed.




(** ** The frame rate string *)

Lemma digit_of_slash : Eval.digit_of "/" = None.
Proof. reflexivity. Qed.

Lemma tokenize_digits rest : forall acc d,
  Spec.all_digits acc rest = Some d ->
  Eval.tokenize acc rest = Some (Eval.flush d []).
Proof.
  induction rest as [|c r IH]; simpl; intros acc d H.
  - injection H as <-. reflexivity.
  - destruct (Eval.digit_of c) as [d0|]; simpl in H; [|discriminate].
    apply IH. exact H.
Qed.

Lemma tokenize_rational s : forall acc n rest d,
  Spec.split_slash acc s = Some (n, rest) ->
  Spec.all_digits [] rest = Some d ->
  Eval.tokenize acc s = Some (Eval.flush n (Eval.TSlash :: Eval.flush d [])).
Proof.
  induction s as [|c r IH]; simpl; intros acc n rest d Hs Hd.
  - discriminate.
  - destruct (Ascii.eqb_spec c "/") as [->|Hc].
    + injection Hs as <- <-. rewrite digit_of_slash. simpl.
      rewrite (tokenize_digits _ _ _ Hd). reflexivity.
    + destruct (Eval.digit_of c) as [d0|]; simpl in Hs; [|discriminate].
      apply IH with rest; assumption.
Qed.

Lemma literal_ok_cons ds :
  Eval.literal_ok ds = true -> exists d ds', ds = d :: ds'.
Proof. destruct ds; [discriminate|eauto]. Qed.

Lemma digit_of_star : Eval.digit_of "*" = None.
Proof. reflexivity. Qed.

Lemma tokenize_product s : forall acc a rest b,
  split_star acc s = Some (a, rest) ->
  Spec.all_digits [] rest = Some b ->
  Eval.tokenize acc s = Some (Eval.flush a (Eval.TStar :: Eval.flush b [])).
Proof.
  induction s as [|c r IH]; simpl; intros acc a rest b Hs Hb.
  - discriminate.
  - destruct (Ascii.eqb_spec c "*") as [->|Hc].
    + injection Hs as <- <-. rewrite digit_of_star. simpl.
      rewrite (tokenize_digits _ _ _ Hb). reflexivity.
    + destruct (Eval.digit_of c) as [d0|]; simpl in Hs; [|discriminate].
      apply IH with rest; assumption.
Qed.

(** A string with a star before any slash is not of the form N/D. *)
Lemma product_not_rational s : forall acc a rest,
  split_star acc s = Some (a, rest) -> Spec.split_slash acc s = None.
Proof.
  induction s as [|c r IH]; simpl; intros acc a rest Hs.
  - reflexivity.
  - destruct (Ascii.eqb_spec c "*") as [->|Hc].
    + reflexivity.
    + destruct (Ascii.eqb_spec c "/") as [->|Hc'].
      * rewrite digit_of_slash in Hs. discriminate.
      * destruct (Eval.digit_of c) as [d0|]; simpl in Hs |- *; [|discriminate].
        apply IH with a rest. exact Hs.
Qed.

(** [eval] on a string N/D of two well-formed literals. *)
Lemma eval_quotient (s rest : string) (n d : list Z) :
  Spec.split_slash [] s = Some (n, rest) ->
  Spec.all_digits [] rest = Some d ->
  Eval.literal_ok n = true ->
  Eval.literal_ok d = true ->
  avg_frame_rate (Some s) =
    Eval.of_option (Py.int_truediv (Eval.literal_value n) (Eval.literal_value d)).
Proof.
  intros Hs Hd Hn Hdok.
  destruct (literal_ok_cons n Hn) as (n0 & n' & En).
  destruct (literal_ok_cons d Hdok) as (d0 & d' & Ed).
  unfold avg_frame_rate, Eval.eval.
  rewrite (tokenize_rational s [] n rest d Hs Hd).
  rewrite En, Ed. simpl Eval.flush. rewrite <- En, <- Ed.
  cbn [Eval.two_ops Eval.is_op andb orb Eval.syntax_ok forallb negb].
  rewrite Hn, Hdok.
  cbn [andb negb Eval.eval_ops]. unfold Eval.literal. rewrite Hn, Hdok.
  unfold Eval.truediv.
  destruct (Py.int_truediv (Eval.literal_value n) (Eval.literal_value d)) as [f|];
    reflexivity.
Qed.

(** [eval] on a string N/D one of whose sides is not a well-formed literal:
    SyntaxError. *)
Lemma eval_quotient_malformed (s rest : string) (n d : list Z) :
  Spec.split_slash [] s = Some (n, rest) ->
  Spec.all_digits [] rest = Some d ->
  Eval.literal_ok n && Eval.literal_ok d = false ->
  avg_frame_rate (Some s) = Raises.
Proof.
  intros Hs Hd Hbad.
  unfold avg_frame_rate, Eval.eval.
  rewrite (tokenize_rational s [] n rest d Hs Hd).
  destruct n as [|n0 n']; destruct d as [|d0 d']; simpl Eval.flush;
    cbn [Eval.two_ops Eval.is_op andb orb Eval.syntax_ok forallb negb].
  - reflexivity.
  - destruct (Eval.literal_ok (d0 :: d')); reflexivity.
  - rewrite andb_true_r.
    destruct (Eval.literal_ok (n0 :: n')) eqn:En; cbn [negb]; [|reflexivity].
    unfold Eval.literal. rewrite En. reflexivity.
  - rewrite andb_true_r, Hbad. reflexivity.
Qed.

(** C1, as the code has it: the string goes through [eval] and the result
    through [float].  On a string N/D of two runs of decimal digits the
    frame rate is the correctly rounded quotient of N by D, the value the
    numerator/denominator split of the specification gives, when both are
    well-formed literals (no leading zero unless all zeros, at most 4300
    digits unless all zeros), and [eval] raises otherwise; a zero D raises.
    On a string A*B of two well-formed literals, which the split rejects,
    the frame rate is the product converted to float. *)
Theorem rational_frame_rate (s rest : string) (n d : list Z)
    (p prest : string) (a b : list Z) :
  Spec.split_slash [] s = Some (n, rest) ->
  Spec.all_digits [] rest = Some d ->
  split_star [] p = Some (a, prest) ->
  Spec.all_digits [] prest = Some b ->
  Eval.literal_ok a = true ->
  Eval.literal_ok b = true ->
  avg_frame_rate (Some s) =
    (if Eval.literal_ok n && Eval.literal_ok d
     then Eval.of_option
            (Py.int_truediv (Eval.literal_value n) (Eval.literal_value d))
     else Raises) /\
  (Eval.literal_ok n && Eval.literal_ok d = true ->
   Spec.parse_rational s =
     Py.int_truediv (Eval.literal_value n) (Eval.literal_value d)) /\
  (Eval.literal_value d = 0 -> avg_frame_rate (Some s) = Raises) /\
  avg_frame_rate (Some p) =
    Eval.of_option (Py.int2float (Eval.literal_value a * Eval.literal_value b)) /\
  Spec.parse_rational p = None.
Proof.
  intros Hs Hd Hp Hb Ha Hbok.
  assert (E1 : avg_frame_rate (Some s) =
               (if Eval.literal_ok n && Eval.literal_ok d
                then Eval.of_option
                       (Py.int_truediv (Eval.literal_value n) (Eval.literal_value d))
                else Raises)).
  { destruct (Eval.literal_ok n && Eval.literal_ok d) eqn:Eok.
    - apply andb_true_iff in Eok as [Hn Hdok]. apply eval_quotient with rest; assumption.
    - apply eval_quotient_malformed with rest n d; assumption. }
  split; [exact E1|]. split; [|split; [|split]].
  - intros Hok. apply andb_true_iff in Hok as [Hn Hdok].
    destruct (literal_ok_cons n Hn) as (n0 & n' & En).
    destruct (literal_ok_cons d Hdok) as (d0 & d' & Ed).
    unfold Spec.parse_rational. rewrite Hs. simpl. rewrite Hd. simpl.
    rewrite En, Ed. reflexivity.
  - intros Hz. rewrite E1.
    destruct (Eval.literal_ok n && Eval.literal_ok d); [|reflexivity].
    rewrite Hz. unfold Py.int_truediv. destruct (Eval.literal_value n); reflexivity.
  - destruct (literal_ok_cons a Ha) as (a0 & a' & Ea).
    destruct (literal_ok_cons b Hbok) as (b0 & b' & Eb).
    unfold avg_frame_rate, Eval.eval.
    rewrite (tokenize_product p [] a prest b Hp Hb).
    rewrite Ea, Eb. simpl Eval.flush. rewrite <- Ea, <- Eb.
    cbn [Eval.two_ops Eval.is_op andb orb Eval.syntax_ok forallb negb].
    rewrite Ha, Hbok.
    cbn [andb negb Eval.eval_ops]. unfold Eval.literal. rewrite Ha, Hbok.
    cbn [Py.mul Eval.eval_ops Py.to_float]. reflexivity.
  - unfold Spec.parse_rational.
    rewrite (product_not_rational p [] a prest Hp). reflexivity.
Qed.

Lemma rational_frame_rate_witness :
  avg_frame_rate (Some "30000/1001") =
    (if Eval.literal_ok [3; 0; 0; 0; 0] && Eval.literal_ok [1; 0; 0; 1]
     then Eval.of_option
            (Py.int_truediv (Eval.literal_value [3; 0; 0; 0; 0])
                            (Eval.literal_value [1; 0; 0; 1]))
     else Raises) /\
  (Eval.literal_ok [3; 0; 0; 0; 0] && Eval.literal_ok [1; 0; 0; 1] = true ->
   Spec.parse_rational "30000/1001" =
     Py.int_truediv (Eval.literal_value [3; 0; 0; 0; 0])
                    (Eval.literal_value [1; 0; 0; 1])) /\
  (Eval.literal_value [1; 0; 0; 1] = 0 -> avg_frame_rate (Some "30000/1001") = Raises) /\
  avg_frame_rate (Some "2*15") =
    Eval.of_option (Py.int2float (Eval.literal_value [2] * Eval.literal_value [1; 5])) /\
  Spec.parse_rational "2*15" = None.
Proof.
  apply (rational_frame_rate "30000/1001" "1001" [3; 0; 0; 0; 0] [1; 0; 0; 1]
           "2*15" "15" [2] [1; 5]); reflexivity.
Defined.

(** C1 as the specification words it fails: [eval] computes the product
    "2*15", a string the numerator/denominator split rejects; and on "05/1",
    which the split reads as 5.0, [eval] raises (a literal with a leading
    zero). *)
Lemma product_is_evaluated :
  avg_frame_rate (Some "2*15") = Value Sample.f30 /\
  Spec.parse_rational "2*15" = None /\
  avg_frame_rate (Some "05/1") = Raises /\
  Spec.parse_rational "05/1" = Py.int_truediv 5 1.
Proof. repeat split; vm_compute; reflexivity. Qed.

(** ** The bit rate *)

Lemma SFcompare_refl f : SFcompare f f = Some Eq \/ SFcompare f f = None.
Proof.
  destruct f as [s|s| |s m e]; simpl.
  - left. reflexivity.
  - left. destruct s; reflexivity.
  - right. reflexivity.
  - left. rewrite Z.compare_refl, Pos.compare_cont_refl. destruct s; reflexivity.
Qed.

Lemma gt_irrefl c : Py.gt c c = false.
Proof.
  unfold Py.gt. destruct c as [z|f]; simpl.
  - rewrite Z.compare_refl. reflexivity.
  - destruct (SFcompare_refl f) as [-> | ->]; reflexivity.
Qed.

Lemma gt_Int_asym a c : Py.gt (Py.Int a) c = true -> Py.gt c (Py.Int a) = false.
Proof.
  unfold Py.gt. destruct c as [z|f]; simpl.
  - rewrite (Z.compare_antisym a z). destruct (a ?= z); simpl; congruence.
  - destruct (Py.int_float_compare a f) as [[]|]; simpl; congruence.
Qed.

(** C7, as the code has it: the bit rate of videoresize_4_1.py is the float
    product [bpp * width * height * fps] when the native bit rate is
    greater than it, and the native bit rate otherwise; it is never greater
    than either of the two. *)
Theorem set_bit_rate_is_min (origin : Z) (bpp : spec_float) (w h : Z)
    (fps r : Py.num) :
  V41.set_bit_rate origin bpp w h fps = Some r ->
  exists ceiling,
    V41.bitrateFromBPP bpp w h fps = Some ceiling /\
    r = (if Py.gt (Py.Int origin) ceiling then ceiling else Py.Int origin) /\
    Py.gt r (Py.Int origin) = false /\
    Py.gt r ceiling = false.
Proof.
  unfold V41.set_bit_rate. intros H.
  destruct (V41.bitrateFromBPP bpp w h fps) as [c|]; simpl in H; [|discriminate].
  injection H as <-. exists c. split; [reflexivity|]. split; [reflexivity|].
  destruct (Py.gt (Py.Int origin) c) eqn:E.
  - split; [apply gt_Int_asym; exact E | apply gt_irrefl].
  - split; [apply gt_irrefl | exact E].
Qed.

Lemma set_bit_rate_is_min_witness :
  exists ceiling,
    V41.bitrateFromBPP Sample.bpp036 1920 1080 (Py.Int 30) = Some ceiling /\
    Py.Int 1000000 =
      (if Py.gt (Py.Int 1000000) ceiling then ceiling else Py.Int 1000000) /\
    Py.gt (Py.Int 1000000) (Py.Int 1000000) = false /\
    Py.gt (Py.Int 1000000) ceiling = false.
Proof.
  apply (set_bit_rate_is_min 1000000 Sample.bpp036 1920 1080 (Py.Int 30)
           (Py.Int 1000000)).
  vm_compute. reflexivity.
Defined.

(** C7 as the specification words it fails: 0.036 is the float nearest to
    36/1000, and the float product 0.036 * 1920 * 1080 * 30 is
    2239487.9999999995, below 2239488; that is the bit rate of a video
    whose native bit rate is 5000000. *)
Lemma bpp_example_below_2239488 :
  Py.int_truediv 36 1000 = Some Sample.bpp036 /\
  V41.set_bit_rate 5000000 Sample.bpp036 1920 1080 (Py.Int 30) =
    Some (Py.Float (S754_finite false 4809263859892223 (-31))) /\
  V41.set_bit_rate 5000000 Sample.bpp036 1920 1080 (Py.Float Sample.f30) =
    Some (Py.Float (S754_finite false 4809263859892223 (-31))) /\
  Py.lt (Py.Float (S754_finite false 4809263859892223 (-31))) (Py.Int 2239488) = true /\
  Py.eq (Py.Float (S754_finite false 4809263859892223 (-31))) (Py.Int 2239488) = false.
Proof. repeat split; vm_compute; reflexivity. Qed.

(** ** The size: where the specification goes too far *)

(** C2 as the specification words it fails: a minimum size above the
    native size enlarges the video; the even rounding takes an odd native
    size one above itself, and an odd target one above itself; and with
    limit direction "xy" the minimum-size adjustment takes the height of a
    49x54000 video to 1102, above the target 1080. *)
Lemma set_size_can_exceed :
  set_size (100, 100) Fullhd CPNone (200, 200) LXY = Some (200, 200) /\
  set_size (1919, 1079) Fullhd CPNone (1, 1) LXY = Some (1920, 1080) /\
  set_size (200, 200) Custom (CPSize 101 101) (1, 1) LXY = Some (102, 102) /\
  set_size (49, 54000) Fullhd CPNone (1, 1) LXY = Some (0, 1102).
Proof. repeat split; vm_compute; reflexivity. Qed.

(** C3 as the specification words it fails: with limit direction "x" the
    height stays below its minimum; and with "xy" the float product
    49 * (1 / 49) is below 1, so the width ends at 0 under a minimum of 1,
    in mode "fullhd" as in mode "divide". *)
Lemma set_size_can_stay_below_minimum :
  first_size (1000, 100) Custom (CPSize 500 500) LX = Some (500, 50) /\
  set_size (1000, 100) Custom (CPSize 500 500) (1, 80) LX = Some (500, 50) /\
  first_size (49, 54000) Fullhd CPNone LXY = Some (0, 1080) /\
  set_size (49, 54000) Fullhd CPNone (1, 1) LXY = Some (0, 1102) /\
  Py.int_truediv 1 100 = Some (S754_finite false 5764607523034235 (-59)) /\
  first_size (49, 100) Divide (CPRatio (S754_finite false 5764607523034235 (-59))) LXY =
    Some (0, 1) /\
  set_size (49, 100) Divide (CPRatio (S754_finite false 5764607523034235 (-59)))
           (1, 1) LXY = Some (0, 2).
Proof. repeat split; vm_compute; reflexivity. Qed.

(** ** The claims on the size *)

(** C2, as the code has it: in a mode with a target size (not "divide"),
    with a target width and height from 1 to 2^51, a native width and
    height that are positive and below 2^53 and a minimum width and height
    from 0 to the native ones, [set_size] returns a size; the ratio it ends
    with is an int or a non-negative float, at most 1, and each dimension is
    at most the native one rounded up to even; when the minimum-size
    adjustment does not fire, the dimensions the limit direction constrains
    are at most the target rounded up to even. *)
Theorem set_size_no_upscale (ow oh : Z) (m : mode) (cp : custom_param)
    (mw mh : Z) (ld : limit_direction) (tw th : Z) :
  preset_sizes m cp = Some (tw, th) -> m <> Divide ->
  0 < tw <= 2 ^ 51 -> 0 < th <= 2 ^ 51 ->
  0 < ow < 2 ^ 53 -> 0 < oh < 2 ^ 53 ->
  0 <= mw <= ow -> 0 <= mh <= oh ->
  exists w h ratio,
    set_size (ow, oh) m cp (mw, mh) ld = Some (w, h) /\
    final_ratio (ow, oh) m cp (mw, mh) ld = Some ratio /\
    F64.ok ratio /\ Py.gt ratio (Py.Int 1) = false /\
    w <= make_even ow /\ h <= make_even oh /\
    (forall w1 h1,
       first_size (ow, oh) m cp ld = Some (w1, h1) -> mw <= w1 -> mh <= h1 ->
       (ld <> LY -> w <= make_even tw) /\ (ld <> LX -> h <= make_even th)).
Proof.
  intros Hp Hm Htw Hth How Hoh Hmw Hmh.
  destruct (SizeDefined.target_ratio_defined ow oh m cp ld tw th Hp Hm
              ltac:(lia) ltac:(lia) How Hoh) as (ratio & Er & Ok & V1).
  destruct (SizeDefined.set_size_defined_from ow oh mw mh m cp ld ratio How Hoh
              ltac:(lia) ltac:(lia) Er Ok V1) as [[w h] H].
  destruct (SizeFacts.set_size_parts _ _ _ _ _ _ _ _ _ H)
    as (ratio0 & w1 & h1 & r' & cw & ch & Er0 & Ef & Ew & Eh & Efr & Ec & Ecw & Ech & -> & ->).
  rewrite Er in Er0. injection Er0 as <-.
  destruct (SizeFacts.mode_ratio_spec ow oh m cp ld tw th ratio Hp
              ltac:(lia) ltac:(lia) How Hoh Er) as (_ & _ & Bw & Bh).
  assert (Hr' : F64.ok r' /\ (F64.val r' <= 1)%R).
  { destruct ((w1 <? mw) || (h1 <? mh)).
    - destruct (SizeFacts.min_ratio_spec ow oh mw mh ld ratio r'
                  ltac:(lia) ltac:(lia) ltac:(lia) ltac:(lia) Ok Ec)
        as (qw & qh & _ & _ & Rw & Rh & O' & _ & _ & _ & D).
      split; [exact O'|].
      destruct D as [->|[[_ ->]|[_ ->]]]; [exact V1| |].
      + apply (SizeFacts.quotient_le_1 mw ow qw); [lia|lia|exact Rw].
      + apply (SizeFacts.quotient_le_1 mh oh qh); [lia|lia|exact Rh].
    - subst r'. split; assumption. }
  destruct Hr' as [Ok' V'].
  exists (make_even cw), (make_even ch), r'.
  split; [exact H|]. split; [exact Efr|]. split; [exact Ok'|].
  split; [|split; [|split]].
  - destruct (Py.gt r' (Py.Int 1)) eqn:Eg; [|reflexivity].
    apply (F64Facts.gt_sound r' (Py.Int 1) Ok' I) in Eg. simpl in Eg. lra.
  - apply make_even_mono.
    apply (SizeFacts.scaled_le_origin ow r' cw); [lia|exact Ok'|exact V'|exact Ecw].
  - apply make_even_mono.
    apply (SizeFacts.scaled_le_origin oh r' ch); [lia|exact Ok'|exact V'|exact Ech].
  - intros w1' h1' Ef' Hw1 Hh1. rewrite Ef in Ef'. injection Ef' as <- <-.
    assert (Hc : (w1 <? mw) || (h1 <? mh) = false).
    { apply orb_false_iff. split; apply Z.ltb_ge; assumption. }
    rewrite Hc in Ec. subst r'.
    split; intros N; apply make_even_mono.
    + apply (SizeFacts.scaled_le_bound ow ratio cw tw); try assumption; try lia.
      apply Bw. exact N.
    + apply (SizeFacts.scaled_le_bound oh ratio ch th); try assumption; try lia.
      apply Bh. exact N.
Qed.

Lemma set_size_no_upscale_witness :
  exists w h ratio,
    set_size (3840, 2160) Box1920 CPNone (1, 1) LXY = Some (w, h) /\
    final_ratio (3840, 2160) Box1920 CPNone (1, 1) LXY = Some ratio /\
    F64.ok ratio /\ Py.gt ratio (Py.Int 1) = false /\
    w <= make_even 3840 /\ h <= make_even 2160 /\
    (forall w1 h1,
       first_size (3840, 2160) Box1920 CPNone LXY = Some (w1, h1) -> 1 <= w1 -> 1 <= h1 ->
       (LXY <> LY -> w <= make_even 1920) /\ (LXY <> LX -> h <= make_even 1920)).
Proof.
  apply (set_size_no_upscale 3840 2160 Box1920 CPNone 1 1 LXY 1920 1920).
  - reflexivity.
  - discriminate.
  - lia.
  - lia.
  - lia.
  - lia.
  - lia.
  - lia.
Defined.

(** C3, as the code has it, for a mode and custom_param the argument
    parser accepts, a native width and height that are positive and below
    2^53, and a minimum width and height from 0 to 2^51: when the first
    scaling leaves a dimension below the minimum, the ratio becomes the
    largest of the mode ratio and the minimum ratios of the limit direction
    ("x": [min_w / origin_w], "y": [min_h / origin_h], "xy": both); it is
    one of them and less than none of them.  Each dimension of the limit
    direction then ends at its minimum or above, or one below it: the float
    product [origin * ratio] is truncated, and nothing is said of a
    dimension outside the limit direction. *)
Theorem minimum_size_adjustment (ow oh : Z) (m : mode) (cp : custom_param)
    (mw mh : Z) (ld : limit_direction) (w1 h1 w h : Z) :
  mode_accepted m cp = true -> canonical cp = true ->
  0 < ow < 2 ^ 53 -> 0 < oh < 2 ^ 53 ->
  0 <= mw <= 2 ^ 51 -> 0 <= mh <= 2 ^ 51 ->
  first_size (ow, oh) m cp ld = Some (w1, h1) ->
  w1 < mw \/ h1 < mh ->
  set_size (ow, oh) m cp (mw, mh) ld = Some (w, h) ->
  exists ratio r' qw qh,
    mode_ratio (ow, oh) m cp ld = Some ratio /\
    final_ratio (ow, oh) m cp (mw, mh) ld = Some r' /\
    Py.int_truediv mw ow = Some qw /\ Py.int_truediv mh oh = Some qh /\
    r' = match ld with
         | LX => Py.max2 ratio (Py.Float qw)
         | LY => Py.max2 ratio (Py.Float qh)
         | LXY => Py.max3 ratio (Py.Float qw) (Py.Float qh)
         end /\
    (r' = ratio \/ (ld <> LY /\ r' = Py.Float qw) \/ (ld <> LX /\ r' = Py.Float qh)) /\
    Py.lt r' ratio = false /\
    (ld <> LY -> Py.lt r' (Py.Float qw) = false) /\
    (ld <> LX -> Py.lt r' (Py.Float qh) = false) /\
    (ld <> LY -> mw - 1 <= w) /\
    (ld <> LX -> mh - 1 <= h).
Proof.
  intros Ha Hcan How Hoh Hmw Hmh Ef Hlow H.
  destruct (SizeFacts.set_size_parts _ _ _ _ _ _ _ _ _ H)
    as (ratio & w1' & h1' & r' & cw & ch & Er & Ef' & _ & _ & Efr & Ec & Ecw & Ech & -> & ->).
  rewrite Ef in Ef'. injection Ef' as <- <-.
  destruct (SizeDefined.mode_ratio_defined ow oh m cp ld Ha Hcan How Hoh)
    as (ratio0 & Er0 & Ok & _).
  rewrite Er in Er0. injection Er0 as <-.
  assert (Hc : (w1 <? mw) || (h1 <? mh) = true).
  { apply orb_true_iff. destruct Hlow; [left|right]; apply Z.ltb_lt; assumption. }
  rewrite Hc in Ec.
  destruct (SizeFacts.min_ratio_spec ow oh mw mh ld ratio r'
              ltac:(lia) ltac:(lia) ltac:(lia) ltac:(lia) Ok Ec)
    as (qw & qh & Eqw & Eqh & Rw & Rh & O' & A & Bw & Bh & D).
  assert (Gw : F64.ok (Py.Float qw)) by (destruct Rw as [G _]; exact G).
  assert (Gh : F64.ok (Py.Float qh)) by (destruct Rh as [G _]; exact G).
  assert (Hnlt : forall x, F64.ok x -> (F64.val x <= F64.val r')%R -> Py.lt r' x = false).
  { intros x Ox Hx. destruct (Py.lt r' x) eqn:El; [|reflexivity].
    apply (F64Facts.lt_sound r' x O' Ox) in El. lra. }
  exists ratio, r', qw, qh.
  split; [exact Er|]. split; [exact Efr|]. split; [exact Eqw|]. split; [exact Eqh|].
  split.
  { unfold min_ratio in Ec. rewrite Eqw, Eqh in Ec. simpl in Ec.
    injection Ec as <-. reflexivity. }
  split; [exact D|].
  split; [apply Hnlt; assumption|].
  split; [intros N; apply Hnlt; [exact Gw | exact (Bw N)]|].
  split; [intros N; apply Hnlt; [exact Gh | exact (Bh N)]|].
  split.
  - intros N. pose proof (make_even_bounds cw).
    pose proof (SizeFacts.scaled_ge_bound ow r' cw mw qw How Hmw O' Rw (Bw N) Ecw). lia.
  - intros N. pose proof (make_even_bounds ch).
    pose proof (SizeFacts.scaled_ge_bound oh r' ch mh qh Hoh Hmh O' Rh (Bh N) Ech). lia.
Qed.

Lemma minimum_size_adjustment_witness :
  exists ratio r' qw qh,
    mode_ratio (100, 100) Fullhd CPNone LXY = Some ratio /\
    final_ratio (100, 100) Fullhd CPNone (200, 200) LXY = Some r' /\
    Py.int_truediv 200 100 = Some qw /\ Py.int_truediv 200 100 = Some qh /\
    r' = match LXY with
         | LX => Py.max2 ratio (Py.Float qw)
         | LY => Py.max2 ratio (Py.Float qh)
         | LXY => Py.max3 ratio (Py.Float qw) (Py.Float qh)
         end /\
    (r' = ratio \/ (LXY <> LY /\ r' = Py.Float qw) \/ (LXY <> LX /\ r' = Py.Float qh)) /\
    Py.lt r' ratio = false /\
    (LXY <> LY -> Py.lt r' (Py.Float qw) = false) /\
    (LXY <> LX -> Py.lt r' (Py.Float qh) = false) /\
    (LXY <> LY -> 200 - 1 <= 200) /\
    (LXY <> LX -> 200 - 1 <= 200).
Proof.
  apply (minimum_size_adjustment 100 100 Fullhd CPNone 200 200 LXY 100 100 200 200).
  - reflexivity.
  - reflexivity.
  - lia.
  - lia.
  - lia.
  - lia.
  - reflexivity.
  - left. lia.
  - vm_compute. reflexivity.
Defined.

(** * Further properties of the conversion loop *)

Lemma failures_app a b : failures (a ++ b) = (failures a + failures b)%nat.
Proof. unfold failures. rewrite filter_app, length_app. reflexivity. Qed.

Lemma skips_app a b : skips (a ++ b) = (skips a + skips b)%nat.
Proof. unfold skips. rewrite filter_app, length_app. reflexivity. Qed.

Lemma found_app a b : found (a ++ b) = (found a + found b)%nat.
Proof. unfold found. rewrite filter_app, length_app. reflexivity. Qed.

Section LoopFacts.

Variable ffmpeg : gmap string file → string → string → resize_param → run_result.
Variable output_of : string → string.
Variable nochange_copy : bool.

(** What one pass adds to the counts, by the way it ended. *)
Lemma execute_counts fs path params :
  let r := execute ffmpeg output_of nochange_copy fs path params in
  conversions r.1.2 = match r.2 with Failed | Converted => 1 | _ => 0 end%nat /\
  failures r.1.2 = match r.2 with Failed => 1 | _ => 0 end%nat /\
  skips r.1.2 = match r.2 with AlreadyExists | NoChange => 1 | _ => 0 end%nat /\
  found r.1.2 = match r.2 with AlreadyExists => 1 | _ => 0 end%nat /\
  (change_required params = false -> r.2 = AlreadyExists \/ r.2 = NoChange).
Proof.
  unfold execute.
  destruct (fs !! output_of path); [simpl; repeat split; auto|].
  destruct (change_required params); simpl.
  - destruct (ffmpeg fs path (output_of path) params) as [|rc written];
      [simpl; repeat split; try reflexivity; discriminate|].
    set (fs1 := match written with
                | Some f => <[output_of path := f]> fs
                | None => fs
                end).
    destruct (negb (rc =? 0)); [simpl; repeat split; try reflexivity; discriminate|].
    destruct (getsize fs1 path) as [a|], (getsize fs1 (output_of path)) as [b|];
      try (simpl; repeat split; try reflexivity; discriminate).
    destruct (b >? a).
    + destruct (copy2 fs1 path (output_of path));
        simpl; repeat split; try reflexivity; discriminate.
    + destruct (copy_file_times fs1 path (output_of path));
        simpl; repeat split; try reflexivity; discriminate.
  - destruct nochange_copy; [destruct (copy2 fs path (output_of path))|];
      simpl; repeat split; auto.
Qed.

Lemma getsize_keeps (fs fs' : gmap string file) path sz :
  (forall q f, fs !! q = Some f -> fs' !! q = Some f) ->
  getsize fs path = Some sz -> getsize fs' path = Some sz.
Proof.
  unfold getsize. intros Hk H.
  destruct (fs !! path) as [f|] eqn:E; [|discriminate].
  rewrite (Hk _ _ E). exact H.
Qed.

Lemma getsize_nonneg (fs : gmap string file) path sz :
  getsize fs path = Some sz -> 0 <= sz.
Proof.
  unfold getsize. destruct (fs !! path); simpl; [|discriminate].
  intros [= <-]. lia.
Qed.

Lemma sum_sizes_keeps (fs fs' : gmap string file) items s :
  (forall q f, fs !! q = Some f -> fs' !! q = Some f) ->
  sum_sizes fs items = Some s -> sum_sizes fs' items = Some s.
Proof.
  intros Hk. revert s. induction items as [|[path params] rest IH]; simpl; intros s H.
  - exact H.
  - destruct (getsize fs path) as [sz|] eqn:E; simpl in H; [|discriminate].
    destruct (sum_sizes fs rest) as [s'|]; simpl in H; [|discriminate].
    rewrite (getsize_keeps fs fs' path sz Hk E). simpl.
    rewrite (IH s' eq_refl). exact H.
Qed.

Lemma sum_sizes_nonneg (fs : gmap string file) items s :
  sum_sizes fs items = Some s -> 0 <= s.
Proof.
  revert s. induction items as [|[path params] rest IH]; simpl; intros s H.
  - injection H as <-. lia.
  - destruct (getsize fs path) as [sz|] eqn:E; simpl in H; [|discriminate].
    destruct (sum_sizes fs rest) as [s'|]; simpl in H; [|discriminate].
    injection H as <-. pose proof (getsize_nonneg _ _ _ E). pose proof (IH s' eq_refl). lia.
Qed.

(** *** videoresize_4_1.py: what one pass adds *)

Lemma iteration_books st idx path params st' sz :
  iteration ffmpeg output_of nochange_copy st idx path params = Some st' ->
  getsize (st_fs st) path = Some sz ->
  failures (st_log st') =
    (failures (st_log st) +
     failures (execute ffmpeg output_of nochange_copy (st_fs st) path params).1.2)%nat /\
  skips (st_log st') =
    (skips (st_log st) +
     skips (execute ffmpeg output_of nochange_copy (st_fs st) path params).1.2)%nat /\
  match (execute ffmpeg output_of nochange_copy (st_fs st) path params).2 with
  | AlreadyExists | NoChange =>
      num_deletedVideos st' = num_deletedVideos st + 1 /\
      total_bytes st' = total_bytes st - sz /\
      processed_bytes st' = processed_bytes st
  | Failed =>
      num_deletedVideos st' = num_deletedVideos st /\
      total_bytes st' = total_bytes st /\
      processed_bytes st' = processed_bytes st
  | Converted =>
      num_deletedVideos st' = num_deletedVideos st /\
      total_bytes st' = total_bytes st /\
      processed_bytes st' = processed_bytes st + sz
  end.
Proof.
  unfold iteration. intros H Hsz.
  pose proof (getsize_keeps (st_fs st)
                (execute ffmpeg output_of nochange_copy (st_fs st) path params).1.1
                path sz (fun q f => execute_keeps ffmpeg output_of nochange_copy
                                      (st_fs st) path params q f) Hsz) as Hsz'.
  destruct (execute ffmpeg output_of nochange_copy (st_fs st) path params)
    as [[fs' evs] res]. simpl in *.
  assert (Heta : forall i a b, failures [LogEta i a b] = 0%nat /\ skips [LogEta i a b] = 0%nat)
    by (intros; split; reflexivity).
  destruct res.
  - rewrite Hsz in H. simpl in H. injection H as <-. simpl.
    rewrite !failures_app, !skips_app.
    destruct (Heta idx (processed_bytes st) (total_bytes st - sz)) as [-> ->].
    repeat split; lia.
  - rewrite Hsz in H. simpl in H. injection H as <-. simpl.
    rewrite !failures_app, !skips_app.
    destruct (Heta idx (processed_bytes st) (total_bytes st - sz)) as [-> ->].
    repeat split; lia.
  - injection H as <-. simpl. rewrite !failures_app, !skips_app. repeat split; lia.
  - rewrite Hsz' in H. simpl in H. injection H as <-. simpl.
    rewrite !failures_app, !skips_app.
    destruct (Heta idx (processed_bytes st + sz) (total_bytes st)) as [-> ->].
    repeat split; lia.
Qed.

Lemma loop_books items : forall st idx st' s,
  loop ffmpeg output_of nochange_copy st idx items = Some st' ->
  sum_sizes (st_fs st) items = Some s ->
  (estimates (st_log st') + failures (st_log st') =
     estimates (st_log st) + failures (st_log st) + length items)%nat /\
  (skips (st_log st') + conversions (st_log st') =
     skips (st_log st) + conversions (st_log st) + length items)%nat /\
  (failures (st_log st) <= failures (st_log st'))%nat /\
  num_deletedVideos st' - Z.of_nat (skips (st_log st')) =
    num_deletedVideos st - Z.of_nat (skips (st_log st)) /\
  processed_bytes st <= processed_bytes st' /\
  total_bytes st - processed_bytes st - s <= total_bytes st' - processed_bytes st' /\
  (failures (st_log st') = failures (st_log st) ->
   total_bytes st' - processed_bytes st' = total_bytes st - processed_bytes st - s).
Proof.
  induction items as [|[path params] rest IH]; simpl; intros st idx st' s H Hs.
  - injection H as <-. injection Hs as <-. repeat split; lia.
  - destruct (iteration ffmpeg output_of nochange_copy st idx path params) as [st1|] eqn:E;
      simpl in H; [|discriminate].
    destruct (getsize (st_fs st) path) as [sz|] eqn:Esz; simpl in Hs; [|discriminate].
    destruct (sum_sizes (st_fs st) rest) as [s'|] eqn:Es'; simpl in Hs; [|discriminate].
    injection Hs as <-.
    pose proof (getsize_nonneg _ _ _ Esz) as Hsz0.
    destruct (iteration_spec _ _ _ _ _ _ _ _ E) as (Hfs & Hconv & Hest).
    destruct (iteration_books _ _ _ _ _ _ E Esz) as (Hfail & Hskip & Hbook).
    destruct (execute_counts (st_fs st) path params) as (C1 & C2 & C3 & _ & _).
    assert (Hs1 : sum_sizes (st_fs st1) rest = Some s').
    { apply sum_sizes_keeps with (st_fs st); [|exact Es'].
      intros q f Hq. rewrite Hfs. apply execute_keeps. exact Hq. }
    destruct (IH st1 (S idx) st' s' H Hs1) as (I1 & I2 & I3 & I4 & I5 & I6 & I7).
    rewrite Hconv, Hest, Hfail, Hskip, C1, C2, C3 in *.
    destruct (execute ffmpeg output_of nochange_copy (st_fs st) path params).2;
      simpl in *; destruct Hbook as (B1 & B2 & B3); repeat split; try lia.
Qed.

(** *** video_resize.py: what one pass adds *)

Lemma iteration37_books total st idx path params st' :
  iteration37 ffmpeg output_of nochange_copy total st idx path params = Some st' ->
  estimates (log37 st') =
    (estimates (log37 st) +
     match (execute ffmpeg output_of nochange_copy (fs37 st) path params).2 with
     | NoChange | Converted => 1
     | _ => 0
     end)%nat /\
  failures (log37 st') =
    (failures (log37 st) +
     failures (execute ffmpeg output_of nochange_copy (fs37 st) path params).1.2)%nat /\
  skips (log37 st') =
    (skips (log37 st) +
     skips (execute ffmpeg output_of nochange_copy (fs37 st) path params).1.2)%nat /\
  found (log37 st') =
    (found (log37 st) +
     found (execute ffmpeg output_of nochange_copy (fs37 st) path params).1.2)%nat /\
  deleted37 st' =
    deleted37 st +
    match (execute ffmpeg output_of nochange_copy (fs37 st) path params).2 with
    | AlreadyExists | NoChange => 1
    | _ => 0
    end.
Proof.
  unfold iteration37.
  pose proof (execute_no_estimate ffmpeg output_of nochange_copy (fs37 st) path params) as He.
  destruct (execute ffmpeg output_of nochange_copy (fs37 st) path params)
    as [[fs' evs] res]. simpl in *.
  assert (E1 : forall a b, estimates [LogEta idx a b] = 1%nat) by reflexivity.
  assert (E2 : forall a b, failures [LogEta idx a b] = 0%nat) by reflexivity.
  assert (E3 : forall a b, skips [LogEta idx a b] = 0%nat) by reflexivity.
  assert (E4 : forall a b, found [LogEta idx a b] = 0%nat) by reflexivity.
  destruct res; intros H; repeat case_match; simplify_eq; simpl;
    rewrite ?estimates_app, ?failures_app, ?skips_app, ?found_app, ?He, ?E1, ?E2, ?E3, ?E4;
    repeat split; lia.
Qed.

Lemma loop37_books items : forall total st idx st',
  loop37 ffmpeg output_of nochange_copy total st idx items = Some st' ->
  (skips (log37 st') + conversions (log37 st') =
     skips (log37 st) + conversions (log37 st) + length items)%nat /\
  (estimates (log37 st') + failures (log37 st') + found (log37 st') =
     estimates (log37 st) + failures (log37 st) + found (log37 st) + length items)%nat /\
  deleted37 st' - Z.of_nat (skips (log37 st')) =
    deleted37 st - Z.of_nat (skips (log37 st)).
Proof.
  induction items as [|[path params] rest IH]; simpl; intros total st idx st' H.
  - injection H as <-. repeat split; lia.
  - destruct (iteration37 ffmpeg output_of nochange_copy total st idx path params)
      as [st1|] eqn:E; simpl in H; [|discriminate].
    destruct (IH total st1 (S idx) st' H) as (I1 & I2 & I3).
    destruct (iteration37_spec _ _ _ _ _ _ _ _ _ E) as [_ Hc].
    destruct (iteration37_books _ _ _ _ _ _ E) as (He & Hf & Hs & Hfo & Hd).
    destruct (execute_counts (fs37 st) path params) as (C1 & C2 & C3 & C4 & _).
    rewrite Hc, He, Hf, Hs, Hfo, Hd, C1, C2, C3, C4 in *.
    destruct (execute ffmpeg output_of nochange_copy (fs37 st) path params).2; simpl in *;
      repeat split; lia.
Qed.

(** In video_resize.py the count the estimate divides by is 0 for a video
    that needs no change when every video before it was passed over. *)
Lemma iteration37_raises total st idx path params :
  deleted37 st = Z.of_nat idx ->
  fs37 st !! output_of path = None ->
  change_required params = false ->
  iteration37 ffmpeg output_of nochange_copy total st idx path params = None.
Proof.
  intros Hd Ho Hc. unfold iteration37, execute. rewrite Ho, Hc. simpl.
  destruct nochange_copy; [destruct (copy2 (fs37 st) path (output_of path))|];
    simpl; rewrite Hd; replace (Z.of_nat idx + 1 - (Z.of_nat idx + 1)) with 0 by lia;
    reflexivity.
Qed.

End LoopFacts.

Section RunFacts.

Variable ffmpeg : gmap string file → string → string → resize_param → run_result.
Variable output_of : string → string.
Variable nochange_copy : bool.

Lemma conversions_of_app q a b :
  conversions_of q (a ++ b) = (conversions_of q a + conversions_of q b)%nat.
Proof.
  induction a as [|ev a IH]; simpl; [reflexivity|].
  destruct ev; rewrite ?IH; lia.
Qed.

(** One pass runs the encoder at most once, on the output path of its
    video, and only when the plan asks for a change. *)
Lemma execute_conversions_at fs path params q :
  (conversions_of q (execute ffmpeg output_of nochange_copy fs path params).1.2 <=
   if change_required params && String.eqb (output_of path) q then 1 else 0)%nat.
Proof.
  unfold execute.
  destruct (fs !! output_of path); [simpl; lia|].
  destruct (change_required params); simpl.
  - destruct (ffmpeg fs path (output_of path) params) as [|rc written]; simpl.
    + destruct (String.eqb (output_of path) q); lia.
    + destruct (negb (rc =? 0)); simpl.
      * destruct (String.eqb (output_of path) q); lia.
      * repeat case_match; simpl; destruct (String.eqb (output_of path) q); lia.
  - destruct nochange_copy; [|simpl; lia].
    destruct (copy2 fs path (output_of path)); simpl; lia.
Qed.

Lemma iteration_log st idx path params st' :
  iteration ffmpeg output_of nochange_copy st idx path params = Some st' ->
  exists tail,
    st_log st' =
      st_log st ++ (execute ffmpeg output_of nochange_copy (st_fs st) path params).1.2
             ++ tail /\
    forall q, conversions_of q tail = 0%nat.
Proof.
  unfold iteration. intros H.
  destruct (execute ffmpeg output_of nochange_copy (st_fs st) path params)
    as [[fs' evs] res]. simpl in *.
  destruct res; simplify_option_eq; simpl.
  - eexists. split; [reflexivity|]. reflexivity.
  - eexists. split; [reflexivity|]. reflexivity.
  - exists []. rewrite app_nil_r. split; reflexivity.
  - eexists. split; [reflexivity|]. reflexivity.
Qed.

Lemma iteration37_log total st idx path params st' :
  iteration37 ffmpeg output_of nochange_copy total st idx path params = Some st' ->
  exists tail,
    log37 st' =
      log37 st ++ (execute ffmpeg output_of nochange_copy (fs37 st) path params).1.2
            ++ tail /\
    forall q, conversions_of q tail = 0%nat.
Proof.
  unfold iteration37. intros H.
  destruct (execute ffmpeg output_of nochange_copy (fs37 st) path params)
    as [[fs' evs] res]. simpl in *.
  destruct res; repeat case_match; simplify_eq/=.
  - exists []. rewrite app_nil_r. split; reflexivity.
  - eexists. split; [reflexivity|]. reflexivity.
  - exists []. rewrite app_nil_r. split; reflexivity.
  - eexists. split; [reflexivity|]. reflexivity.
Qed.

Lemma loop_conversions_at q items : forall st idx st',
  loop ffmpeg output_of nochange_copy st idx items = Some st' ->
  (conversions_of q (st_log st') <=
   conversions_of q (st_log st) + to_change_at output_of q items)%nat.
Proof.
  induction items as [|[path params] rest IH]; simpl; intros st idx st' H.
  - injection H as <-. lia.
  - destruct (iteration ffmpeg output_of nochange_copy st idx path params) as [st1|] eqn:E;
      simpl in H; [|discriminate].
    destruct (iteration_log _ _ _ _ _ E) as (tail & Hl & Ht).
    pose proof (IH _ _ _ H) as Hr.
    pose proof (execute_conversions_at (st_fs st) path params q) as He.
    rewrite Hl, !conversions_of_app, Ht in Hr. lia.
Qed.

Lemma loop37_conversions_at q items : forall total st idx st',
  loop37 ffmpeg output_of nochange_copy total st idx items = Some st' ->
  (conversions_of q (log37 st') <=
   conversions_of q (log37 st) + to_change_at output_of q items)%nat.
Proof.
  induction items as [|[path params] rest IH]; simpl; intros total st idx st' H.
  - injection H as <-. lia.
  - destruct (iteration37 ffmpeg output_of nochange_copy total st idx path params)
      as [st1|] eqn:E; simpl in H; [|discriminate].
    destruct (iteration37_log _ _ _ _ _ _ E) as (tail & Hl & Ht).
    pose proof (IH _ _ _ _ H) as Hr.
    pose proof (execute_conversions_at (fs37 st) path params q) as He.
    rewrite Hl, !conversions_of_app, Ht in Hr. lia.
Qed.

(** No video with the output path [q] asks for a change. *)
Lemma to_change_at_none q items :
  (forall path params, (path, params) ∈ items -> output_of path = q ->
     change_required params = false) ->
  to_change_at output_of q items = 0%nat.
Proof.
  induction items as [|[path params] rest IH]; simpl; intros H; [reflexivity|].
  rewrite IH by (intros p prm Hin; apply (H p prm); right; exact Hin).
  destruct (String.eqb_spec (output_of path) q) as [Eq|_].
  - rewrite (H path params ltac:(left) Eq). reflexivity.
  - rewrite andb_false_r. reflexivity.
Qed.

(** With distinct output paths at most one video has the output path [q]. *)
Lemma to_change_at_distinct q items :
  NoDup ((λ it, output_of it.1) <$> items) ->
  (to_change_at output_of q items <= 1)%nat.
Proof.
  induction items as [|[path params] rest IH]; simpl; intros H; [lia|].
  apply NoDup_cons in H as [Hnin Hnd].
  destruct (String.eqb_spec (output_of path) q) as [Eq|_].
  - rewrite to_change_at_none.
    + destruct (change_required params); simpl; lia.
    + intros p prm Hin Ep. exfalso. apply Hnin.
      apply list_elem_of_fmap. exists (p, prm). split; [simpl; congruence|exact Hin].
  - rewrite andb_false_r. pose proof (IH Hnd). lia.
Qed.

Lemma loop37_raises pre : forall total st idx path params rest,
  deleted37 st = Z.of_nat idx ->
  (forall p prm, (p, prm) ∈ pre -> is_Some (fs37 st !! output_of p)) ->
  fs37 st !! output_of path = None ->
  change_required params = false ->
  loop37 ffmpeg output_of nochange_copy total st idx (pre ++ (path, params) :: rest) = None.
Proof.
  induction pre as [|[p0 prm0] pre IH]; simpl; intros total st idx path params rest Hd Hpre Ho Hc.
  - rewrite (iteration37_raises ffmpeg output_of nochange_copy total st idx path params Hd Ho Hc).
    reflexivity.
  - destruct (Hpre p0 prm0 ltac:(left)) as [f Hf].
    unfold iteration37 at 1.
    rewrite (execute_exists ffmpeg output_of nochange_copy (fs37 st) p0 prm0 f Hf). simpl.
    apply IH; simpl.
    + lia.
    + intros p prm Hin. apply (Hpre p prm). right. exact Hin.
    + exact Ho.
    + exact Hc.
Qed.

End RunFacts.

(** X4: at the end of a run of videoresize_4_1.py every video of the batch
    is counted once: it was skipped (output present or no change required)
    or the encoder was run on it; it has a finish-time estimate in the log
    or its encoder run failed; and [num_deletedVideos] is the number of
    skipped videos. *)
Theorem run_accounts_for_every_video
    (ffmpeg : gmap string file → string → string → resize_param → run_result)
    (output_of : string → string) (nochange_copy : bool)
    (fs : gmap string file) (items : list (string * resize_param)) (st : state) :
  resize ffmpeg output_of nochange_copy fs items = Some st ->
  (skips (st_log st) + conversions (st_log st) = length items)%nat /\
  (estimates (st_log st) + failures (st_log st) = length items)%nat /\
  num_deletedVideos st = Z.of_nat (skips (st_log st)).
Proof.
  unfold resize. intros H.
  destruct (sum_sizes fs items) as [t|] eqn:Et; simpl in H; [|discriminate].
  destruct (loop_books ffmpeg output_of nochange_copy items _ 0 st t H Et)
    as (I1 & I2 & _ & I4 & _).
  simpl in *. change (estimates []) with 0%nat in I1. change (failures []) with 0%nat in I1.
  change (skips []) with 0%nat in I2, I4. change (conversions []) with 0%nat in I2.
  repeat split; lia.
Qed.

Lemma run_accounts_for_every_video_witness :
  (skips [LogConvert "out/a.mp4"; LogFfmpegError "a.mp4"] +
   conversions [LogConvert "out/a.mp4"; LogFfmpegError "a.mp4"] = 1)%nat /\
  (estimates [LogConvert "out/a.mp4"; LogFfmpegError "a.mp4"] +
   failures [LogConvert "out/a.mp4"; LogFfmpegError "a.mp4"] = 1)%nat /\
  0 = Z.of_nat (skips [LogConvert "out/a.mp4"; LogFfmpegError "a.mp4"]).
Proof.
  apply (run_accounts_for_every_video Sample.failing Sample.to_out false
           Sample.source_only [("a.mp4", Sample.resized)]
           {| st_fs := Sample.source_only;
              st_log := [LogConvert "out/a.mp4"; LogFfmpegError "a.mp4"];
              total_bytes := 1; processed_bytes := 0; num_deletedVideos := 0 |}).
  vm_compute. reflexivity.
Defined.

(** X5: at the end of a run of video_resize.py every video of the batch
    is counted once: it was skipped or the encoder was run on it; and it
    has a finish-time estimate in the log unless its output was found
    present or its encoder run failed. *)
Theorem run37_accounts_for_every_video
    (ffmpeg : gmap string file → string → string → resize_param → run_result)
    (output_of : string → string) (nochange_copy : bool)
    (fs : gmap string file) (items : list (string * resize_param)) (st : state37) :
  resize37 ffmpeg output_of nochange_copy fs items = Some st ->
  (skips (log37 st) + conversions (log37 st) = length items)%nat /\
  (estimates (log37 st) + failures (log37 st) + found (log37 st) = length items)%nat /\
  deleted37 st = Z.of_nat (skips (log37 st)).
Proof.
  unfold resize37. intros H.
  destruct (loop37_books ffmpeg output_of nochange_copy items _ _ 0 st H) as (I1 & I2 & I3).
  simpl in *. change (estimates []) with 0%nat in I2. change (failures []) with 0%nat in I2.
  change (found []) with 0%nat in I2.
  change (conversions []) with 0%nat in I1. change (skips []) with 0%nat in I1, I3.
  repeat split; lia.
Qed.

Lemma run37_accounts_for_every_video_witness :
  (skips [LogConvert "out/a.mp4"; LogFfmpegError "a.mp4"] +
   conversions [LogConvert "out/a.mp4"; LogFfmpegError "a.mp4"] = 1)%nat /\
  (estimates [LogConvert "out/a.mp4"; LogFfmpegError "a.mp4"] +
   failures [LogConvert "out/a.mp4"; LogFfmpegError "a.mp4"] +
   found [LogConvert "out/a.mp4"; LogFfmpegError "a.mp4"] = 1)%nat /\
  0 = Z.of_nat (skips [LogConvert "out/a.mp4"; LogFfmpegError "a.mp4"]).
Proof.
  apply (run37_accounts_for_every_video Sample.failing Sample.to_out false
           Sample.source_only [("a.mp4", Sample.resized)]
           {| fs37 := Sample.source_only;
              log37 := [LogConvert "out/a.mp4"; LogFfmpegError "a.mp4"];
              deleted37 := 0 |}).
  vm_compute. reflexivity.
Defined.

(** X6: in videoresize_4_1.py the processed bytes never pass the total the
    estimate is computed from, and after a run without a failed encoder run
    the two are equal, so that the bytes left are 0. *)
Theorem processed_bytes_reach_total
    (ffmpeg : gmap string file → string → string → resize_param → run_result)
    (output_of : string → string) (nochange_copy : bool)
    (fs : gmap string file) (items : list (string * resize_param)) (st : state) :
  resize ffmpeg output_of nochange_copy fs items = Some st ->
  0 <= processed_bytes st <= total_bytes st /\
  (failures (st_log st) = 0%nat -> processed_bytes st = total_bytes st).
Proof.
  unfold resize. intros H.
  destruct (sum_sizes fs items) as [t|] eqn:Et; simpl in H; [|discriminate].
  destruct (loop_books ffmpeg output_of nochange_copy items _ 0 st t H Et)
    as (_ & _ & _ & _ & I5 & I6 & I7).
  simpl in *. change (failures []) with 0%nat in I7.
  split; [lia|]. intros Hf. specialize (I7 Hf). lia.
Qed.

Lemma processed_bytes_reach_total_witness :
  0 <= 1 <= 1 /\
  (failures [LogConvert "out/a.mp4"; LogLarger "a.mp4"; LogSourceCopied "out/a.mp4";
             LogEta 0 1 1] = 0%nat -> 1 = 1).
Proof.
  apply (processed_bytes_reach_total Sample.bloating Sample.to_out false
           Sample.source_only [("a.mp4", Sample.resized)]
           {| st_fs := <[Sample.to_out "a.mp4" := Sample.one_byte]>
                         (<[Sample.to_out "a.mp4" := Sample.two_bytes]> Sample.source_only);
              st_log := [LogConvert "out/a.mp4"; LogLarger "a.mp4";
                         LogSourceCopied "out/a.mp4"; LogEta 0 1 1];
              total_bytes := 1; processed_bytes := 1; num_deletedVideos := 0 |}).
  vm_compute. reflexivity.
Defined.

(** X7: for every output path, the encoder runs on it are at most the
    videos of the batch with that output path whose plan asks for a change,
    in both programs.  So with distinct output paths the encoder is run at
    most once on each, and it is never run on a path that is the output of
    no video asking for a change. *)
Theorem encoder_runs_at_most_once_per_change
    (ffmpeg : gmap string file → string → string → resize_param → run_result)
    (output_of : string → string) (nochange_copy : bool)
    (fs : gmap string file) (items : list (string * resize_param)) :
  (forall st q, resize37 ffmpeg output_of nochange_copy fs items = Some st ->
     (conversions_of q (log37 st) <= to_change_at output_of q items)%nat /\
     (NoDup ((λ it, output_of it.1) <$> items) ->
      (conversions_of q (log37 st) <= 1)%nat) /\
     ((forall path params, (path, params) ∈ items -> output_of path = q ->
         change_required params = false) ->
      conversions_of q (log37 st) = 0%nat)) /\
  (forall st q, resize ffmpeg output_of nochange_copy fs items = Some st ->
     (conversions_of q (st_log st) <= to_change_at output_of q items)%nat /\
     (NoDup ((λ it, output_of it.1) <$> items) ->
      (conversions_of q (st_log st) <= 1)%nat) /\
     ((forall path params, (path, params) ∈ items -> output_of path = q ->
         change_required params = false) ->
      conversions_of q (st_log st) = 0%nat)).
Proof.
  split.
  - unfold resize37. intros st q H.
    pose proof (loop37_conversions_at ffmpeg output_of nochange_copy q items _ _ 0 st H)
      as Hc.
    simpl in Hc. split; [exact Hc|]. split.
    + intros Hnd. pose proof (to_change_at_distinct output_of q items Hnd). lia.
    + intros Hno. rewrite (to_change_at_none output_of q items Hno) in Hc. lia.
  - unfold resize. intros st q H.
    destruct (sum_sizes fs items) as [t|]; simpl in H; [|discriminate].
    pose proof (loop_conversions_at ffmpeg output_of nochange_copy q items _ 0 st H) as Hc.
    simpl in Hc. split; [exact Hc|]. split.
    + intros Hnd. pose proof (to_change_at_distinct output_of q items Hnd). lia.
    + intros Hno. rewrite (to_change_at_none output_of q items Hno) in Hc. lia.
Qed.

(** X8: a video that needs no change and has no output yet is copied to the
    output path, bytes and timestamps, when [nochange_copy] is set, and
    leaves the file system as it is otherwise; the encoder is not run. *)
Theorem unchanged_video_is_copied_or_left
    (ffmpeg : gmap string file → string → string → resize_param → run_result)
    (output_of : string → string) (nochange_copy : bool)
    (fs : gmap string file) (path : string) (params : resize_param) (src : file) :
  fs !! output_of path = None ->
  change_required params = false ->
  fs !! path = Some src ->
  execute ffmpeg output_of nochange_copy fs path params =
    if nochange_copy
    then (<[output_of path := src]> fs,
          [LogNoChange path; LogCopied (output_of path)], NoChange)
    else (fs, [LogNoChange path; LogSkip path], NoChange).
Proof.
  intros Ho Hc Hs. unfold execute, copy2. rewrite Ho, Hc, Hs. simpl.
  destruct nochange_copy; reflexivity.
Qed.

Lemma unchanged_video_is_copied_or_left_witness :
  execute Sample.failing Sample.to_out true Sample.source_only "a.mp4"
          (Sample.plan Sample.hd (1280, 720)) =
    (<[Sample.to_out "a.mp4" := Sample.one_byte]> Sample.source_only,
     [LogNoChange "a.mp4"; LogCopied (Sample.to_out "a.mp4")], NoChange).
Proof.
  apply (unchanged_video_is_copied_or_left Sample.failing Sample.to_out true
           Sample.source_only "a.mp4" (Sample.plan Sample.hd (1280, 720))
           Sample.one_byte).
  - vm_compute. reflexivity.
  - vm_compute. reflexivity.
  - vm_compute. reflexivity.
Defined.

(** X9: when the encoder succeeds with an output that is not larger than
    the source, the output keeps the encoded bytes and takes the timestamps
    of the source. *)
Theorem converted_output_takes_source_times
    (ffmpeg : gmap string file → string → string → resize_param → run_result)
    (output_of : string → string) (nochange_copy : bool)
    (fs : gmap string file) (path : string) (params : resize_param)
    (src out : file) :
  fs !! output_of path = None ->
  change_required params = true ->
  fs !! path = Some src ->
  ffmpeg fs path (output_of path) params = Exited 0 (Some out) ->
  (length (content out) <= length (content src))%nat ->
  execute ffmpeg output_of nochange_copy fs path params =
    (<[output_of path := {| content := content out; times := times src |}]>
       (<[output_of path := out]> fs),
     [LogConvert (output_of path); LogTimes (output_of path)], Converted).
Proof.
  intros Ho Hc Hs Hf Hlen.
  assert (Hne : path <> output_of path) by congruence.
  unfold execute. rewrite Ho, Hc, Hf. simpl.
  unfold getsize, copy_file_times.
  rewrite lookup_insert_eq, lookup_insert_ne, Hs by congruence. simpl.
  destruct (Z.gtb_spec (Z.of_nat (length (content out))) (Z.of_nat (length (content src))))
    as [Hgt|_]; [lia|].
  reflexivity.
Qed.

Lemma converted_output_takes_source_times_witness :
  execute (fun _ _ _ _ => Exited 0 (Some Sample.one_byte)) Sample.to_out false
          (<["a.mp4" := Sample.two_bytes]> Sample.source_only) "a.mp4" Sample.resized =
    (<[Sample.to_out "a.mp4" :=
         {| content := content Sample.one_byte; times := times Sample.two_bytes |}]>
       (<[Sample.to_out "a.mp4" := Sample.one_byte]>
          (<["a.mp4" := Sample.two_bytes]> Sample.source_only)),
     [LogConvert (Sample.to_out "a.mp4"); LogTimes (Sample.to_out "a.mp4")], Converted).
Proof.
  apply (converted_output_takes_source_times
           (fun _ _ _ _ => Exited 0 (Some Sample.one_byte)) Sample.to_out false
           (<["a.mp4" := Sample.two_bytes]> Sample.source_only) "a.mp4" Sample.resized
           Sample.two_bytes Sample.one_byte).
  - vm_compute. reflexivity.
  - vm_compute. reflexivity.
  - vm_compute. reflexivity.
  - reflexivity.
  - simpl. lia.
Defined.

(** X10: when the encoder exits with a non-zero status after writing a
    file, that file stays at the output path, and the next pass over the
    same video finds it and skips the video: the encoding is not tried
    again. *)
Theorem failed_output_blocks_retry
    (ffmpeg : gmap string file → string → string → resize_param → run_result)
    (output_of : string → string) (nochange_copy : bool)
    (fs : gmap string file) (path : string) (params : resize_param)
    (rc : Z) (out : file) :
  fs !! output_of path = None ->
  change_required params = true ->
  ffmpeg fs path (output_of path) params = Exited rc (Some out) ->
  rc <> 0 ->
  execute ffmpeg output_of nochange_copy fs path params =
    (<[output_of path := out]> fs,
     [LogConvert (output_of path); LogFfmpegError path], Failed) /\
  execute ffmpeg output_of nochange_copy (<[output_of path := out]> fs) path params =
    (<[output_of path := out]> fs, [LogExists (output_of path)], AlreadyExists).
Proof.
  intros Ho Hc Hf Hrc. split.
  - unfold execute. rewrite Ho, Hc, Hf. simpl.
    destruct (Z.eqb_spec rc 0) as [E|_]; [contradiction|]. reflexivity.
  - apply execute_exists with out. apply lookup_insert_eq.
Qed.

Lemma failed_output_blocks_retry_witness :
  execute (fun _ _ _ _ => Exited 1 (Some Sample.one_byte)) Sample.to_out false
          Sample.source_only "a.mp4" Sample.resized =
    (<[Sample.to_out "a.mp4" := Sample.one_byte]> Sample.source_only,
     [LogConvert (Sample.to_out "a.mp4"); LogFfmpegError "a.mp4"], Failed) /\
  execute (fun _ _ _ _ => Exited 1 (Some Sample.one_byte)) Sample.to_out false
          (<[Sample.to_out "a.mp4" := Sample.one_byte]> Sample.source_only)
          "a.mp4" Sample.resized =
    (<[Sample.to_out "a.mp4" := Sample.one_byte]> Sample.source_only,
     [LogExists (Sample.to_out "a.mp4")], AlreadyExists).
Proof.
  apply (failed_output_blocks_retry (fun _ _ _ _ => Exited 1 (Some Sample.one_byte))
           Sample.to_out false Sample.source_only "a.mp4" Sample.resized 1
           Sample.one_byte).
  - vm_compute. reflexivity.
  - vm_compute. reflexivity.
  - reflexivity.
  - lia.
Defined.

(** X11: in video_resize.py a video that needs no change and has no output
    yet ends the run with ZeroDivisionError when the output of every video
    before it in the batch is present: the number of converted videos, by
    which the estimate of the finish time divides, is then 0. *)
Theorem unchanged_video_before_any_conversion_raises
    (ffmpeg : gmap string file → string → string → resize_param → run_result)
    (output_of : string → string) (nochange_copy : bool)
    (fs : gmap string file) (pre : list (string * resize_param))
    (path : string) (params : resize_param) (rest : list (string * resize_param)) :
  (forall p prm, (p, prm) ∈ pre -> is_Some (fs !! output_of p)) ->
  fs !! output_of path = None ->
  change_required params = false ->
  resize37 ffmpeg output_of nochange_copy fs (pre ++ (path, params) :: rest) = None.
Proof.
  intros Hpre Ho Hc. unfold resize37.
  apply loop37_raises; simpl; try assumption. reflexivity.
Qed.

Lemma unchanged_video_before_any_conversion_raises_witness :
  resize37 Sample.bloating Sample.to_out false Sample.source_only
    ([] ++ ("a.mp4", Sample.plan Sample.hd (1280, 720)) :: [("b.mp4", Sample.resized)]) = None.
Proof.
  apply (unchanged_video_before_any_conversion_raises Sample.bloating Sample.to_out false
           Sample.source_only [] "a.mp4" (Sample.plan Sample.hd (1280, 720))
           [("b.mp4", Sample.resized)]).
  - intros p prm Hin. inversion Hin.
  - vm_compute. reflexivity.
  - vm_compute. reflexivity.
Defined.

(** * Further properties of the resolver *)

Lemma scaled_zero (r : Py.num) (z : Z) : scaled 0 r = Some z -> z = 0.
Proof.
  unfold scaled, Py.mul. destruct r as [k|f]; simpl.
  - intros [= <-]. reflexivity.
  - change (Py.int2float 0) with (Some (S754_zero false)). simpl.
    destruct f as [s|s| |s m e]; simpl; intros H; try discriminate;
      injection H as <-; reflexivity.
Qed.

(** X12: a probed width or height of 0 makes [set_size] raise
    (ZeroDivisionError in the minimum-size adjustment) under any minimum of
    at least 1, whatever the mode; [set_parameters] has no handler, so one
    such video makes the call raise for the whole batch, in both programs. *)
Theorem zero_dimension_raises (ow oh : Z) (m : mode) (cp : custom_param)
    (mw mh : Z) (ld : limit_direction) :
  (ow = 0 /\ 1 <= mw) \/ (oh = 0 /\ 1 <= mh) ->
  set_size (ow, oh) m cp (mw, mh) ld = None /\
  (forall c dict path info,
     (path, info) ∈ dict -> vi_size info = (ow, oh) ->
     V41.cfg_mode c = m -> V41.cfg_custom_param c = cp ->
     V41.cfg_min_size c = (mw, mh) -> V41.cfg_limit_direction c = ld ->
     V41.set_parameters c dict = None) /\
  (forall c dict path info,
     (path, info) ∈ dict -> vi_size info = (ow, oh) ->
     V37.cfg_mode c = m -> V37.cfg_custom_param c = cp ->
     V37.cfg_min_size c = (mw, mh) -> V37.cfg_limit_direction c = ld ->
     V37.set_parameters c dict = None).
Proof.
  intros Hz.
  assert (Hs : set_size (ow, oh) m cp (mw, mh) ld = None).
  { unfold set_size.
    destruct (mode_ratio (ow, oh) m cp ld) as [ratio|]; simpl; [|reflexivity].
    destruct (scaled ow ratio) as [w1|] eqn:Ew; simpl; [|reflexivity].
    destruct (scaled oh ratio) as [h1|] eqn:Eh; simpl; [|reflexivity].
    assert (Hc : (w1 <? mw) || (h1 <? mh) = true).
    { apply orb_true_iff. destruct Hz as [[-> Hm]|[-> Hm]].
      - left. apply scaled_zero in Ew. apply Z.ltb_lt. lia.
      - right. apply scaled_zero in Eh. apply Z.ltb_lt. lia. }
    rewrite Hc. unfold min_ratio.
    destruct Hz as [[-> Hm]|[-> Hm]].
    - unfold Py.int_truediv at 1. destruct mw; reflexivity.
    - destruct (Py.int_truediv mw ow); simpl; [|reflexivity].
      unfold Py.int_truediv at 1. destruct mh; reflexivity. }
  split; [exact Hs|]. split.
  - intros c dict path info Hin Hsz <- <- Hmin <-.
    destruct (V41.set_parameters c dict) as [out|] eqn:E; [|reflexivity].
    exfalso. unfold V41.set_parameters in E.
    assert (Hall : is_Some (mapM (λ '(path, info), p ← V41.set_parameter c info; Some (path, p)) dict))
      by (rewrite E; eauto).
    rewrite mapM_is_Some, Forall_forall in Hall. specialize (Hall _ Hin).
    simpl in Hall. unfold V41.set_parameter in Hall.
    rewrite Hsz, Hmin, Hs in Hall. simpl in Hall. destruct Hall as [? ?]. discriminate.
  - intros c dict path info Hin Hsz <- <- Hmin <-.
    destruct (V37.set_parameters c dict) as [out|] eqn:E; [|reflexivity].
    exfalso. unfold V37.set_parameters in E.
    assert (Hall : is_Some (mapM (λ '(path, info), p ← V37.set_parameter c info; Some (path, p)) dict))
      by (rewrite E; eauto).
    rewrite mapM_is_Some, Forall_forall in Hall. specialize (Hall _ Hin).
    simpl in Hall. unfold V37.set_parameter in Hall.
    rewrite Hsz, Hmin, Hs in Hall. simpl in Hall. destruct Hall as [? ?]. discriminate.
Qed.

Lemma zero_dimension_raises_witness :
  set_size (0, 1080) Fullhd CPNone (1, 1) LXY = None /\
  (forall c dict path info,
     (path, info) ∈ dict -> vi_size info = (0, 1080) ->
     V41.cfg_mode c = Fullhd -> V41.cfg_custom_param c = CPNone ->
     V41.cfg_min_size c = (1, 1) -> V41.cfg_limit_direction c = LXY ->
     V41.set_parameters c dict = None) /\
  (forall c dict path info,
     (path, info) ∈ dict -> vi_size info = (0, 1080) ->
     V37.cfg_mode c = Fullhd -> V37.cfg_custom_param c = CPNone ->
     V37.cfg_min_size c = (1, 1) -> V37.cfg_limit_direction c = LXY ->
     V37.set_parameters c dict = None).
Proof.
  apply (zero_dimension_raises 0 1080 Fullhd CPNone 1 1 LXY).
  left. split; [reflexivity|lia].
Defined.

(** X13: in a mode with a target size, a video that is within the target
    and not below the minimum keeps its size, but for the rounding of odd
    dimensions up to even; no float is computed. *)
Theorem fitting_video_keeps_size (ow oh : Z) (m : mode) (cp : custom_param)
    (mw mh : Z) (ld : limit_direction) (tw th : Z) :
  m <> Divide ->
  preset_sizes m cp = Some (tw, th) ->
  ow <= tw -> oh <= th -> mw <= ow -> mh <= oh ->
  set_size (ow, oh) m cp (mw, mh) ld = Some (make_even ow, make_even oh).
Proof.
  intros Hm Hp Hw Hh Hmw Hmh.
  assert (Hr : mode_ratio (ow, oh) m cp ld = Some (Py.Int 1)).
  { unfold mode_ratio. destruct m; try contradiction; rewrite Hp; simpl;
      unfold axis_ratio;
      destruct (Z.gtb_spec ow tw); try lia; destruct (Z.gtb_spec oh th); try lia;
      simpl; destruct ld; reflexivity. }
  unfold set_size. rewrite Hr. simpl.
  unfold scaled, Py.mul. simpl. rewrite !Z.mul_1_r.
  destruct (Z.ltb_spec ow mw); try lia. destruct (Z.ltb_spec oh mh); try lia.
  reflexivity.
Qed.

Lemma fitting_video_keeps_size_witness :
  set_size (1279, 719) Fullhd CPNone (1, 1) LXY = Some (make_even 1279, make_even 719).
Proof.
  apply (fitting_video_keeps_size 1279 719 Fullhd CPNone 1 1 LXY 1920 1080).
  - discriminate.
  - reflexivity.
  - lia.
  - lia.
  - lia.
  - lia.
Defined.

Lemma SFcompare_antisym f1 f2 : SFcompare f2 f1 = CompOpp <$> SFcompare f1 f2.
Proof.
  destruct f1 as [s1|s1| |s1 m1 e1], f2 as [s2|s2| |s2 m2 e2]; simpl;
    try reflexivity; try (destruct s1; reflexivity); try (destruct s2; reflexivity);
    try (destruct s1, s2; reflexivity).
  rewrite (Z.compare_antisym e1 e2).
  assert (H : Pos.compare_cont Eq m2 m1 = CompOpp (Pos.compare_cont Eq m1 m2))
    by (rewrite Pos.compare_cont_antisym; reflexivity).
  rewrite H.
  destruct s1, s2; simpl; try reflexivity;
    destruct (e1 ?= e2)%Z; simpl; try reflexivity;
    destruct (Pos.compare_cont Eq m1 m2); reflexivity.
Qed.

Lemma compare_antisym a b : Py.compare b a = CompOpp <$> Py.compare a b.
Proof.
  destruct a as [x|x], b as [y|y]; simpl.
  - rewrite (Z.compare_antisym x y). reflexivity.
  - reflexivity.
  - destruct (Py.int_float_compare y x) as [[]|]; reflexivity.
  - apply SFcompare_antisym.
Qed.

Lemma gt_asym a b : Py.gt a b = true -> Py.gt b a = false.
Proof.
  unfold Py.gt. rewrite (compare_antisym a b).
  destruct (Py.compare a b) as [[]|]; simpl; congruence.
Qed.

(** X14: the frame rate [set_fps] returns is the native one or the
    configured cap, and by Python's [>] it is greater than neither, in both
    programs. *)
Theorem set_fps_is_min (origin_fps config_fps : Py.num) :
  (set_fps origin_fps config_fps = origin_fps \/
   set_fps origin_fps config_fps = config_fps) /\
  Py.gt (set_fps origin_fps config_fps) origin_fps = false /\
  Py.gt (set_fps origin_fps config_fps) config_fps = false.
Proof.
  unfold set_fps. destruct (Py.gt origin_fps config_fps) eqn:E.
  - split; [right; reflexivity|]. split; [apply gt_asym; exact E | apply gt_irrefl].
  - split; [left; reflexivity|]. split; [apply gt_irrefl | exact E].
Qed.

Lemma make_even_of_even n : Z.even n = true -> make_even n = n.
Proof.
  intros H. destruct (make_even_cases n) as [[_ E]|[O _]]; [exact E|].
  rewrite <- Z.negb_even, H in O. discriminate.
Qed.

Lemma eq_Int_refl z : Py.eq (Py.Int z) (Py.Int z) = true.
Proof. unfold Py.eq. simpl. rewrite Z.compare_refl. reflexivity. Qed.

Lemma size_ne_refl a : size_ne a a = false.
Proof. unfold size_ne. rewrite !Z.eqb_refl. reflexivity. Qed.

(** X15: in video_resize.py a video with even dimensions that is within
    the target size, not below the minimum size, and within the bit-rate
    and frame-rate caps gets a plan equal to its native values, with
    [change_required] false. *)
Theorem compliant_video_needs_no_change_37 (c : V37.config) (info : video_info)
    (ow oh tw th mw mh : Z) :
  vi_size info = (ow, oh) ->
  V37.cfg_mode c <> Divide ->
  preset_sizes (V37.cfg_mode c) (V37.cfg_custom_param c) = Some (tw, th) ->
  V37.cfg_min_size c = (mw, mh) ->
  ow <= tw -> oh <= th -> mw <= ow -> mh <= oh ->
  Z.even ow = true -> Z.even oh = true ->
  vi_bit_rate info <= V37.cfg_bitrate c ->
  Py.gt (Py.Float (vi_avg_frame_rate info)) (V37.cfg_fps c) = false ->
  Py.eq (Py.Float (vi_avg_frame_rate info)) (Py.Float (vi_avg_frame_rate info)) = true ->
  exists p,
    V37.set_parameter c info = Some p /\
    change_required p = false /\
    size p = (ow, oh) /\
    bit_rate p = Py.Int (vi_bit_rate info) /\
    fps p = Py.Float (vi_avg_frame_rate info).
Proof.
  intros Hsz Hm Hp Hmin Hw Hh Hmw Hmh Ew Eh Hb Hf Hnan.
  unfold V37.set_parameter. rewrite Hsz, Hmin.
  rewrite (fitting_video_keeps_size ow oh _ _ mw mh _ tw th Hm Hp Hw Hh Hmw Hmh).
  rewrite (make_even_of_even ow Ew), (make_even_of_even oh Eh). simpl.
  eexists. split; [reflexivity|].
  unfold V37.set_bit_rate, set_fps. rewrite Hf.
  destruct (Z.gtb_spec (vi_bit_rate info) (V37.cfg_bitrate c)); [lia|].
  simpl. rewrite Hsz, size_ne_refl. unfold Py.ne. rewrite eq_Int_refl, Hnan.
  repeat split; reflexivity.
Qed.

Lemma compliant_video_needs_no_change_37_witness :
  exists p,
    V37.set_parameter Sample.c37 Sample.hd = Some p /\
    change_required p = false /\
    size p = (1280, 720) /\
    bit_rate p = Py.Int (vi_bit_rate Sample.hd) /\
    fps p = Py.Float (vi_avg_frame_rate Sample.hd).
Proof.
  apply (compliant_video_needs_no_change_37 Sample.c37 Sample.hd 1280 720 1920 1080 1 1).
  - reflexivity.
  - discriminate.
  - reflexivity.
  - reflexivity.
  - lia.
  - lia.
  - lia.
  - lia.
  - reflexivity.
  - reflexivity.
  - simpl. lia.
  - vm_compute. reflexivity.
  - vm_compute. reflexivity.
Defined.

(** X16: the same in videoresize_4_1.py, the bit-rate cap being the float
    product [bpp * width * height * fps] at the native size and frame rate. *)
Theorem compliant_video_needs_no_change_41 (c : V41.config) (info : video_info)
    (ow oh tw th mw mh : Z) (ceiling : Py.num) :
  vi_size info = (ow, oh) ->
  V41.cfg_mode c <> Divide ->
  preset_sizes (V41.cfg_mode c) (V41.cfg_custom_param c) = Some (tw, th) ->
  V41.cfg_min_size c = (mw, mh) ->
  ow <= tw -> oh <= th -> mw <= ow -> mh <= oh ->
  Z.even ow = true -> Z.even oh = true ->
  Py.gt (Py.Float (vi_avg_frame_rate info)) (V41.cfg_fps c) = false ->
  Py.eq (Py.Float (vi_avg_frame_rate info)) (Py.Float (vi_avg_frame_rate info)) = true ->
  V41.bitrateFromBPP (V41.cfg_bpp c) ow oh (Py.Float (vi_avg_frame_rate info)) =
    Some ceiling ->
  Py.gt (Py.Int (vi_bit_rate info)) ceiling = false ->
  exists p,
    V41.set_parameter c info = Some p /\
    change_required p = false /\
    size p = (ow, oh) /\
    bit_rate p = Py.Int (vi_bit_rate info) /\
    fps p = Py.Float (vi_avg_frame_rate info).
Proof.
  intros Hsz Hm Hp Hmin Hw Hh Hmw Hmh Ew Eh Hf Hnan Hc Hb.
  unfold V41.set_parameter. rewrite Hsz, Hmin.
  rewrite (fitting_video_keeps_size ow oh _ _ mw mh _ tw th Hm Hp Hw Hh Hmw Hmh).
  rewrite (make_even_of_even ow Ew), (make_even_of_even oh Eh). simpl.
  unfold set_fps. rewrite Hf. unfold V41.set_bit_rate. rewrite Hc. simpl. rewrite Hb.
  eexists. split; [reflexivity|].
  simpl. rewrite Hsz, size_ne_refl. unfold Py.ne. rewrite eq_Int_refl, Hnan.
  repeat split; reflexivity.
Qed.

Lemma compliant_video_needs_no_change_41_witness :
  exists p,
    V41.set_parameter Sample.c41 Sample2.low_rate_hd = Some p /\
    change_required p = false /\
    size p = (1280, 720) /\
    bit_rate p = Py.Int (vi_bit_rate Sample2.low_rate_hd) /\
    fps p = Py.Float (vi_avg_frame_rate Sample2.low_rate_hd).
Proof.
  apply (compliant_video_needs_no_change_41 Sample.c41 Sample2.low_rate_hd 1280 720 1920 1080 1 1
           (Py.Float (S754_finite false 8549802417586176 (-33)))).
  - reflexivity.
  - discriminate.
  - reflexivity.
  - reflexivity.
  - lia.
  - lia.
  - lia.
  - lia.
  - reflexivity.
  - reflexivity.
  - vm_compute. reflexivity.
  - vm_compute. reflexivity.
  - vm_compute. reflexivity.
  - vm_compute. reflexivity.
Defined.

(** X17: in videoresize_4_1.py a video whose probe has no [avg_frame_rate]
    (stored as 0.0) keeps the frame rate 0.0, and with a native bit rate
    above 0 its bit rate is the product [bpp * width * height * 0.0], a
    zero: the plan asks for an encoding at 0 frames per second and 0 bits
    per second. *)
Theorem missing_frame_rate_zeroes_bit_rate (c : V41.config) (info : video_info)
    (w h : Z) :
  vi_avg_frame_rate info = S754_zero false ->
  Py.gt (Py.Float (S754_zero false)) (V41.cfg_fps c) = false ->
  set_size (vi_size info) (V41.cfg_mode c) (V41.cfg_custom_param c)
           (V41.cfg_min_size c) (V41.cfg_limit_direction c) = Some (w, h) ->
  (exists f, (a ← Py.mul (Py.Float (V41.cfg_bpp c)) (Py.Int w); Py.mul a (Py.Int h)) =
               Some (Py.Float f) /\ F64.is_finite f = true) ->
  0 < vi_bit_rate info ->
  exists p s,
    V41.set_parameter c info = Some p /\
    fps p = Py.Float (S754_zero false) /\
    bit_rate p = Py.Float (S754_zero s) /\
    change_required p = true.
Proof.
  intros Hfps Hcap Hs (f & Hprod & Hfin) Hb.
  unfold V41.set_parameter. rewrite Hs. simpl.
  unfold set_fps. rewrite Hfps, Hcap.
  unfold V41.set_bit_rate, V41.bitrateFromBPP.
  destruct (Py.mul (Py.Float (V41.cfg_bpp c)) (Py.Int w)) as [a|]; simpl in Hprod |- *;
    [|discriminate].
  rewrite Hprod. simpl.
  assert (Hz : exists s, SFmul Py.prec Py.emax f (S754_zero false) = S754_zero s).
  { destruct f as [s|s| |s m e]; try discriminate; simpl; eauto. }
  destruct Hz as [s Hz]. rewrite Hz.
  assert (Hgt : Py.gt (Py.Int (vi_bit_rate info)) (Py.Float (S754_zero s)) = true).
  { unfold Py.gt. simpl. destruct (Z.compare_spec (vi_bit_rate info) 0); first [lia | reflexivity]. }
  rewrite Hgt. eexists. exists s. split; [reflexivity|]. simpl.
  split; [reflexivity|]. split; [reflexivity|].
  assert (Hne : Py.ne (Py.Float (S754_zero s)) (Py.Int (vi_bit_rate info)) = true).
  { unfold Py.ne, Py.eq. simpl.
    destruct (Z.compare_spec (vi_bit_rate info) 0); first [lia | reflexivity]. }
  rewrite Hne, orb_true_r. reflexivity.
Qed.

Lemma missing_frame_rate_zeroes_bit_rate_witness :
  exists p s,
    V41.set_parameter Sample.c41 Sample2.no_fps_hd = Some p /\
    fps p = Py.Float (S754_zero false) /\
    bit_rate p = Py.Float (S754_zero s) /\
    change_required p = true.
Proof.
  apply (missing_frame_rate_zeroes_bit_rate Sample.c41 Sample2.no_fps_hd 1280 720).
  - reflexivity.
  - vm_compute. reflexivity.
  - vm_compute. reflexivity.
  - eexists. split; vm_compute; reflexivity.
  - simpl. lia.
Defined.

(** * Further properties of the frame-rate string *)

(** X18: a frame-rate string "N/D" whose denominator is zero, such as the
    "0/0" of a stream without a frame rate, raises (ZeroDivisionError);
    [get_infoDict] evaluates it outside any handler. *)
Theorem zero_denominator_raises (s rest : string) (n d : list Z) :
  Spec.split_slash [] s = Some (n, rest) ->
  Spec.all_digits [] rest = Some d ->
  Eval.literal_ok n = true ->
  Eval.literal_ok d = true ->
  Eval.literal_value d = 0 ->
  avg_frame_rate (Some s) = Raises.
Proof.
  intros Hs Hd Hn Hdok Hz.
  rewrite (eval_quotient s rest n d Hs Hd Hn Hdok), Hz.
  unfold Py.int_truediv. destruct (Eval.literal_value n); reflexivity.
Qed.

Lemma zero_denominator_raises_witness : avg_frame_rate (Some "0/0") = Raises.
Proof.
  apply (zero_denominator_raises "0/0" "0" [0] [0]); reflexivity.
Defined.

(** X19: a frame-rate string that is one decimal literal is read as that
    integer and converted to float; the conversion raises (OverflowError)
    when the integer is too large for a float. *)
Theorem integer_frame_rate (s : string) (ds : list Z) :
  Spec.all_digits [] s = Some ds ->
  Eval.literal_ok ds = true ->
  avg_frame_rate (Some s) = Eval.of_option (Py.int2float (Eval.literal_value ds)).
Proof.
  intros Hd Hok.
  destruct (literal_ok_cons ds Hok) as (d0 & d' & Ed).
  unfold avg_frame_rate, Eval.eval.
  rewrite (tokenize_digits s [] ds Hd).
  rewrite Ed. simpl Eval.flush. rewrite <- Ed.
  cbn [Eval.two_ops Eval.syntax_ok forallb negb]. rewrite Hok.
  cbn [andb negb]. unfold Eval.literal. rewrite Hok.
  cbn [Eval.eval_ops Py.to_float]. reflexivity.
Qed.

Lemma integer_frame_rate_witness :
  avg_frame_rate (Some "30") = Eval.of_option (Py.int2float (Eval.literal_value [3; 0])).
Proof.
  apply (integer_frame_rate "30" [3; 0]); reflexivity.
Defined.

(** X20: in mode "divide" with a ratio that is a float between 0 and 1 (as
    the argument parser requires), a native size below 2^53 and a minimum
    size not above the native size, each dimension is at most the native
    one rounded up to even. *)
Theorem divide_never_upscales (ow oh : Z) (r : spec_float) (mw mh : Z)
    (ld : limit_direction) (w h : Z) :
  F64.nonneg r = true ->
  valid_binary Py.prec Py.emax r = true ->
  Py.gt (Py.Float r) (Py.Int 1) = false ->
  0 < ow < 2 ^ 53 -> 0 < oh < 2 ^ 53 ->
  0 <= mw <= ow -> 0 <= mh <= oh ->
  set_size (ow, oh) Divide (CPRatio r) (mw, mh) ld = Some (w, h) ->
  w <= make_even ow /\ h <= make_even oh.
Proof.
  intros Hn Hv Hgt How Hoh Hmw Hmh H.
  destruct (SizeFacts.set_size_parts _ _ _ _ _ _ _ _ _ H)
    as (ratio & w1 & h1 & r' & cw & ch & Er & _ & _ & _ & _ & Ec & Ecw & Ech & -> & ->).
  simpl in Er. injection Er as <-.
  assert (Ok : F64.ok (Py.Float r)) by (split; assumption).
  assert (V1 : (F64.val (Py.Float r) <= 1)%R).
  { destruct (Rle_or_lt (F64.val (Py.Float r)) 1) as [L|G]; [exact L|].
    apply (F64Facts.gt_sound (Py.Float r) (Py.Int 1) Ok I) in G.
    rewrite G in Hgt. discriminate. }
  assert (Hr' : F64.ok r' /\ (F64.val r' <= 1)%R).
  { destruct ((w1 <? mw) || (h1 <? mh)).
    - destruct (SizeFacts.min_ratio_spec ow oh mw mh ld (Py.Float r) r'
                  ltac:(lia) ltac:(lia) ltac:(lia) ltac:(lia) Ok Ec)
        as (qw & qh & _ & _ & Rw & Rh & O' & _ & _ & _ & D).
      split; [exact O'|].
      destruct D as [->|[[_ ->]|[_ ->]]]; [exact V1| |].
      + apply (SizeFacts.quotient_le_1 mw ow qw); [lia|lia|exact Rw].
      + apply (SizeFacts.quotient_le_1 mh oh qh); [lia|lia|exact Rh].
    - subst r'. split; assumption. }
  destruct Hr' as [Ok' V'].
  split; apply make_even_mono.
  - apply (SizeFacts.scaled_le_origin ow r' cw); [lia|exact Ok'|exact V'|exact Ecw].
  - apply (SizeFacts.scaled_le_origin oh r' ch); [lia|exact Ok'|exact V'|exact Ech].
Qed.

Lemma divide_never_upscales_witness : 960 <= make_even 1920 /\ 540 <= make_even 1080.
Proof.
  apply (divide_never_upscales 1920 1080 Sample2.half 1 1 LXY 960 540).
  - reflexivity.
  - reflexivity.
  - vm_compute. reflexivity.
  - lia.
  - lia.
  - lia.
  - lia.
  - vm_compute. reflexivity.
Defined.

(** * Properties of [normalize_filename] *)

Lemma string_app_nil (b : string) : (EmptyString ++ b = b)%string.
Proof. reflexivity. Qed.

Lemma string_app_cons (x : ascii) (a b : string) :
  (String x a ++ b = String x (a ++ b))%string.
Proof. reflexivity. Qed.

Lemma string_length_cons (x : ascii) (a : string) :
  String.length (String x a) = S (String.length a).
Proof. reflexivity. Qed.

Lemma string_app_assoc (a b c : string) : ((a ++ b) ++ c = a ++ (b ++ c))%string.
Proof.
  induction a as [|x a IH]; [reflexivity|].
  rewrite !string_app_cons, IH. reflexivity.
Qed.

Lemma string_app_length (a b : string) :
  String.length (a ++ b)%string = (String.length a + String.length b)%nat.
Proof.
  induction a as [|x a IH]; [reflexivity|].
  rewrite string_app_cons, !string_length_cons, IH. reflexivity.
Qed.

Lemma replace_char_app old new (a b : string) :
  replace_char old new (a ++ b)%string =
  (replace_char old new a ++ replace_char old new b)%string.
Proof.
  induction a as [|c a IH]; [reflexivity|].
  rewrite string_app_cons. cbn [replace_char].
  destruct (Ascii.eqb c old); rewrite IH.
  - rewrite string_app_assoc. reflexivity.
  - rewrite string_app_cons. reflexivity.
Qed.

Lemma fold_replace_app (l : list (ascii * string)) : forall a b : string,
  fold_left (λ name '(old, new), replace_char old new name) l (a ++ b)%string =
  (fold_left (λ name '(old, new), replace_char old new name) l a ++
   fold_left (λ name '(old, new), replace_char old new name) l b)%string.
Proof.
  induction l as [|[old new] l IH]; intros a b; [reflexivity|].
  cbn [fold_left]. rewrite replace_char_app. apply IH.
Qed.

Lemma normalize_filename_cons c rest :
  normalize_filename (String c rest) =
  (normalize_filename (String c EmptyString) ++ normalize_filename rest)%string.
Proof.
  unfold normalize_filename.
  change (String c rest) with (String c EmptyString ++ rest)%string.
  apply fold_replace_app.
Qed.

(** What happens to one character. *)
Lemma normalize_char c :
  clean (normalize_filename (String c EmptyString)) = true /\
  (String.length (normalize_filename (String c EmptyString)) <= 1)%nat /\
  (replaced c = false -> normalize_filename (String c EmptyString) = String c EmptyString) /\
  (replaced c = true -> normalize_filename (String c EmptyString) <> String c EmptyString).
Proof.
  destruct c as [[] [] [] [] [] [] [] []]; vm_compute;
    (split; [reflexivity|]); (split; [lia|]); split; intros H;
    first [reflexivity | discriminate].
Qed.

Lemma clean_app (a b : string) : clean (a ++ b)%string = clean a && clean b.
Proof.
  induction a as [|c a IH]; [reflexivity|].
  rewrite string_app_cons. cbn [clean]. rewrite IH. apply andb_assoc.
Qed.

Lemma normalize_filename_clean_lemma s : clean (normalize_filename s) = true.
Proof.
  induction s as [|c s IH]; [reflexivity|].
  rewrite normalize_filename_cons, clean_app, IH.
  destruct (normalize_char c) as [-> _]. reflexivity.
Qed.

Lemma normalize_filename_of_clean s : clean s = true -> normalize_filename s = s.
Proof.
  induction s as [|c s IH]; [reflexivity|]. cbn [clean]. intros H.
  apply andb_true_iff in H as [Hc Hs]. apply negb_true_iff in Hc.
  rewrite normalize_filename_cons, (IH Hs).
  destruct (normalize_char c) as (_ & _ & E & _). rewrite (E Hc). reflexivity.
Qed.

(** X21: the name [normalize_filename] returns holds none of the ten
    characters it replaces (blank, quotes, caret, colon, star, question
    mark, angle brackets, bar), and normalising it again changes nothing. *)
Theorem normalize_filename_clean (name : string) :
  clean (normalize_filename name) = true /\
  normalize_filename (normalize_filename name) = normalize_filename name.
Proof.
  split; [apply normalize_filename_clean_lemma|].
  apply normalize_filename_of_clean, normalize_filename_clean_lemma.
Qed.

(** X22: [normalize_filename] returns a name as it is exactly when the name
    holds none of the ten replaced characters. *)
Theorem normalize_filename_fixed_iff (name : string) :
  normalize_filename name = name <-> clean name = true.
Proof.
  split.
  - intros H. rewrite <- H. apply normalize_filename_clean_lemma.
  - apply normalize_filename_of_clean.
Qed.

(** X23: the ten replacements, done one after the other on the whole name,
    act on each character by itself: the result of a concatenation is the
    concatenation of the results, and the name never gets longer. *)
Theorem normalize_filename_app (a b : string) :
  normalize_filename (a ++ b)%string =
    (normalize_filename a ++ normalize_filename b)%string /\
  (String.length (normalize_filename a) <= String.length a)%nat.
Proof.
  split; [apply fold_replace_app|].
  induction a as [|c a IH]; [vm_compute; lia|].
  rewrite normalize_filename_cons, string_app_length, string_length_cons.
  destruct (normalize_char c) as (_ & L & _). lia.
Qed.

(** * Properties of [to_filetime] and of the estimate *)

(** X24: the two fields [to_filetime] passes to [FILETIME] recombine to
    the number of 100-nanosecond steps [t_int]: the low one is in
    [0, 2^32) and [t_int = high * 2^32 + low]; the high one fits 32 bits
    exactly when [t_int] fits 64. *)
Theorem to_filetime_recombines (t : spec_float) (low high : Z) :
  to_filetime t = Some (low, high) ->
  exists t_int,
    filetime_int t = Some t_int /\
    0 <= low < 2 ^ 32 /\
    t_int = high * 2 ^ 32 + low /\
    (0 <= high < 2 ^ 32 <-> 0 <= t_int < 2 ^ 64).
Proof.
  unfold to_filetime. intros H.
  destruct (filetime_int t) as [t_int|]; simpl in H; [|discriminate].
  injection H as <- <-. exists t_int. split; [reflexivity|].
  change 4294967295 with (Z.ones 32).
  rewrite Z.land_ones, Z.shiftr_div_pow2 by lia.
  pose proof (Z.div_mod t_int (2 ^ 32) ltac:(lia)) as Hdm.
  pose proof (Z.mod_pos_bound t_int (2 ^ 32) ltac:(lia)) as Hr.
  split; [exact Hr|]. split; [lia|].
  change (2 ^ 64) with (2 ^ 32 * 2 ^ 32). change (2 ^ 32) with 4294967296 in *.
  split; intros Hb; lia.
Qed.

Lemma to_filetime_recombines_witness :
  exists t_int,
    filetime_int (S754_zero false) = Some t_int /\
    0 <= 3577643008 < 2 ^ 32 /\
    t_int = 27111902 * 2 ^ 32 + 3577643008 /\
    (0 <= 27111902 < 2 ^ 32 <-> 0 <= t_int < 2 ^ 64).
Proof.
  apply (to_filetime_recombines (S754_zero false) 3577643008 27111902).
  vm_compute. reflexivity.
Defined.

(** X25: when no byte is left ([total_bytes] at or below
    [processed_bytes]: the bytes left are clamped at 0) and the speed
    [processed_bytes / elapsed_time] is a finite float, the estimated
    finish time is the current time. *)
Theorem estimate_is_now_when_nothing_left (now start_time : spec_float)
    (processed_bytes total_bytes : Z) (sn : bool) (mn : positive) (en : Z)
    (sb : bool) (mb : positive) (eb : Z) :
  now = S754_finite sn mn en ->
  total_bytes <= processed_bytes ->
  Py2.truediv (Py.Int processed_bytes)
              (Py.Float (SFsub Py.prec Py.emax now start_time)) =
    Some (Py.Float (S754_finite sb mb eb)) ->
  calculate_estimated_finish_time now processed_bytes total_bytes start_time = Some now.
Proof.
  intros Hnow Hle Hbps. unfold calculate_estimated_finish_time.
  destruct (Py.eq _ _ || (processed_bytes =? 0)); [reflexivity|].
  rewrite Hbps. simpl.
  assert (Hrem : Py.max2 (Py.Int (total_bytes - processed_bytes)) (Py.Int 0) = Py.Int 0).
  { unfold Py.max2, Py.gt, Py.compare.
    destruct (Z.compare_spec 0 (total_bytes - processed_bytes)) as [E|L|G].
    - rewrite <- E. reflexivity.
    - lia.
    - reflexivity. }
  rewrite Hrem. rewrite Hnow. reflexivity.
Qed.

Lemma estimate_is_now_when_nothing_left_witness :
  calculate_estimated_finish_time Sample.f30 10 10 (S754_zero false) = Some Sample.f30.
Proof.
  apply (estimate_is_now_when_nothing_left Sample.f30 (S754_zero false) 10 10
           false 8444249301319680 (-48) false 6004799503160661 (-54)).
  - reflexivity.
  - lia.
  - vm_compute. reflexivity.
Defined.

(** X26: with a mode and a minimum size the argument parser accepts, and a
    video whose width and height are positive and below 2^53, [set_size]
    returns a size: no division by zero, no overflow, no conversion of an
    infinity or a NaN to int. *)
Theorem set_size_defined (ow oh mw mh : Z) (m : mode) (cp : custom_param)
    (ld : limit_direction) :
  mode_accepted m cp = true -> canonical cp = true ->
  min_size_accepted (mw, mh) = true ->
  0 < ow < 2 ^ 53 -> 0 < oh < 2 ^ 53 -> mw < 2 ^ 53 -> mh < 2 ^ 53 ->
  is_Some (set_size (ow, oh) m cp (mw, mh) ld).
Proof.
  intros Ha Hc Hs How Hoh Hmw Hmh.
  unfold min_size_accepted in Hs. simpl in Hs.
  apply negb_true_iff, orb_false_iff in Hs as [Hs1 Hs2].
  apply Z.ltb_ge in Hs1, Hs2.
  destruct (SizeDefined.mode_ratio_defined ow oh m cp ld Ha Hc How Hoh)
    as (ratio & Er & Ok & V).
  apply (SizeDefined.set_size_defined_from ow oh mw mh m cp ld ratio);
    try assumption; lia.
Qed.

Lemma set_size_defined_witness :
  is_Some (set_size (1920, 1080) Divide (CPRatio Sample2.half) (1, 1) LXY).
Proof.
  apply (set_size_defined 1920 1080 1 1 Divide (CPRatio Sample2.half) LXY).
  - vm_compute. reflexivity.
  - reflexivity.
  - reflexivity.
  - lia.
  - lia.
  - lia.
  - lia.
Defined.
